(** * The question-decomposition engine of backend/agent.js, and the
      audit adapter of backend/crewaudit.js

    A shallow embedding of [answerWithAgent] (the frontier loop, the
    per-question resolution and the rendering of blocks), of the text
    helpers it uses ([normalize], [isMcpNotFound], [stripSourcesSection],
    [extractLatestUserQuestion]) and of [auditAndPolish].

    Conventions of the embedding.
    - A JavaScript string is a list of code units ([jsstring]).  The code
      units are those of the range U+0000..U+00FF, one [ascii] each; the
      white space of [trim] and of the regular-expression class \s is, in
      that range, the characters 9-13, 32 and 160, and [toLowerCase] moves
      A-Z and the capital letters of U+00C0..U+00DE (except U+00D7).
    - An [await]ed call that may reject is a value of [result]: [Ok v] or
      [Throw msg].  The external services (the classifier, the knowledge
      base, the search API, the chat-completion model) are the fields of
      the record [providers]; a field answers the same request the same
      way.
    - The mutable locals of [answerWithAgent] ([answered], [children],
      [seen], [totalGenerated]) are the fields of [state]; the record also
      keeps two histories of the run: the requests sent to the services
      ([calls]) and the keys passed to [answered.set] ([writes]), each in
      the order they happened.
    - [Promise.all] over the pocket is run in pocket order: the tasks of a
      round write disjoint keys, so another completion order changes only
      the order of insertion into [answered]. *)

From Stdlib Require Import List Ascii String Bool Arith Lia PeanoNat.
From Stdlib Require Import DecimalString DecimalNat.
Import ListNotations.

Set Implicit Arguments.

(* ================================================================== *)
(** ** JavaScript strings *)

Definition jsstring := list ascii.

Definition lit (s : string) : jsstring := list_ascii_of_string s.

Definition jsstring_eqb (a b : jsstring) : bool :=
  if list_eq_dec ascii_dec a b then true else false.

(** Truthiness of a string: the empty string is falsy. *)
Definition truthy (s : jsstring) : bool :=
  match s with [] => false | _ :: _ => true end.

(** White space, as [String.prototype.trim] and the class \s see it. *)
Definition is_space (c : ascii) : bool :=
  let n := nat_of_ascii c in
  ((9 <=? n) && (n <=? 13)) || (n =? 32) || (n =? 160).

(** [toLowerCase] on one code unit. *)
Definition lower_char (c : ascii) : ascii :=
  let n := nat_of_ascii c in
  if ((65 <=? n) && (n <=? 90))
     || ((192 <=? n) && (n <=? 222) && negb (n =? 215))
  then ascii_of_nat (n + 32) else c.

Definition toLowerCase (s : jsstring) : jsstring := map lower_char s.

Fixpoint trimStart (s : jsstring) : jsstring :=
  match s with
  | [] => []
  | c :: r => if is_space c then trimStart r else s
  end.

Fixpoint trimEnd (s : jsstring) : jsstring :=
  match s with
  | [] => []
  | c :: r =>
      match trimEnd r with
      | [] => if is_space c then [] else [c]
      | r' => c :: r'
      end
  end.

Definition trim (s : jsstring) : jsstring := trimEnd (trimStart s).

(** [s.replace(/\s+/g, " ")]: every maximal run of white space becomes
    one space (emitted when the run ends). *)
Fixpoint replace_ws_runs (s : jsstring) : jsstring :=
  match s with
  | [] => []
  | c :: r =>
      if is_space c then
        match r with
        | c' :: _ => if is_space c' then replace_ws_runs r
                     else " "%char :: replace_ws_runs r
        | [] => [" "%char]
        end
      else c :: replace_ws_runs r
  end.

Fixpoint startsWith (p s : jsstring) : bool :=
  match p, s with
  | [], _ => true
  | _ :: _, [] => false
  | a :: p', b :: s' => if ascii_dec a b then startsWith p' s' else false
  end.

(** [s.includes(p)] *)
Fixpoint includes (p s : jsstring) : bool :=
  startsWith p s ||
  match s with
  | [] => false
  | _ :: r => includes p r
  end.

(** [arr.join(sep)] on strings. *)
Fixpoint join (sep : jsstring) (l : list jsstring) : jsstring :=
  match l with
  | [] => []
  | [x] => x
  | x :: r => x ++ sep ++ join sep r
  end.

(* ================================================================== *)
(** ** Text helpers of agent.js *)

(** [normalize], agent.js:391
    [String(s || "").trim().replace(/\s+/g, " ").toLowerCase()] *)
Definition normalize (s : jsstring) : jsstring :=
  toLowerCase (replace_ws_runs (trim s)).

(** [isMcpNotFound], agent.js:57 *)
Definition isMcpNotFound (text : jsstring) : bool :=
  if negb (truthy text) then true else
  let t := toLowerCase text in
  if includes (lit "not available in our current document") t then true else
  if includes (lit "company information file not found") t then true else
  if includes (lit "policy file not found") t then false else
  if includes (lit "no companies found in the knowledge base") t then true else
  if startsWith (lit "error:") t then true else
  false.

(** Does the regular expression [/\n\s*Sources:\s*[\s\S]*$/i] match at the
    head of [s]?  After the line feed the white space is skipped, then the
    label is compared without case; what follows the label always matches
    [\s*[\s\S]*$]. *)
Definition sources_at (s : jsstring) : bool :=
  match s with
  | [] => false
  | c :: r =>
      if ascii_dec c "010"%char
      then startsWith (lit "sources:") (toLowerCase (trimStart r))
      else false
  end.

(** The text before the leftmost match of the expression (the whole text
    when it matches nowhere). *)
Fixpoint cut_sources (s : jsstring) : jsstring :=
  match s with
  | [] => []
  | c :: r => if sources_at s then [] else c :: cut_sources r
  end.

(** [stripSourcesSection], agent.js:33 *)
Definition stripSourcesSection (text : jsstring) : jsstring :=
  if negb (truthy text) then [] else trim (cut_sources text).

(** Does the expression match somewhere in [s]? *)
Fixpoint has_sources_section (s : jsstring) : bool :=
  sources_at s ||
  match s with
  | [] => false
  | _ :: r => has_sources_section r
  end.

(** [extractLatestUserQuestion], agent.js:23.  The chat is scanned from
    its last message; [latest_user_question] takes it reversed. *)
Record message := { role : jsstring; content : jsstring }.

Fixpoint latest_user_question (rev_chat : list message) : jsstring :=
  match rev_chat with
  | [] => []
  | m :: r =>
      if jsstring_eqb (role m) (lit "user") then
        let q := trim (content m) in
        if truthy q then q else latest_user_question r
      else latest_user_question r
  end.

Definition extractLatestUserQuestion (chat : list message) : jsstring :=
  latest_user_question (rev chat).

(* ================================================================== *)
(** ** Results of awaited calls, and the external services *)

Inductive result (A : Type) : Type :=
| Ok (a : A)
| Throw (msg : jsstring).
Arguments Ok {A} a.
Arguments Throw {A} msg.

(** One element of [organic_results]; a field may be absent. *)
Record raw_result := {
  raw_title : option jsstring;
  raw_link : option jsstring;
  raw_snippet : option jsstring }.

Record web_result := {
  title : jsstring;
  link : jsstring;
  snippet : jsstring }.

(** The services the run awaits.
    - [SERPAPI_API_KEY]: [process.env.SERPAPI_API_KEY].
    - [serpapi_organic q num]: the request of [searchWeb] to the search
      API, up to the array [organic] (agent.js:97-104); [Throw] for a
      network failure, a status that is not 2xx or a body that is not JSON.
    - [web_completion user]: the chat completion of [answerFromWeb] under
      its fixed system prompt, up to [resp.choices?.[0]?.message?.content].
    - [isQuantifiable], [decomposeToQuantifiable],
      [detectFollowupsFromAnswer]: the three functions of agent.js of
      those names (a completion and the parsing of its JSON); the elements
      of the arrays they return are taken as strings.
    - [callAskChatGPT]: the function of mcpClient.js. *)
Record providers := {
  SERPAPI_API_KEY : option jsstring;
  serpapi_organic : jsstring -> nat -> result (list raw_result);
  web_completion : jsstring -> result (option jsstring);
  isQuantifiable : jsstring -> result bool;
  decomposeToQuantifiable : jsstring -> result (list jsstring);
  detectFollowupsFromAnswer : jsstring -> jsstring -> result (list jsstring);
  callAskChatGPT : list message -> result jsstring }.

(** A request sent to a service. *)
Inductive call : Type :=
| CallClassifier (question : jsstring)
| CallKnowledgeBase (chat : list message)
| CallWebSearch (query : jsstring)
| CallWebCompletion (user : jsstring)
| CallDecompose (question : jsstring)
| CallFollowups (question answer : jsstring).

(* ================================================================== *)
(** ** The state of a run *)

(** A JavaScript [Map] with string keys: the entries in insertion order.
    [Map_set] on a key that is present replaces the value in place. *)
Definition JsMap (V : Type) := list (jsstring * V).

Fixpoint Map_get {V} (k : jsstring) (m : JsMap V) : option V :=
  match m with
  | [] => None
  | (k', v) :: r => if jsstring_eqb k' k then Some v else Map_get k r
  end.

Definition Map_has {V} (k : jsstring) (m : JsMap V) : bool :=
  match Map_get k m with Some _ => true | None => false end.

Fixpoint Map_set {V} (k : jsstring) (v : V) (m : JsMap V) : JsMap V :=
  match m with
  | [] => [(k, v)]
  | (k', v') :: r =>
      if jsstring_eqb k' k then (k, v) :: r else (k', v') :: Map_set k v r
  end.

Definition Map_keys {V} (m : JsMap V) : list jsstring := map fst m.
Definition Map_values {V} (m : JsMap V) : list V := map snd m.

(** A JavaScript [Set] of strings, in insertion order. *)
Definition JsSet := list jsstring.

Definition Set_has (k : jsstring) (s : JsSet) : bool :=
  existsb (jsstring_eqb k) s.

Definition Set_add (k : jsstring) (s : JsSet) : JsSet :=
  if Set_has k s then s else s ++ [k].

(** The value stored in [answered] (agent.js:453, 504). *)
Record entry := {
  questionOriginal : jsstring;
  quantifiable : bool;
  answer : jsstring;
  source : option jsstring;
  sources : list jsstring;
  parentOriginal : option jsstring;
  parentKey : option jsstring }.

(** An element of an array of [children] (agent.js:408). *)
Record edge := {
  key : jsstring;
  edge_questionOriginal : jsstring }.

(** A node of the pocket (agent.js:413). *)
Record node := {
  node_questionOriginal : jsstring;
  node_parentOriginal : option jsstring;
  depth : nat }.

Record state := {
  answered : JsMap entry;
  children : JsMap (list edge);
  seen : JsSet;
  totalGenerated : nat;
  calls : list call;
  writes : list jsstring }.

Definition initial_state : state :=
  {| answered := []; children := []; seen := []; totalGenerated := 1;
     calls := []; writes := [] |}.

(** Computations on the state that may throw.  The state reached when
    the exception is raised is kept, so that [try_catch] resumes from it. *)
Definition M (A : Type) : Type := state -> result A * state.

Definition ret {A} (a : A) : M A := fun st => (Ok a, st).

Definition bind {A B} (m : M A) (f : A -> M B) : M B :=
  fun st =>
    match m st with
    | (Ok a, st') => f a st'
    | (Throw e, st') => (Throw e, st')
    end.

Definition throw {A} (msg : jsstring) : M A := fun st => (Throw msg, st).

(** [try { m } catch { h }] *)
Definition try_catch {A} (m h : M A) : M A :=
  fun st =>
    match m st with
    | (Ok a, st') => (Ok a, st')
    | (Throw _, st') => h st'
    end.

Declare Scope js_scope.
Delimit Scope js_scope with js.
Notation "x <- m ;; k" := (bind m (fun x => k))
  (at level 61, m at next level, right associativity) : js_scope.
Notation "m ;;; k" := (bind m (fun _ => k))
  (at level 61, right associativity) : js_scope.
Open Scope js_scope.

(** Awaiting a service: the request is recorded, then the service's
    answer is returned or thrown. *)
Definition request {A} (c : call) (r : result A) : M A :=
  fun st =>
    (r, {| answered := answered st; children := children st;
           seen := seen st; totalGenerated := totalGenerated st;
           calls := calls st ++ [c]; writes := writes st |}).

Definition answered_set (k : jsstring) (e : entry) : M unit :=
  fun st =>
    (Ok tt, {| answered := Map_set k e (answered st);
               children := children st; seen := seen st;
               totalGenerated := totalGenerated st; calls := calls st;
               writes := writes st ++ [k] |}).

Definition add_generated (n : nat) : M unit :=
  fun st =>
    (Ok tt, {| answered := answered st; children := children st;
               seen := seen st; totalGenerated := totalGenerated st + n;
               calls := calls st; writes := writes st |}).

(* ================================================================== *)
(** ** Web search and the answer from snippets *)

(** [r?.title || ""] *)
Definition or_empty (o : option jsstring) : jsstring :=
  match o with Some s => s | None => [] end.

(** [searchWeb], agent.js:79 *)
Definition searchWeb (P : providers) (query : jsstring) (num : nat)
  : M (list web_result) :=
  if negb (truthy (or_empty (SERPAPI_API_KEY P))) then
    throw (lit "SERPAPI_API_KEY is not set. Add it to your .env to enable web search.")
  else
    organic <- request (CallWebSearch query) (serpapi_organic P query num) ;;
    ret (map (fun r => {| title := or_empty (raw_title r);
                          link := or_empty (raw_link r);
                          snippet := or_empty (raw_snippet r) |})
             (firstn num organic)).

Definition nat_to_jsstring (n : nat) : jsstring :=
  lit (NilEmpty.string_of_uint (Nat.to_uint n)).

Definition LF : jsstring := ["010"%char].

(** The elements of [context], numbered from [i + 1] (agent.js:122). *)
Fixpoint snippet_blocks (i : nat) (results : list web_result)
  : list jsstring :=
  match results with
  | [] => []
  | r :: rest =>
      (lit "Source " ++ nat_to_jsstring (i + 1) ++ LF ++
       lit "Title: " ++ title r ++ LF ++
       lit "URL: " ++ link r ++ LF ++
       lit "Snippet: " ++ snippet r ++ LF)
      :: snippet_blocks (i + 1) rest
  end.

Record web_answer := {
  web_ok : bool;
  web_text : jsstring;
  web_sources : list jsstring }.

(** [answerFromWeb], agent.js:115 *)
Definition answerFromWeb (P : providers) (question : jsstring)
  : M web_answer :=
  results <- searchWeb P question 5 ;;
  match results with
  | [] => ret {| web_ok := false; web_text := lit "No web results found.";
                 web_sources := [] |}
  | _ :: _ =>
      let context := join LF (snippet_blocks 0 results) in
      let user :=
        trim (LF ++ lit "Question: " ++ question ++ LF ++ LF ++
              lit "Web snippets:" ++ LF ++ context ++ LF) in
      resp <- request (CallWebCompletion user) (web_completion P user) ;;
      let text := match resp with Some c => trim c | None => [] end in
      let sources :=
        map link (filter (fun r => truthy (link r)) results) in
      ret {| web_ok := true; web_text := text; web_sources := sources |}
  end.

(* ================================================================== *)
(** ** The frontier loop of [answerWithAgent] *)

Definition MAX_DEPTH : nat := 1.

(** The sentinel of agent.js:456 and crewaudit.js:8; its dash, outside the
    range of the code units, is kept as the bytes of the literal. *)
Definition NON_QUANTIFIABLE : jsstring :=
  lit "[Not answered — non-quantifiable]".

(** [addChild], agent.js:403, on the table [children]. *)
Definition addChild (parentKey childKey childOriginal : jsstring)
  (ch : JsMap (list edge)) : JsMap (list edge) :=
  if negb (truthy parentKey) then ch else
  let ch1 := if Map_has parentKey ch then ch else Map_set parentKey [] ch in
  let arr := match Map_get parentKey ch1 with Some a => a | None => [] end in
  if existsb (fun x => jsstring_eqb (key x) childKey) arr then ch1
  else Map_set parentKey
         (arr ++ [{| key := childKey;
                     edge_questionOriginal := childOriginal |}]) ch1.

(** [x ? f(x) : null] on a value that is a string or null. *)
Definition if_truthy (o : option jsstring) (f : jsstring -> jsstring)
  : option jsstring :=
  match o with
  | Some s => if truthy s then Some (f s) else None
  | None => None
  end.

(** The body of the loop over the pocket that records the edges and
    filters the duplicates (agent.js:421-438): the state after one node,
    and the node pushed on [uniquePocket], if any. *)
Definition dedup_node (nd : node) (st : state) : state * option node :=
  let q := trim (node_questionOriginal nd) in
  if negb (truthy q) then (st, None) else
  let qKey := normalize q in
  let parentOriginal := if_truthy (node_parentOriginal nd) trim in
  let parentKey := if_truthy parentOriginal normalize in
  let ch :=
    match parentKey with
    | Some pk => if truthy pk then addChild pk qKey q (children st)
                 else children st
    | None => children st
    end in
  if Set_has qKey (seen st) then
    ({| answered := answered st; children := ch; seen := seen st;
        totalGenerated := totalGenerated st; calls := calls st;
        writes := writes st |}, None)
  else
    ({| answered := answered st; children := ch;
        seen := Set_add qKey (seen st);
        totalGenerated := totalGenerated st; calls := calls st;
        writes := writes st |},
     Some {| node_questionOriginal := q;
             node_parentOriginal := parentOriginal;
             depth := depth nd |}).

Fixpoint dedup_pass (pocket : list node) (st : state)
  : state * list node :=
  match pocket with
  | [] => (st, [])
  | nd :: rest =>
      let (st1, kept) := dedup_node nd st in
      let (st2, uniquePocket) := dedup_pass rest st1 in
      (st2, match kept with
            | Some u => u :: uniquePocket
            | None => uniquePocket
            end)
  end.

(** The nodes made from the strings a service proposed
    (agent.js:467-477 and 518-528); [totalGenerated] grows by one for
    each. *)
Definition expand (qOriginal : jsstring) (d : nat)
  (proposed : list jsstring) : M (list node) :=
  let kept := filter truthy (map trim proposed) in
  add_generated (List.length kept) ;;;
  ret (map (fun s => {| node_questionOriginal := s;
                        node_parentOriginal := Some qOriginal;
                        depth := d + 1 |}) kept).

(** The knowledge base, then the web (agent.js:484-502): the answer
    text, the source and the source links. *)
Definition answer_quantifiable (P : providers) (qOriginal : jsstring)
  : M (jsstring * jsstring * list jsstring) :=
  try_catch
    (mcpAnswer <- request
        (CallKnowledgeBase [{| role := lit "user"; content := qOriginal |}])
        (callAskChatGPT P [{| role := lit "user"; content := qOriginal |}]) ;;
     if negb (isMcpNotFound mcpAnswer)
     then ret (trim mcpAnswer, lit "mcp", [])
     else throw (lit "MCP not found"))
    (web <- answerFromWeb P qOriginal ;;
     ret (if web_ok web then stripSourcesSection (web_text web)
          else lit "No data found.",
          lit "web", web_sources web)).

(** The task run for one node of [uniquePocket] (agent.js:444-532); it
    returns [nextNodes]. *)
Definition resolve_node (P : providers) (max_depth : nat) (nd : node)
  : M (list node) :=
  let qOriginal := node_questionOriginal nd in
  let qKey := normalize qOriginal in
  let pKey := if_truthy (node_parentOriginal nd) normalize in
  is_q <- request (CallClassifier qOriginal) (isQuantifiable P qOriginal) ;;
  if negb is_q then
    answered_set qKey
      {| questionOriginal := qOriginal; quantifiable := false;
         answer := NON_QUANTIFIABLE; source := None; sources := [];
         parentOriginal := node_parentOriginal nd; parentKey := pKey |} ;;;
    if depth nd <? max_depth then
      subs <- request (CallDecompose qOriginal)
                      (decomposeToQuantifiable P qOriginal) ;;
      expand qOriginal (depth nd) subs
    else ret []
  else
    r <- answer_quantifiable P qOriginal ;;
    let '(answerText, src, srcs) := r in
    answered_set qKey
      {| questionOriginal := qOriginal; quantifiable := true;
         answer := answerText; source := Some src; sources := srcs;
         parentOriginal := node_parentOriginal nd; parentKey := pKey |} ;;;
    if depth nd <? max_depth then
      followups <- request (CallFollowups qOriginal answerText)
                     (detectFollowupsFromAnswer P qOriginal answerText) ;;
      expand qOriginal (depth nd) followups
    else ret [].

(** [Promise.all(uniquePocket.map(...))] followed by the [flatMap] of the
    [nextNodes] (agent.js:443, 536). *)
Fixpoint resolve_all (P : providers) (max_depth : nat)
  (uniquePocket : list node) : M (list node) :=
  match uniquePocket with
  | [] => ret []
  | nd :: rest =>
      nextNodes <- resolve_node P max_depth nd ;;
      others <- resolve_all P max_depth rest ;;
      ret (nextNodes ++ others)
  end.

(** One turn of the [while] loop: the new pocket.  The [break] on an
    empty [uniquePocket] leaves the loop as an empty new pocket does. *)
Definition round (P : providers) (max_depth : nat) (pocket : list node)
  : M (list node) :=
  fun st =>
    let (st1, uniquePocket) := dedup_pass pocket st in
    match uniquePocket with
    | [] => (Ok [], st1)
    | _ :: _ => resolve_all P max_depth uniquePocket st1
    end.

(** [while (pocket.length > 0) { ... }], with at most [fuel] turns;
    [None] when the turns are used up. *)
Fixpoint frontier_loop (P : providers) (max_depth : nat) (fuel : nat)
  (pocket : list node) (st : state) : option (result unit * state) :=
  match pocket with
  | [] => Some (Ok tt, st)
  | _ :: _ =>
      match fuel with
      | 0 => None
      | S fuel' =>
          match round P max_depth pocket st with
          | (Ok pocket', st') => frontier_loop P max_depth fuel' pocket' st'
          | (Throw e, st') => Some (Throw e, st')
          end
      end
  end.

(** The pocket and the state after [n] turns of the loop. *)
Fixpoint rounds (P : providers) (max_depth : nat) (n : nat)
  (pocket : list node) : M (list node) :=
  match n with
  | 0 => ret pocket
  | S n' => pocket' <- round P max_depth pocket ;; rounds P max_depth n' pocket'
  end.

Definition root_pocket (initialQuestion : jsstring) : list node :=
  [{| node_questionOriginal := trim initialQuestion;
      node_parentOriginal := None; depth := 0 |}].

(* ================================================================== *)
(** ** Rendering and the value returned *)

Fixpoint repeat_string (s : jsstring) (n : nat) : jsstring :=
  match n with 0 => [] | S n' => s ++ repeat_string s n' end.

(** The lines [render] writes for the node itself (agent.js:546-555). *)
Definition render_head (ans : JsMap entry) (qOriginal : jsstring)
  (indent : nat) : jsstring :=
  let pad := repeat_string (lit "  ") indent in
  pad ++ lit "- Q: " ++ qOriginal ++ LF ++
  match Map_get (normalize qOriginal) ans with
  | Some e =>
      pad ++ lit "  Quantifiable: " ++
        (if quantifiable e then lit "yes" else lit "no") ++ LF ++
      pad ++ lit "  A: " ++ answer e ++ LF ++
      match source e with
      | Some s => if truthy s then pad ++ lit "  Source: " ++ s ++ LF else []
      | None => []
      end
  | None =>
      pad ++ lit "  Quantifiable: unknown" ++ LF ++
      pad ++ lit "  A: [No entry generated]" ++ LF
  end.

(** [render], agent.js:540, with at most [fuel] nested calls; [None] when
    the recursion goes deeper. *)
Fixpoint render (fuel : nat) (ans : JsMap entry) (ch : JsMap (list edge))
  (qOriginal : jsstring) (indent : nat) : option jsstring :=
  match fuel with
  | 0 => None
  | S fuel' =>
      let kids :=
        match Map_get (normalize qOriginal) ch with
        | Some a => a
        | None => []
        end in
      match
        (fix render_kids (ks : list edge) : option jsstring :=
           match ks with
           | [] => Some []
           | k :: r =>
               match render fuel' ans ch (edge_questionOriginal k)
                            (indent + 1) with
               | None => None
               | Some o =>
                   match render_kids r with
                   | None => None
                   | Some o' => Some (o ++ o')
                   end
               end
           end) kids
      with
      | None => None
      | Some body => Some (render_head ans qOriginal indent ++ body)
      end
  end.

Record block := {
  id : jsstring;
  question : jsstring;
  block_answer : jsstring;
  block_sources : list jsstring }.

(** [Array.from(answered.values()).map((x, i) => ...)], from index [i]. *)
Fixpoint make_blocks (i : nat) (values : list entry) : list block :=
  match values with
  | [] => []
  | x :: r =>
      {| id := nat_to_jsstring i; question := questionOriginal x;
         block_answer := answer x; block_sources := sources x |}
      :: make_blocks (i + 1) r
  end.

Record run_stats := {
  questionsAnswered : nat;
  stats_totalGenerated : nat;
  totalSeen : nat }.

(** The value [answerWithAgent] resolves to. *)
Inductive response : Type :=
| Failure (error : jsstring)
| Success (blocks : list block) (rendered : jsstring) (stats : run_stats).

Definition run_frontier (P : providers) (max_depth fuel : nat)
  (initialQuestion : jsstring) : option (result unit * state) :=
  frontier_loop P max_depth fuel (root_pocket initialQuestion) initial_state.

(** [answerWithAgent], agent.js:385.  [None]: the loop used up its [fuel]
    turns.  The recursion of [render] follows the edges of [children]; a
    path longer than the number of keys of [children] repeats a key and
    never ends, which the engine reports as a [RangeError]. *)
Definition answerWithAgent (P : providers) (fuel : nat)
  (chat : list message) : option (result response) :=
  let initialQuestion := extractLatestUserQuestion chat in
  if negb (truthy initialQuestion)
  then Some (Ok (Failure (lit "No user question found.")))
  else
    match run_frontier P MAX_DEPTH fuel initialQuestion with
    | None => None
    | Some (Throw e, _) => Some (Throw e)
    | Some (Ok _, st) =>
        let blocks := make_blocks 0 (Map_values (answered st)) in
        match render (List.length (children st) + 1) (answered st)
                     (children st) (trim initialQuestion) 0 with
        | None => Some (Throw (lit "Maximum call stack size exceeded"))
        | Some rendered =>
            Some (Ok (Success blocks rendered
                   {| questionsAnswered := List.length blocks;
                      stats_totalGenerated := totalGenerated st;
                      totalSeen := List.length (answered st) |}))
        end
    end.

(* ================================================================== *)
(** ** [auditAndPolish], crewaudit.js *)

(** What [auditAndPolish] reads of the response to the kickoff request:
    [kickoffResp.ok] and, from its JSON body, [task_id]. *)
Record kickoff_response := {
  kickoff_ok : bool;
  task_id : option jsstring }.

(** What it reads of a status response: [statusResp.ok], [status.status],
    and of [status.result] (parsed when it is a string that parses) the
    fields [answer] and [sources], the latter when it is an array. *)
Record status_response := {
  status_ok : bool;
  status : jsstring;
  parsed_answer : option jsstring;
  parsed_sources : option (list jsstring) }.

(** The environment of crewaudit.js: the two variables, the kickoff
    request (with its JSON body) and the status request of the [i]-th
    polling turn.  [Throw] is a [fetch] or a [json()] that rejects. *)
Record crew := {
  CREWAI_BASE_URL : option jsstring;
  CREWAI_TOKEN : option jsstring;
  fetch_kickoff : jsstring -> jsstring -> list jsstring
                  -> result kickoff_response;
  fetch_status : nat -> jsstring -> result status_response }.

Record audit_result := {
  audit_ok : bool;
  audit_answer : jsstring;
  audit_sources : list jsstring }.

(** The polling loop, crewaudit.js:47-79, from turn [i] with [n] turns
    left. *)
Fixpoint poll_status (C : crew) (taskId draftAnswer : jsstring)
  (srcs : list jsstring) (n i : nat) : result audit_result :=
  let draft := {| audit_ok := true; audit_answer := draftAnswer;
                  audit_sources := srcs |} in
  match n with
  | 0 => Ok draft
  | S n' =>
      match fetch_status C i taskId with
      | Throw e => Throw e
      | Ok resp =>
          if negb (status_ok resp)
          then poll_status C taskId draftAnswer srcs n' (i + 1)
          else if jsstring_eqb (status resp) (lit "completed") then
            if truthy (or_empty (parsed_answer resp)) then
              Ok {| audit_ok := true;
                    audit_answer := or_empty (parsed_answer resp);
                    audit_sources :=
                      match parsed_sources resp with
                      | Some l => l
                      | None => srcs
                      end |}
            else Ok draft
          else if jsstring_eqb (status resp) (lit "failed") then Ok draft
          else poll_status C taskId draftAnswer srcs n' (i + 1)
      end
  end.

(** [auditAndPolish], crewaudit.js:6 *)
Definition auditAndPolish (C : crew) (question : jsstring)
  (is_quantifiable : bool) (draftAnswer : jsstring)
  (srcs : list jsstring) : result audit_result :=
  let draft := {| audit_ok := true; audit_answer := draftAnswer;
                  audit_sources := srcs |} in
  if negb is_quantifiable then
    Ok {| audit_ok := false; audit_answer := NON_QUANTIFIABLE;
          audit_sources := [] |}
  else if negb (truthy (or_empty (CREWAI_BASE_URL C)))
          || negb (truthy (or_empty (CREWAI_TOKEN C)))
  then Ok draft
  else
    match fetch_kickoff C question draftAnswer srcs with
    | Throw e => Throw e
    | Ok kickoff =>
        if negb (kickoff_ok kickoff) then Ok draft
        else if negb (truthy (or_empty (task_id kickoff))) then Ok draft
        else poll_status C (or_empty (task_id kickoff)) draftAnswer srcs 20 0
    end.

(* ================================================================== *)
(** ** The chat endpoint, server.js *)

(** An element of [req.body.messages]: its [role] and its [content],
    each absent ([None]) when it is not a string.  An element that is
    null or not an object reads as one with both fields absent. *)
Record raw_message := {
  raw_role : option jsstring;
  raw_content : option jsstring }.

(** [req.body], as [parseChat] reads it: [message] when it is a string,
    [messages] when it is an array. *)
Record request_body := {
  body_message : option jsstring;
  body_messages : option (list raw_message) }.

(** The test of the [filter] of server.js:25-31. *)
Definition valid_message (m : raw_message) : bool :=
  match raw_role m, raw_content m with
  | Some r, Some c =>
      (jsstring_eqb r (lit "user") || jsstring_eqb r (lit "assistant")
       || jsstring_eqb r (lit "system"))
      && (0 <? List.length (trim c))
  | _, _ => false
  end.

(** [parseChat], server.js:19; [None] is [null]. *)
Definition parseChat (b : request_body) : option (list message) :=
  let chat :=
    match body_messages b with
    | Some (m :: ms) =>
        Some (map (fun m => {| role := or_empty (raw_role m);
                               content := trim (or_empty (raw_content m)) |})
                  (filter valid_message (m :: ms)))
    | _ =>
        match body_message b with
        | Some s =>
            if 0 <? List.length (trim s)
            then Some [{| role := lit "user"; content := trim s |}]
            else None
        | None => None
        end
    end in
  match chat with
  | Some (c :: cs) => Some (c :: cs)
  | _ => None
  end.

(** The JSON body of a reply of POST /api/chat.  [diagram] is always
    null ([answerWithAgent] returns no such field) and [id] is random;
    both are left out. *)
Inductive api_body : Type :=
| ApiError (error : jsstring)
| ApiOk (blocks : list block) (stats : run_stats).

(** The handler of POST /api/chat, server.js:40-71: the status and the
    body of the reply.  [None]: the loop of the run used up its fuel. *)
Definition api_chat (P : providers) (fuel : nat) (b : request_body)
  : option (nat * api_body) :=
  match parseChat b with
  | None => Some (400, ApiError (lit "Message(s) are required."))
  | Some chat =>
      match answerWithAgent P fuel chat with
      | None => None
      | Some (Throw e) =>
          Some (502, ApiError (if truthy e then e
                               else lit "Agent/MCP request failed."))
      | Some (Ok (Failure err)) => Some (400, ApiError err)
      | Some (Ok (Success blocks _ stats)) => Some (200, ApiOk blocks stats)
      end
  end.

(* ================================================================== *)
(** ** The client of the knowledge base, mcpClient.js *)

Module McpClient.

(** An element of [result.content]: [type] and [text], absent when
    undefined. *)
Record content_item := {
  item_type : option jsstring;
  item_text : option jsstring }.

(** The server, as the client sees it: the outcome of [getClient] (the
    connection is made once and its promise kept), the names returned by
    [listTools] ([None] when [tools.tools] is undefined; a name is
    [None] when undefined), and the [content] returned by [callTool]
    ([None] when undefined). *)
Record server := {
  connect : result unit;
  listTools : result (option (list (option jsstring)));
  callTool : list message -> result (option (list content_item)) }.

Definition QUOTE : jsstring := ["034"%char].

Definition is_ask_chatgpt (name : option jsstring) : bool :=
  match name with
  | Some n => jsstring_eqb n (lit "ask_chatgpt")
  | None => false
  end.

(** [result?.content?.find((c) => c?.type === "text")] *)
Definition find_text_item (content : list content_item)
  : option content_item :=
  find (fun c => match item_type c with
                 | Some t => jsstring_eqb t (lit "text")
                 | None => false
                 end) content.

(** The text read from the result (mcpClient.js:55-58): the [text] of
    the first item of type "text", or when that is undefined the [text]
    of the first item, or when that is undefined the empty string. *)
Definition result_text (content : option (list content_item)) : jsstring :=
  let found :=
    match content with
    | Some l => match find_text_item l with
                | Some c => item_text c
                | None => None
                end
    | None => None
    end in
  match found with
  | Some t => t
  | None =>
      match content with
      | Some (c :: _) => or_empty (item_text c)
      | _ => []
      end
  end.

(** [callAskChatGPT], mcpClient.js:31 *)
Definition callAskChatGPT (S : server) (chat : list message)
  : result jsstring :=
  match chat with
  | [] => Throw (lit "chat must be a non-empty array")
  | _ :: _ =>
      match connect S with
      | Throw e => Throw e
      | Ok _ =>
          match listTools S with
          | Throw e => Throw e
          | Ok tools =>
              let names := match tools with Some l => l | None => [] end in
              if negb (existsb is_ask_chatgpt names) then
                Throw (lit "MCP tool " ++ QUOTE ++ lit "ask_chatgpt" ++ QUOTE
                       ++ lit " not found. Available tools: "
                       ++ match tools with
                          | Some l => join (lit ", ") (map or_empty l)
                          | None => lit "undefined"
                          end)
              else
                match callTool S chat with
                | Throw e => Throw e
                | Ok content =>
                    let text := result_text content in
                    if negb (truthy text)
                    then Throw (lit "MCP returned no text content")
                    else Ok text
                end
          end
      end
  end.

End McpClient.

(** The services of a run whose knowledge base is reached through the
    client. *)
Definition with_mcp_client (S : McpClient.server) (P : providers)
  : providers :=
  {| SERPAPI_API_KEY := SERPAPI_API_KEY P;
     serpapi_organic := serpapi_organic P;
     web_completion := web_completion P;
     isQuantifiable := isQuantifiable P;
     decomposeToQuantifiable := decomposeToQuantifiable P;
     detectFollowupsFromAnswer := detectFollowupsFromAnswer P;
     callAskChatGPT := McpClient.callAskChatGPT S |}.

(* ================================================================== *)
(** ** The history sent by the page, ChatUI.jsx *)

Definition BAD_ANSWER_STRINGS : list jsstring :=
  [lit "Not enough information in the retrieved snippets.";
   lit "[Not answered — non-quantifiable]"].

(** [isBadAnswerText], ChatUI.jsx:8 *)
Definition isBadAnswerText (ans : jsstring) : bool :=
  existsb (jsstring_eqb (trim ans)) BAD_ANSWER_STRINGS.

Definition SANITIZED_PREFIX : jsstring := lit "### SANITIZED ANSWER:".

(** [s.replace(/^\n+/, "")] *)
Fixpoint drop_line_feeds (s : jsstring) : jsstring :=
  match s with
  | [] => []
  | c :: r => if ascii_dec c "010"%char then drop_line_feeds r else s
  end.

(** [stripSanitizedPrefix], ChatUI.jsx:13 *)
Definition stripSanitizedPrefix (text : jsstring) : jsstring :=
  let trimmedStart := trimStart text in
  if negb (startsWith SANITIZED_PREFIX trimmedStart) then text
  else
    let rest := skipn (List.length SANITIZED_PREFIX) trimmedStart in
    let rest := trimStart rest in
    trimStart (drop_line_feeds rest).

(** [filterGoodBlocks], ChatUI.jsx:27, on blocks whose answers are
    strings. *)
Definition filterGoodBlocks (blocks : list block) : list block :=
  filter (fun b => truthy (trim (block_answer b))
                   && negb (isBadAnswerText (block_answer b)))
    (map (fun b => {| id := id b; question := question b;
                      block_answer := stripSanitizedPrefix (block_answer b);
                      block_sources := block_sources b |}) blocks).

(** A turn of a chat of the page. *)
Record turn := {
  userText : jsstring;
  turn_blocks : list block }.

(** The messages one turn contributes (ChatUI.jsx:47-59). *)
Definition turn_messages (t : turn) : list message :=
  let answers :=
    join (LF ++ LF)
         (filter truthy (map block_answer (filterGoodBlocks (turn_blocks t))))
  in
  {| role := lit "user"; content := userText t |}
  :: (if truthy (trim answers)
      then [{| role := lit "assistant"; content := answers |}]
      else []).

(** [buildPayloadMessagesFromTurns], ChatUI.jsx:44 *)
Definition buildPayloadMessagesFromTurns (turns : list turn)
  (newUserText : jsstring) : list message :=
  flat_map turn_messages turns
  ++ [{| role := lit "user"; content := newUserText |}].

(** The body the page posts (ChatUI.jsx:262): [{ messages }]. *)
Definition posted_body (msgs : list message) : request_body :=
  {| body_message := None;
     body_messages :=
       Some (map (fun m => {| raw_role := Some (role m);
                              raw_content := Some (content m) |}) msgs) |}.

(* ================================================================== *)
(** ** Predicates used in the statements *)

(** A status response that lets the polling go on: a status that is not
    2xx, or a task neither "completed" nor "failed". *)
Definition status_pending (resp : status_response) : bool :=
  negb (status_ok resp)
  || (negb (jsstring_eqb (status resp) (lit "completed"))
      && negb (jsstring_eqb (status resp) (lit "failed"))).

(** The draft, as [auditAndPolish] returns it. *)
Definition draft_result (draftAnswer : jsstring) (srcs : list jsstring)
  : audit_result :=
  {| audit_ok := true; audit_answer := draftAnswer; audit_sources := srcs |}.

(** Is the audit service configured? *)
Definition crew_configured (C : crew) : bool :=
  truthy (or_empty (CREWAI_BASE_URL C)) && truthy (or_empty (CREWAI_TOKEN C)).

(** The message of the error [searchWeb] throws (agent.js:85). *)
Definition MISSING_KEY : jsstring :=
  lit "SERPAPI_API_KEY is not set. Add it to your .env to enable web search.".


(** No white space at the head. *)
Definition no_lead (s : jsstring) : bool :=
  match s with [] => true | c :: _ => negb (is_space c) end.

(** No white space at the end. *)
Fixpoint no_trail (s : jsstring) : bool :=
  match s with
  | [] => true
  | c :: r => match r with [] => negb (is_space c) | _ :: _ => no_trail r end
  end.


(** The key under which a node is answered. *)
Definition node_key (nd : node) : jsstring :=
  normalize (node_questionOriginal nd).

(** The edges recorded under [pk] whose child key is [ck]. *)
Definition edges_to (pk ck : jsstring) (ch : JsMap (list edge))
  : list edge :=
  filter (fun x => jsstring_eqb (key x) ck)
         (match Map_get pk ch with Some a => a | None => [] end).

Definition is_resolver_call (c : call) : bool :=
  match c with
  | CallKnowledgeBase _ | CallWebSearch _ | CallWebCompletion _ => true
  | _ => false
  end.

(** The chat [callAskChatGPT] receives for a question (agent.js:489). *)
Definition kb_chat (qOriginal : jsstring) : list message :=
  [{| role := lit "user"; content := qOriginal |}].

(** The links [answerFromWeb] returns for the array [organic]. *)
Definition links_used (organic : list raw_result) : list jsstring :=
  filter truthy (map (fun r => or_empty (raw_link r)) (firstn 5 organic)).

(** The parts of the state a step leaves alone when it only sends
    requests or counts generated questions. *)
Definition quiet (st st' : state) : Prop :=
  answered st' = answered st /\ children st' = children st /\
  seen st' = seen st /\ writes st' = writes st /\
  exists l, calls st' = calls st ++ l.

(** A node proposed by the task of [nd]. *)
Definition child_of (nd n : node) : Prop :=
  depth n = depth nd + 1 /\
  node_parentOriginal n = Some (node_questionOriginal nd) /\
  truthy (node_questionOriginal n) = true /\
  trim (node_questionOriginal n) = node_questionOriginal n.

(** The entries the task of a question [q] can write: the
    non-quantifiable sentinel, the trimmed answer of the knowledge base,
    or the answer of the web tier. *)
Definition entry_from (P : providers) (q : jsstring) (e : entry) : Prop :=
  questionOriginal e = q /\
  ((isQuantifiable P q = Ok false /\ quantifiable e = false /\
    answer e = NON_QUANTIFIABLE /\ source e = None /\ sources e = []) \/
   (isQuantifiable P q = Ok true /\ quantifiable e = true /\
    source e = Some (lit "mcp") /\ sources e = [] /\
    exists t, callAskChatGPT P (kb_chat q) = Ok t /\
              isMcpNotFound t = false /\ answer e = trim t) \/
   (isQuantifiable P q = Ok true /\ quantifiable e = true /\
    source e = Some (lit "web") /\
    (forall t, callAskChatGPT P (kb_chat q) = Ok t ->
               isMcpNotFound t = true) /\
    exists organic,
      serpapi_organic P q 5 = Ok organic /\
      sources e = links_used organic /\
      (answer e = lit "No data found." \/
       exists c, answer e = stripSourcesSection c))).

(** An entry of [answered] sits under the key of its question and is one
    the task of that question writes. *)
Definition entry_ok (P : providers) (ke : jsstring * entry) : Prop :=
  fst ke = normalize (questionOriginal (snd ke)) /\
  entry_from P (questionOriginal (snd ke)) (snd ke).

(** The invariant of the loop: the keys seen are distinct, the keys
    written are distinct and were seen, and [answered] holds one entry
    for each key written, in the order of the writes. *)
Definition engine_inv (P : providers) (st : state) : Prop :=
  NoDup (seen st) /\ NoDup (writes st) /\ incl (writes st) (seen st) /\
  Map_keys (answered st) = writes st /\
  Forall (entry_ok P) (answered st).

(** A node of a pocket that a task proposed: a trimmed, non-empty
    question under a trimmed, non-empty parent. *)
Definition wf_child (n : node) : Prop :=
  truthy (node_questionOriginal n) = true /\
  trim (node_questionOriginal n) = node_questionOriginal n /\
  exists p, node_parentOriginal n = Some p /\
            truthy p = true /\ trim p = p.

(** From one table of edges to a later one: under every parent the
    edges to a child key are kept, and at most a first one is added. *)
Definition edges_grow (ch ch' : JsMap (list edge)) : Prop :=
  forall pk ck,
    List.length (edges_to pk ck ch) <= List.length (edges_to pk ck ch') /\
    List.length (edges_to pk ck ch') <=
      Nat.max 1 (List.length (edges_to pk ck ch)).

(** Every key of the table of edges satisfies [R] and every edge
    recorded under it satisfies [Q]. *)
Definition edges_ok (R : jsstring -> Prop) (Q : edge -> Prop)
  (ch : JsMap (list edge)) : Prop :=
  Forall (fun ka => R (fst ka) /\ Forall Q (snd ka)) ch.

(* ================================================================== *)
(** ** Sample services and chats *)

(** A chat of one user message. *)
Definition user_says (s : string) : list message :=
  [{| role := lit "user"; content := lit s |}].

Definition root_node (s : string) : node :=
  {| node_questionOriginal := lit s; node_parentOriginal := None;
     depth := 0 |}.

Definition snippet_at (url : string) : raw_result :=
  {| raw_title := Some (lit "Result"); raw_link := Some (lit url);
     raw_snippet := Some (lit "Text of the page.") |}.

(** Services that answer every request the same way: the classifier
    with [is_q], the knowledge base with [kb], the search API with
    [organic], the completion with [completion], the decomposer and the
    follow-up generator with [proposed]. *)
Definition sample_services (api_key : option jsstring) (is_q : bool)
  (kb : result jsstring) (organic : list raw_result)
  (completion : jsstring) (proposed : list jsstring) : providers :=
  {| SERPAPI_API_KEY := api_key;
     serpapi_organic := fun _ _ => Ok organic;
     web_completion := fun _ => Ok (Some completion);
     isQuantifiable := fun _ => Ok is_q;
     decomposeToQuantifiable := fun _ => Ok proposed;
     detectFollowupsFromAnswer := fun _ _ => Ok proposed;
     callAskChatGPT := fun _ => kb |}.

(** The audit service when nothing is configured. *)
Definition crew_unconfigured : crew :=
  {| CREWAI_BASE_URL := None; CREWAI_TOKEN := None;
     fetch_kickoff := fun _ _ _ => Throw (lit "fetch failed");
     fetch_status := fun _ _ => Throw (lit "fetch failed") |}.

(** The audit service when it is configured and answers the kickoff
    request with an error status. *)
Definition crew_rejecting : crew :=
  {| CREWAI_BASE_URL := Some (lit "https://crew.example");
     CREWAI_TOKEN := Some (lit "token");
     fetch_kickoff := fun _ _ _ =>
       Ok {| kickoff_ok := false; task_id := None |};
     fetch_status := fun _ _ => Throw (lit "fetch failed") |}.

(** The audit service when it polishes: the task is still running at
    the first two status requests and completed at the third. *)
Definition crew_polishing : crew :=
  {| CREWAI_BASE_URL := Some (lit "https://crew.example");
     CREWAI_TOKEN := Some (lit "token");
     fetch_kickoff := fun _ _ _ =>
       Ok {| kickoff_ok := true; task_id := Some (lit "t1") |};
     fetch_status := fun i _ =>
       Ok {| status_ok := true;
             status := if i <? 2 then lit "running" else lit "completed";
             parsed_answer :=
               if i <? 2 then None else Some (lit "Revenue: 40M (2023).");
             parsed_sources := None |} |}.

(* ================================================================== *)
(** * Properties *)

(** ** Characters and the string primitives *)

Section Strings.

Ltac all_chars c :=
  destruct c as [[] [] [] [] [] [] [] []]; vm_compute; reflexivity.


Lemma is_space_lower (c : ascii) : is_space (lower_char c) = is_space c.
Proof. all_chars c. Qed.


Lemma jsstring_eqb_eq (a b : jsstring) : jsstring_eqb a b = true <-> a = b.
Proof.
  unfold jsstring_eqb. destruct (list_eq_dec ascii_dec a b); split;
    intros; congruence.
Qed.

Lemma jsstring_eqb_refl (a : jsstring) : jsstring_eqb a a = true.
Proof. apply jsstring_eqb_eq. reflexivity. Qed.

Lemma jsstring_eqb_neq (a b : jsstring) : jsstring_eqb a b = false <-> a <> b.
Proof.
  unfold jsstring_eqb. destruct (list_eq_dec ascii_dec a b); split;
    intros; congruence.
Qed.







Lemma no_lead_trimStart (s : jsstring) : no_lead (trimStart s) = true.
Proof.
  induction s as [|c r IH]; simpl; [reflexivity|].
  destruct (is_space c) eqn:E; [exact IH | simpl; rewrite E; reflexivity].
Qed.

Lemma no_trail_trimEnd (s : jsstring) : no_trail (trimEnd s) = true.
Proof.
  induction s as [|c r IH]; simpl; [reflexivity|].
  destruct (trimEnd r) as [|c' r'] eqn:E.
  - destruct (is_space c) eqn:Ec; simpl; [reflexivity | rewrite Ec; reflexivity].
  - simpl. simpl in IH. exact IH.
Qed.

Lemma no_lead_trimEnd (s : jsstring) :
  no_lead s = true -> no_lead (trimEnd s) = true.
Proof.
  destruct s as [|c r]; simpl; [reflexivity|].
  intros H. destruct (trimEnd r).
  - destruct (is_space c) eqn:E; [discriminate H|].
    simpl. rewrite E. reflexivity.
  - simpl. exact H.
Qed.

Lemma trimStart_id (s : jsstring) : no_lead s = true -> trimStart s = s.
Proof.
  destruct s as [|c r]; simpl; [reflexivity|].
  destruct (is_space c); [discriminate | reflexivity].
Qed.

Lemma trimEnd_id (s : jsstring) : no_trail s = true -> trimEnd s = s.
Proof.
  induction s as [|c r IH]; [reflexivity|].
  intros H. cbn [trimEnd]. destruct r as [|c' r'].
  - simpl in *. destruct (is_space c); [discriminate H | reflexivity].
  - rewrite IH by exact H. reflexivity.
Qed.

Lemma no_lead_trim (s : jsstring) : no_lead (trim s) = true.
Proof. unfold trim. apply no_lead_trimEnd, no_lead_trimStart. Qed.

Lemma no_trail_trim (s : jsstring) : no_trail (trim s) = true.
Proof. unfold trim. apply no_trail_trimEnd. Qed.

Lemma trim_id (s : jsstring) :
  no_lead s = true -> no_trail s = true -> trim s = s.
Proof.
  intros H1 H2. unfold trim. rewrite trimStart_id by exact H1.
  apply trimEnd_id, H2.
Qed.

Lemma trim_idem (s : jsstring) : trim (trim s) = trim s.
Proof. apply trim_id; [apply no_lead_trim | apply no_trail_trim]. Qed.

Lemma replace_ws_runs_nil (s : jsstring) :
  replace_ws_runs s = [] -> s = [].
Proof.
  induction s as [|c r IH]; [reflexivity|]. simpl.
  destruct (is_space c); [|discriminate].
  destruct r as [|c' r']; [discriminate|].
  destruct (is_space c'); [|discriminate].
  intros H. apply IH in H. discriminate H.
Qed.









Lemma truthy_lower (s : jsstring) : truthy (toLowerCase s) = truthy s.
Proof. destruct s; reflexivity. Qed.

Lemma truthy_replace (s : jsstring) : truthy (replace_ws_runs s) = truthy s.
Proof.
  destruct s as [|c r]; [reflexivity|].
  destruct (replace_ws_runs (c :: r)) eqn:E; [|reflexivity].
  apply replace_ws_runs_nil in E. discriminate E.
Qed.

Lemma truthy_normalize (s : jsstring) : truthy (normalize s) = truthy (trim s).
Proof. unfold normalize. rewrite truthy_lower. apply truthy_replace. Qed.

End Strings.

(** ** [normalize] *)


(** ** [isMcpNotFound] *)

Section NotFound.

Lemma includes_nil (p : jsstring) : p <> [] -> includes p [] = false.
Proof. destruct p; [congruence | reflexivity]. Qed.

Lemma includes_truthy (p s : jsstring) :
  p <> [] -> includes p s = true -> truthy s = true.
Proof.
  intros Hp H. destruct s; [|reflexivity].
  rewrite includes_nil in H by exact Hp. discriminate H.
Qed.

Lemma answer_quantifiable_mcp (P : providers) (q text : jsstring)
  (st : state) :
  callAskChatGPT P (kb_chat q) = Ok text ->
  isMcpNotFound text = false ->
  exists st',
    answer_quantifiable P q st = (Ok (trim text, lit "mcp", []), st') /\
    calls st' = calls st ++ [CallKnowledgeBase (kb_chat q)] /\
    answered st' = answered st /\ writes st' = writes st /\
    seen st' = seen st /\ children st' = children st.
Proof.
  intros Hkb Hnf. eexists.
  unfold answer_quantifiable, try_catch, bind, request.
  fold (kb_chat q). rewrite Hkb, Hnf. cbn [negb fst snd].
  unfold ret. split; [reflexivity|]. cbn. repeat split; reflexivity.
Qed.

End NotFound.

(** C10.  A response whose lower-cased text contains "policy file not
    found" and neither "not available in our current document" nor
    "company information file not found" is not a not-found signal,
    whatever else it contains; the resolution keeps it (trimmed) as the
    answer of the knowledge base and sends no request to the web. *)
Theorem policy_file_not_found_is_an_answer (text : jsstring) :
  includes (lit "policy file not found") (toLowerCase text) = true ->
  includes (lit "not available in our current document")
           (toLowerCase text) = false ->
  includes (lit "company information file not found")
           (toLowerCase text) = false ->
  isMcpNotFound text = false /\
  forall (P : providers) (q : jsstring) (st : state),
    callAskChatGPT P (kb_chat q) = Ok text ->
    exists st',
      answer_quantifiable P q st = (Ok (trim text, lit "mcp", []), st') /\
      calls st' = calls st ++ [CallKnowledgeBase (kb_chat q)].
Proof.
  intros Hp Ha Hc.
  assert (Hnf : isMcpNotFound text = false).
  { unfold isMcpNotFound.
    assert (Ht : truthy text = true).
    { rewrite <- truthy_lower.
      apply (includes_truthy (p := lit "policy file not found"));
        [discriminate | exact Hp]. }
    rewrite Ht, Ha, Hc, Hp. reflexivity. }
  split; [exact Hnf|].
  intros P q st Hkb.
  destruct (answer_quantifiable_mcp P q st Hkb Hnf) as (st' & H1 & H2 & _).
  exists st'. split; assumption.
Qed.

Lemma policy_file_not_found_witness :
  isMcpNotFound
    (lit "Error: policy file not found; no companies found in the knowledge base")
  = false.
Proof.
  apply (policy_file_not_found_is_an_answer
    (lit "Error: policy file not found; no companies found in the knowledge base"));
    vm_compute; reflexivity.
Defined.

(** ** Maps and sets *)

Section Containers.

Context {V : Type}.

Lemma Map_get_set_same (k : jsstring) (v : V) (m : JsMap V) :
  Map_get k (Map_set k v m) = Some v.
Proof.
  induction m as [|[k' v'] r IH]; simpl.
  - rewrite jsstring_eqb_refl. reflexivity.
  - destruct (jsstring_eqb k' k) eqn:E; simpl.
    + rewrite jsstring_eqb_refl. reflexivity.
    + rewrite E. exact IH.
Qed.

Lemma Map_get_set_other (k k0 : jsstring) (v : V) (m : JsMap V) :
  k0 <> k -> Map_get k0 (Map_set k v m) = Map_get k0 m.
Proof.
  intros Hne. induction m as [|[k' v'] r IH]; simpl.
  - destruct (jsstring_eqb k k0) eqn:E; [|reflexivity].
    apply jsstring_eqb_eq in E. congruence.
  - destruct (jsstring_eqb k' k) eqn:E; simpl.
    + apply jsstring_eqb_eq in E. subst k'.
      destruct (jsstring_eqb k k0) eqn:E0; [|reflexivity].
      apply jsstring_eqb_eq in E0. congruence.
    + rewrite IH. reflexivity.
Qed.

Lemma Map_set_fresh (k : jsstring) (v : V) (m : JsMap V) :
  ~ In k (Map_keys m) -> Map_set k v m = m ++ [(k, v)].
Proof.
  induction m as [|[k' v'] r IH]; simpl; [reflexivity|].
  intros Hn. destruct (jsstring_eqb k' k) eqn:E.
  - apply jsstring_eqb_eq in E. tauto.
  - rewrite IH by tauto. reflexivity.
Qed.

Lemma Map_get_app_l (k : jsstring) (v : V) (m m' : JsMap V) :
  Map_get k m = Some v -> Map_get k (m ++ m') = Some v.
Proof.
  induction m as [|[k' v'] r IH]; simpl; [discriminate|].
  destruct (jsstring_eqb k' k); auto.
Qed.

End Containers.

Lemma Set_has_In (k : jsstring) (s : JsSet) : Set_has k s = true <-> In k s.
Proof.
  unfold Set_has. rewrite existsb_exists. split.
  - intros (x & Hx & E). apply jsstring_eqb_eq in E. subst. exact Hx.
  - intros H. exists k. split; [exact H | apply jsstring_eqb_refl].
Qed.

Lemma Set_has_not_In (k : jsstring) (s : JsSet) :
  Set_has k s = false <-> ~ In k s.
Proof.
  rewrite <- Set_has_In. destruct (Set_has k s); split; congruence.
Qed.

Lemma Set_add_fresh (k : jsstring) (s : JsSet) :
  Set_has k s = false -> Set_add k s = s ++ [k].
Proof. unfold Set_add. intros ->. reflexivity. Qed.

(** ** Steps of the state monad *)

Section Steps.

Lemma quiet_refl (st : state) : quiet st st.
Proof.
  unfold quiet. repeat split. exists []. rewrite app_nil_r. reflexivity.
Qed.

Lemma quiet_trans (a b c : state) : quiet a b -> quiet b c -> quiet a c.
Proof.
  unfold quiet. intros (A1 & A2 & A3 & A4 & l1 & A5) (B1 & B2 & B3 & B4 & l2 & B5).
  repeat split; try congruence.
  exists (l1 ++ l2). rewrite B5, A5, app_assoc. reflexivity.
Qed.

Lemma bind_inv {A B} (m : M A) (f : A -> M B) (st st' : state)
  (r : result B) :
  bind m f st = (r, st') ->
  (exists a st1, m st = (Ok a, st1) /\ f a st1 = (r, st')) \/
  (exists e, m st = (Throw e, st') /\ r = Throw e).
Proof.
  unfold bind. destruct (m st) as [[a|e] st1]; intros H.
  - left. eauto.
  - right. inversion H; subst. eauto.
Qed.

Lemma request_inv {A} (c : call) (x r : result A) (st st' : state) :
  request c x st = (r, st') ->
  r = x /\ calls st' = calls st ++ [c] /\ quiet st st'.
Proof.
  unfold request. intros H. inversion H; subst. cbn.
  repeat split; eauto. unfold quiet; cbn. repeat split; eauto.
Qed.

Lemma add_generated_inv (n : nat) (r : result unit) (st st' : state) :
  add_generated n st = (r, st') ->
  r = Ok tt /\ calls st' = calls st /\ quiet st st' /\
  totalGenerated st' = totalGenerated st + n.
Proof.
  unfold add_generated. intros H. inversion H; subst. cbn.
  repeat split; eauto. exists []. rewrite app_nil_r. reflexivity.
Qed.

Lemma answered_set_inv (k : jsstring) (e : entry) (r : result unit)
  (st st' : state) :
  answered_set k e st = (r, st') ->
  r = Ok tt /\ answered st' = Map_set k e (answered st) /\
  writes st' = writes st ++ [k] /\ children st' = children st /\
  seen st' = seen st /\ calls st' = calls st.
Proof.
  unfold answered_set. intros H. inversion H; subst. cbn. repeat split.
Qed.

Lemma expand_inv (q : jsstring) (d : nat) (proposed : list jsstring)
  (r : result (list node)) (st st' : state) :
  expand q d proposed st = (r, st') ->
  calls st' = calls st /\ quiet st st' /\
  exists nx, r = Ok nx /\
    Forall (fun n => depth n = d + 1 /\ node_parentOriginal n = Some q /\
                     truthy (node_questionOriginal n) = true /\
                     trim (node_questionOriginal n) = node_questionOriginal n)
           nx.
Proof.
  unfold expand. intros H. apply bind_inv in H.
  destruct H as [(a & st1 & H1 & H2) | (e & H1 & _)];
    apply add_generated_inv in H1; destruct H1 as (E & Hc & Hq & _);
    [|discriminate E].
  unfold ret in H2. inversion H2; subst.
  split; [assumption|]. split; [assumption|].
  eexists. split; [reflexivity|].
  apply Forall_forall. intros n Hn. apply in_map_iff in Hn.
  destruct Hn as (s & <- & Hs). apply filter_In in Hs. destruct Hs as [Hs Ht].
  apply in_map_iff in Hs. destruct Hs as (s0 & <- & _).
  cbn [depth node_parentOriginal node_questionOriginal].
  repeat split; auto using trim_idem.
Qed.

End Steps.

(** ** The two resolvers *)

Section Resolvers.

Variable P : providers.

Lemma links_of_results (organic : list raw_result) :
  map link
    (filter (fun r => truthy (link r))
       (map (fun r => {| title := or_empty (raw_title r);
                         link := or_empty (raw_link r);
                         snippet := or_empty (raw_snippet r) |})
            (firstn 5 organic)))
  = links_used organic.
Proof.
  unfold links_used. induction (firstn 5 organic) as [|r l IH];
    [reflexivity|].
  simpl. destruct (truthy (or_empty (raw_link r))); simpl; rewrite IH;
    reflexivity.
Qed.

Lemma searchWeb_inv (q : jsstring) (r : result (list web_result))
  (st st' : state) :
  searchWeb P q 5 st = (r, st') ->
  quiet st st' /\
  forall results, r = Ok results ->
    truthy (or_empty (SERPAPI_API_KEY P)) = true /\
    calls st' = calls st ++ [CallWebSearch q] /\
    exists organic,
      serpapi_organic P q 5 = Ok organic /\
      results = map (fun r => {| title := or_empty (raw_title r);
                                 link := or_empty (raw_link r);
                                 snippet := or_empty (raw_snippet r) |})
                    (firstn 5 organic).
Proof.
  unfold searchWeb.
  destruct (truthy (or_empty (SERPAPI_API_KEY P))) eqn:K; cbn [negb].
  - intros H. apply bind_inv in H.
    destruct H as [(a & st1 & H1 & H2) | (e & H1 & ->)];
      apply request_inv in H1; destruct H1 as (E & Hc & Hq).
    + unfold ret in H2. inversion H2; subst. split; [exact Hq|].
      intros results [= <-]. repeat split; eauto.
    + split; [exact Hq | discriminate].
  - unfold throw. intros [= <- <-]. split; [apply quiet_refl | discriminate].
Qed.

Lemma answerFromWeb_inv (q : jsstring) (r : result web_answer)
  (st st' : state) :
  answerFromWeb P q st = (r, st') ->
  quiet st st' /\
  forall w, r = Ok w ->
    truthy (or_empty (SERPAPI_API_KEY P)) = true /\
    In (CallWebSearch q) (calls st') /\
    exists organic,
      serpapi_organic P q 5 = Ok organic /\
      web_sources w = links_used organic /\
      ((web_ok w = false /\ firstn 5 organic = []) \/
       (web_ok w = true /\ exists c, web_text w = trim c) \/
       (web_ok w = true /\ web_text w = [])).
Proof.
  unfold answerFromWeb. intros H. apply bind_inv in H.
  destruct H as [(results & st1 & H1 & H2) | (e & H1 & ->)];
    apply searchWeb_inv in H1; destruct H1 as (Hq1 & Hres);
    [|split; [exact Hq1 | discriminate]].
  destruct (Hres results eq_refl) as (K & Hc & organic & Ho & Er).
  destruct results as [|r0 rs].
  - unfold ret in H2. inversion H2; subst. split; [exact Hq1|].
    intros w [= <-]. cbn [web_ok web_text web_sources].
    split; [exact K|]. split.
    + rewrite Hc. apply in_or_app. right. left. reflexivity.
    + exists organic. split; [exact Ho|].
      assert (E5 : firstn 5 organic = [])
        by (destruct (firstn 5 organic); [reflexivity | discriminate Er]).
      unfold links_used. rewrite E5. split; [reflexivity|].
      left. split; reflexivity.
  - apply bind_inv in H2.
    destruct H2 as [(resp & st2 & H3 & H4) | (e & H3 & ->)];
      apply request_inv in H3; destruct H3 as (E & Hc2 & Hq2);
      [|split; [exact (quiet_trans Hq1 Hq2) | discriminate]].
    unfold ret in H4. inversion H4; subst.
    split; [exact (quiet_trans Hq1 Hq2)|].
    intros w [= <-]. cbn [web_ok web_text web_sources].
    split; [exact K|]. split.
    + rewrite Hc2, Hc. apply in_or_app. left. apply in_or_app. right.
      left. reflexivity.
    + exists organic. split; [exact Ho|]. split.
      * change (map link (filter (fun r => truthy (link r)) (r0 :: rs))
                = links_used organic).
        rewrite Er. apply links_of_results.
      * right. destruct resp as [c|]; [left | right]; eauto.
Qed.

Lemma answer_quantifiable_quiet (q : jsstring) (st st' : state)
  (r : result (jsstring * jsstring * list jsstring)) :
  answer_quantifiable P q st = (r, st') -> quiet st st'.
Proof.
  unfold answer_quantifiable, try_catch. intros H.
  match type of H with
  | context [bind ?m ?f st] => destruct (bind m f st) as [[a|e] st1] eqn:Hkb
  end.
  - inversion H; subst. apply bind_inv in Hkb.
    destruct Hkb as [(t & st2 & H1 & H2) | (e & H1 & E)]; [|discriminate E].
    apply request_inv in H1. destruct H1 as (_ & _ & Hq).
    destruct (isMcpNotFound t); cbn [negb] in H2;
      unfold ret, throw in H2; inversion H2; subst; exact Hq.
  - assert (Hq : quiet st st1).
    { apply bind_inv in Hkb.
      destruct Hkb as [(t & st2 & H1 & H2) | (e' & H1 & E)];
        apply request_inv in H1; destruct H1 as (_ & _ & Hq); [|exact Hq].
      destruct (isMcpNotFound t); cbn [negb] in H2;
        unfold ret, throw in H2; inversion H2; subst; exact Hq. }
    apply bind_inv in H.
    destruct H as [(w & st2 & H1 & H2) | (e' & H1 & E)];
      apply answerFromWeb_inv in H1; destruct H1 as (Hq2 & _).
    + unfold ret in H2. inversion H2; subst. exact (quiet_trans Hq Hq2).
    + exact (quiet_trans Hq Hq2).
Qed.

End Resolvers.

(** ** The task of one node *)

Section Task.

Variable P : providers.
Variable max_depth : nat.

Lemma answer_quantifiable_inv (q ans src : jsstring) (links : list jsstring)
  (st st' : state) :
  answer_quantifiable P q st = (Ok (ans, src, links), st') ->
  (src = lit "mcp" /\ links = [] /\
   calls st' = calls st ++ [CallKnowledgeBase (kb_chat q)] /\
   exists t, callAskChatGPT P (kb_chat q) = Ok t /\
             isMcpNotFound t = false /\ ans = trim t) \/
  (src = lit "web" /\
   (forall t, callAskChatGPT P (kb_chat q) = Ok t ->
              isMcpNotFound t = true) /\
   In (CallWebSearch q) (calls st') /\
   exists organic,
     serpapi_organic P q 5 = Ok organic /\
     links = links_used organic /\
     (ans = lit "No data found." \/ exists c, ans = stripSourcesSection c)).
Proof.
  unfold answer_quantifiable, try_catch. fold (kb_chat q). intros H.
  match type of H with
  | context [bind ?m ?f st] => destruct (bind m f st) as [[a|e] st1] eqn:Hkb
  end; apply bind_inv in Hkb.
  - left. inversion H; subst.
    destruct Hkb as [(t & st2 & H1 & H2) | (e & H1 & E)]; [|discriminate E].
    apply request_inv in H1. destruct H1 as (E & Hc & _).
    destruct (isMcpNotFound t) eqn:Hnf; cbn [negb] in H2;
      unfold ret, throw in H2; inversion H2; subst.
    repeat split; eauto.
  - right.
    assert (Hnf : forall t, callAskChatGPT P (kb_chat q) = Ok t ->
                            isMcpNotFound t = true).
    { intros t Ht.
      destruct Hkb as [(t' & st2 & H1 & H2) | (e' & H1 & E)];
        apply request_inv in H1; destruct H1 as (E1 & _ & _).
      - rewrite Ht in E1. inversion E1; subst t'.
        destruct (isMcpNotFound t); [reflexivity|].
        cbn [negb] in H2. unfold ret in H2. discriminate H2.
      - rewrite Ht in E1. discriminate E1. }
    apply bind_inv in H.
    destruct H as [(w & st2 & H1 & H2) | (e' & H1 & E)]; [|discriminate E].
    apply answerFromWeb_inv in H1. destruct H1 as (_ & Hw).
    destruct (Hw w eq_refl) as (_ & Hin & organic & Ho & Hl & Hk).
    unfold ret in H2. inversion H2; subst.
    repeat split; auto. exists organic. repeat split; auto.
    destruct Hk as [[-> _] | [[-> [c ->]] | [-> ->]]]; eauto.
Qed.

Lemma expansion_inv (c : call) (x : result (list jsstring)) (nd : node)
  (r : result (list node)) (st st' : state) :
  (if depth nd <? max_depth
   then s <- request c x ;; expand (node_questionOriginal nd) (depth nd) s
   else ret []) st = (r, st') ->
  quiet st st' /\
  ((depth nd <? max_depth) = false -> calls st' = calls st) /\
  ((depth nd <? max_depth) = true -> calls st' = calls st ++ [c]) /\
  forall nx, r = Ok nx ->
    (max_depth <= depth nd -> nx = []) /\ Forall (child_of nd) nx.
Proof.
  destruct (depth nd <? max_depth) eqn:D.
  - apply Nat.ltb_lt in D. intros H. apply bind_inv in H.
    destruct H as [(s & st1 & H1 & H2) | (e & H1 & ->)];
      apply request_inv in H1; destruct H1 as (_ & Hc & Hq).
    + apply expand_inv in H2. destruct H2 as (Hc2 & Hq2 & nx & -> & Hnx).
      split; [exact (quiet_trans Hq Hq2)|]. split; [discriminate|].
      split; [intros _; congruence|].
      intros nx' [= <-]. split; [lia|]. exact Hnx.
    + split; [exact Hq|]. split; [discriminate|]. split; [auto|discriminate].
  - unfold ret. intros [= <- <-]. split; [apply quiet_refl|].
    split; [reflexivity|]. split; [discriminate|].
    intros nx [= <-]. split; auto.
Qed.

(** What the task of a node does to the state, whatever its outcome. *)
Lemma resolve_node_inv (nd : node) (r : result (list node))
  (st st' : state) :
  resolve_node P max_depth nd st = (r, st') ->
  children st' = children st /\ seen st' = seen st /\
  (exists l, calls st' = calls st ++ l) /\
  ((answered st' = answered st /\ writes st' = writes st /\
    exists e, r = Throw e) \/
   (exists e, answered st' = Map_set (node_key nd) e (answered st) /\
              writes st' = writes st ++ [node_key nd] /\
              entry_from P (node_questionOriginal nd) e)) /\
  forall nx, r = Ok nx ->
    (max_depth <= depth nd -> nx = []) /\ Forall (child_of nd) nx.
Proof.
  unfold resolve_node. intros H. apply bind_inv in H.
  destruct H as [(is_q & st1 & H1 & H2) | (e & H1 & ->)];
    apply request_inv in H1; destruct H1 as (Eq & _ & Hq1).
  2:{ destruct Hq1 as (A & B & C & D & L).
      repeat split; auto; [left; eauto | discriminate | discriminate]. }
  destruct is_q; cbn [negb] in H2.
  - (* quantifiable *)
    apply bind_inv in H2.
    destruct H2 as [(a & st2 & H3 & H4) | (e & H3 & ->)].
    2:{ apply answer_quantifiable_quiet in H3.
        destruct (quiet_trans Hq1 H3) as (A & B & C & D & L).
        repeat split; auto; [left; eauto | discriminate | discriminate]. }
    destruct a as [[ans src] links].
    pose proof (answer_quantifiable_quiet _ _ _ H3) as Hq2.
    apply answer_quantifiable_inv in H3.
    apply bind_inv in H4.
    destruct H4 as [(u & st3 & H5 & H6) | (e & H5 & _)];
      apply answered_set_inv in H5;
      destruct H5 as (E5 & Ha & Hw & Hch & Hs & Hc); [|discriminate E5].
    apply expansion_inv in H6. destruct H6 as (Hq3 & _ & _ & Hnx).
    destruct (quiet_trans Hq1 Hq2) as (A & B & C & D & L1 & L).
    destruct Hq3 as (A3 & B3 & C3 & D3 & L3 & L').
    split; [congruence|]. split; [congruence|].
    split; [exists (L1 ++ L3); rewrite L', Hc, L, app_assoc; reflexivity|].
    split; [|exact Hnx].
    right. eexists. split; [rewrite A3, Ha, A; reflexivity|].
    split; [rewrite D3, Hw, D; reflexivity|].
    split; [reflexivity|]. right. cbn.
    destruct H3 as [(-> & -> & _ & t & Ht & Hnf & ->) |
                    (-> & Hnf & _ & organic & Ho & -> & Hk)].
    + left. repeat split; eauto.
    + right. repeat split; eauto.
  - (* not quantifiable *)
    apply bind_inv in H2.
    destruct H2 as [(u & st3 & H5 & H6) | (e & H5 & _)];
      apply answered_set_inv in H5;
      destruct H5 as (E5 & Ha & Hw & Hch & Hs & Hc); [|discriminate E5].
    apply expansion_inv in H6. destruct H6 as (Hq3 & _ & _ & Hnx).
    destruct Hq1 as (A & B & C & D & L1 & L).
    destruct Hq3 as (A3 & B3 & C3 & D3 & L3 & L').
    split; [congruence|]. split; [congruence|].
    split; [exists (L1 ++ L3); rewrite L', Hc, L, app_assoc; reflexivity|].
    split; [|exact Hnx].
    right. eexists. split; [rewrite A3, Ha, A; reflexivity|].
    split; [rewrite D3, Hw, D; reflexivity|].
    split; [reflexivity|]. left. cbn. repeat split; auto.
Qed.

End Task.

(** ** The pass that records edges and filters duplicates *)

Section Dedup.

Lemma dedup_node_inv (nd : node) (st st' : state) (kept : option node) :
  dedup_node nd st = (st', kept) ->
  answered st' = answered st /\ writes st' = writes st /\
  calls st' = calls st /\
  match kept with
  | None => seen st' = seen st
  | Some u =>
      seen st' = seen st ++ [node_key u] /\ ~ In (node_key u) (seen st) /\
      depth u = depth nd /\
      node_questionOriginal u = trim (node_questionOriginal nd) /\
      truthy (node_questionOriginal u) = true
  end.
Proof.
  unfold dedup_node.
  destruct (truthy (trim (node_questionOriginal nd))) eqn:T; cbn [negb].
  - destruct (Set_has (normalize (trim (node_questionOriginal nd))) (seen st))
      eqn:S; intros [= <- <-]; cbn; repeat split; auto.
    + unfold node_key. cbn. apply Set_add_fresh. exact S.
    + unfold node_key. cbn. apply Set_has_not_In. exact S.
  - intros [= <- <-]. repeat split.
Qed.

Lemma dedup_pass_inv (pocket : list node) :
  forall (st st' : state) (uniquePocket : list node),
  dedup_pass pocket st = (st', uniquePocket) ->
  answered st' = answered st /\ writes st' = writes st /\
  calls st' = calls st /\
  seen st' = seen st ++ map node_key uniquePocket /\
  (NoDup (seen st) -> NoDup (seen st')) /\
  Forall (fun u =>
            truthy (node_questionOriginal u) = true /\
            trim (node_questionOriginal u) = node_questionOriginal u /\
            exists nd, In nd pocket /\ depth u = depth nd) uniquePocket.
Proof.
  induction pocket as [|nd rest IH]; intros st st' U; cbn [dedup_pass].
  - intros [= <- <-]. rewrite app_nil_r. repeat split; auto.
  - destruct (dedup_node nd st) as [st1 kept] eqn:E1.
    destruct (dedup_pass rest st1) as [st2 U2] eqn:E2.
    intros [= <- <-].
    apply dedup_node_inv in E1. destruct E1 as (A1 & W1 & C1 & K1).
    apply IH in E2. destruct E2 as (A2 & W2 & C2 & S2 & N2 & F2).
    assert (F2' : Forall (fun u =>
              truthy (node_questionOriginal u) = true /\
              trim (node_questionOriginal u) = node_questionOriginal u /\
              exists nd0, In nd0 (nd :: rest) /\ depth u = depth nd0) U2).
    { eapply Forall_impl; [|exact F2].
      intros u (Ht & Hi & nd0 & Hin & Hd). repeat split; auto.
      exists nd0. split; [right; exact Hin | exact Hd]. }
    split; [congruence|]. split; [congruence|]. split; [congruence|].
    destruct kept as [u|].
    + destruct K1 as (S1 & Hfresh & Hd & Hq & Ht).
      split; [rewrite S2, S1, <- app_assoc; reflexivity|].
      split.
      * intros Hn. apply N2. rewrite S1.
        apply NoDup_app; [exact Hn | repeat constructor; simpl; tauto |].
        intros x Hx [<-|[]]. exact (Hfresh Hx).
      * constructor; [|exact F2'].
        split; [exact Ht|]. split; [rewrite Hq; apply trim_idem|].
        exists nd. split; [left; reflexivity | exact Hd].
    + split; [rewrite S2, K1; reflexivity|].
      split; [|exact F2']. intros Hn. apply N2. rewrite K1. exact Hn.
Qed.

End Dedup.

(** ** One round *)

Section Round.

Variable P : providers.
Variable max_depth : nat.

Lemma Map_keys_app {V} (m m' : JsMap V) :
  Map_keys (m ++ m') = Map_keys m ++ Map_keys m'.
Proof. apply map_app. Qed.

Lemma resolve_all_inv (U : list node) :
  forall (st st' : state) (r : result (list node)),
  resolve_all P max_depth U st = (r, st') ->
  NoDup (writes st ++ map node_key U) ->
  Map_keys (answered st) = writes st ->
  Forall (entry_ok P) (answered st) ->
  children st' = children st /\ seen st' = seen st /\
  (exists done rest,
     map node_key U = done ++ rest /\ writes st' = writes st ++ done /\
     (forall nx, r = Ok nx -> rest = [])) /\
  (exists new, answered st' = answered st ++ new) /\
  Map_keys (answered st') = writes st' /\
  Forall (entry_ok P) (answered st') /\
  forall nx, r = Ok nx ->
    (Forall (fun u => max_depth <= depth u) U -> nx = []) /\
    Forall (fun n => exists u, In u U /\ child_of u n) nx.
Proof.
  induction U as [|nd rest IH]; intros st st' r H Hnd Hk Hok;
    cbn [resolve_all] in H.
  - unfold ret in H. inversion H; subst.
    split; [reflexivity|]. split; [reflexivity|].
    split.
    { exists [], []. split; [reflexivity|].
      split; [rewrite app_nil_r; reflexivity | auto]. }
    split; [exists []; rewrite app_nil_r; reflexivity|].
    split; [exact Hk|]. split; [exact Hok|].
    intros nx [= <-]. split; auto.
  - apply bind_inv in H.
    assert (Hfresh : ~ In (node_key nd) (Map_keys (answered st))).
    { rewrite Hk. cbn [map] in Hnd. apply NoDup_remove_2 in Hnd.
      intros Hin. apply Hnd. apply in_or_app. left. exact Hin. }
    assert (Hadd : forall en,
      entry_from P (node_questionOriginal nd) en ->
      Forall (entry_ok P) (answered st ++ [(node_key nd, en)])).
    { intros en Hfrom. apply Forall_app. split; [exact Hok|].
      constructor; [|constructor].
      destruct Hfrom as [Eq Hkind]. unfold entry_ok. cbn [fst snd].
      rewrite Eq. split; [reflexivity|]. split; [exact Eq | exact Hkind]. }
    destruct H as [(nx1 & st1 & H1 & H2) | (e & H1 & ->)];
      apply resolve_node_inv in H1;
      destruct H1 as (Hch & Hs & _ & Hw & Hnx).
    + (* the task returned *)
      destruct Hw as [(_ & _ & e & E) | (en & Ha & Hw & Hfrom)];
        [discriminate E|].
      rewrite Map_set_fresh in Ha by exact Hfresh.
      assert (Hnd1 : NoDup (writes st1 ++ map node_key rest))
        by (rewrite Hw, <- app_assoc; exact Hnd).
      assert (Hk1 : Map_keys (answered st1) = writes st1)
        by (rewrite Ha, Map_keys_app, Hk, Hw; reflexivity).
      assert (Hok1 : Forall (entry_ok P) (answered st1))
        by (rewrite Ha; apply Hadd, Hfrom).
      apply bind_inv in H2.
      destruct H2 as [(nx2 & st2 & H3 & H4) | (e & H3 & ->)];
        apply (fun X => IH _ _ _ X Hnd1 Hk1 Hok1) in H3;
        destruct H3 as (Hch2 & Hs2 & (dn & rs & Ed & Ew & Er)
                        & (new & En) & Hk2 & Hok2 & Hnx2).
      * unfold ret in H4. inversion H4; subst.
        split; [congruence|]. split; [congruence|].
        split.
        { exists (node_key nd :: dn), rs. cbn [map].
          split; [rewrite Ed; reflexivity|].
          split; [rewrite Ew, Hw, <- app_assoc; reflexivity|].
          intros nx _. eapply Er. reflexivity. }
        split; [exists ((node_key nd, en) :: new);
                rewrite En, Ha, <- app_assoc; reflexivity|].
        split; [exact Hk2|]. split; [exact Hok2|].
        intros nx [= <-].
        destruct (Hnx nx1 eq_refl) as (Z1 & F1).
        destruct (Hnx2 nx2 eq_refl) as (Z2 & F2).
        split.
        { intros HF. inversion HF; subst.
          rewrite Z1, Z2 by assumption. reflexivity. }
        apply Forall_app. split.
        { eapply Forall_impl; [|exact F1]. intros n Hn.
          exists nd. split; [left; reflexivity | exact Hn]. }
        { eapply Forall_impl; [|exact F2]. intros n (u & Hu & Hn).
          exists u. split; [right; exact Hu | exact Hn]. }
      * split; [congruence|]. split; [congruence|].
        split.
        { exists (node_key nd :: dn), rs. cbn [map].
          split; [rewrite Ed; reflexivity|].
          split; [rewrite Ew, Hw, <- app_assoc; reflexivity|].
          discriminate. }
        split; [exists ((node_key nd, en) :: new);
                rewrite En, Ha, <- app_assoc; reflexivity|].
        split; [exact Hk2|]. split; [exact Hok2|]. discriminate.
    + (* the task threw *)
      split; [exact Hch|]. split; [exact Hs|].
      destruct Hw as [(Ha & Hw & _) | (en & Ha & Hw & Hfrom)].
      * split.
        { exists [], (map node_key (nd :: rest)).
          split; [reflexivity|].
          split; [rewrite app_nil_r; exact Hw | discriminate]. }
        split; [exists []; rewrite app_nil_r; exact Ha|].
        split; [congruence|]. split; [rewrite Ha; exact Hok|]. discriminate.
      * rewrite Map_set_fresh in Ha by exact Hfresh.
        split.
        { exists [node_key nd], (map node_key rest).
          split; [reflexivity|]. split; [exact Hw | discriminate]. }
        split; [exists [(node_key nd, en)]; exact Ha|].
        split; [rewrite Ha, Map_keys_app, Hk, Hw; reflexivity|].
        split; [|discriminate].
        rewrite Ha. apply Hadd, Hfrom.
Qed.

Lemma NoDup_app_disjoint (a b : list jsstring) (x : jsstring) :
  NoDup (a ++ b) -> In x a -> ~ In x b.
Proof.
  induction a as [|y a IH]; simpl; [tauto|].
  intros Hn [->|Hx] Hb.
  - inversion Hn; subst. apply H1. apply in_or_app. right. exact Hb.
  - inversion Hn; subst. exact (IH H2 Hx Hb).
Qed.

Lemma round_inv (pocket : list node) (st st' : state)
  (r : result (list node)) :
  round P max_depth pocket st = (r, st') ->
  engine_inv P st ->
  engine_inv P st' /\
  (exists new, answered st' = answered st ++ new) /\
  (writes st = seen st -> forall p', r = Ok p' -> writes st' = seen st') /\
  children st' = children (fst (dedup_pass pocket st)) /\
  forall p', r = Ok p' ->
    Forall wf_child p' /\
    forall k, Forall (fun n => k <= depth n) pocket ->
      Forall (fun n => k + 1 <= depth n) p' /\ (max_depth <= k -> p' = []).
Proof.
  unfold round. destruct (dedup_pass pocket st) as [st1 U] eqn:E.
  cbn [fst]. intros H (I1 & I2 & I3 & I4 & I5).
  apply dedup_pass_inv in E. destruct E as (A1 & W1 & _ & S1 & N1 & F1).
  specialize (N1 I1).
  assert (Hnd : NoDup (writes st1 ++ map node_key U)).
  { rewrite W1. rewrite S1 in N1.
    apply NoDup_app; [exact I2 | exact (NoDup_app_remove_l _ _ N1) |].
    intros x Hx. eapply NoDup_app_disjoint; [exact N1|]. apply I3, Hx. }
  assert (Hk : Map_keys (answered st1) = writes st1) by congruence.
  assert (Hok : Forall (entry_ok P) (answered st1))
    by (rewrite A1; exact I5).
  assert (Hall : resolve_all P max_depth U st1 = (r, st')).
  { destruct U; [|exact H]. cbn [resolve_all]. unfold ret. exact H. }
  clear H.
  destruct (@resolve_all_inv U st1 st' r Hall Hnd Hk Hok)
    as (Hch & Hs & (dn & rs & Ed & Ew & Er) & (new & En) & Hk' & Hok' & Hnx).
  split.
  { unfold engine_inv. rewrite Hs. split; [exact N1|].
    rewrite Ew. split; [|split; [|split; [rewrite Hk', Ew; reflexivity
                                         | exact Hok']]].
    - rewrite Ed in Hnd. rewrite app_assoc in Hnd.
      exact (NoDup_app_remove_r _ _ Hnd).
    - rewrite S1, Ed, W1. intros x Hx. apply in_app_or in Hx.
      apply in_or_app. destruct Hx as [Hx|Hx]; [left; apply I3, Hx|].
      right. apply in_or_app. left. exact Hx. }
  split; [exists new; rewrite En, A1; reflexivity|].
  split.
  { intros Hfull p' ->. specialize (Er p' eq_refl). subst rs.
    rewrite app_nil_r in Ed. rewrite Ew, Hs, S1, W1, Hfull, Ed.
    reflexivity. }
  split; [exact Hch|].
  intros p' ->. destruct (Hnx p' eq_refl) as (Z & Fc).
  split.
  { apply Forall_forall. intros n Hn.
    rewrite Forall_forall in Fc. destruct (Fc n Hn) as (u & Hu & Hc).
    rewrite Forall_forall in F1. destruct (F1 u Hu) as (Tu & Iu & _).
    destruct Hc as (_ & Hp & Tn & In_). unfold wf_child.
    split; [exact Tn|]. split; [exact In_|]. eauto. }
  intros k Hdepth.
  assert (HU : Forall (fun u => k <= depth u) U).
  { apply Forall_forall. intros u Hu.
    rewrite Forall_forall in F1. destruct (F1 u Hu) as (_ & _ & nd & Hnd' & ->).
    rewrite Forall_forall in Hdepth. exact (Hdepth nd Hnd'). }
  split.
  - apply Forall_forall. intros n Hn.
    rewrite Forall_forall in Fc. destruct (Fc n Hn) as (u & Hu & Hd & _).
    rewrite Forall_forall in HU. specialize (HU u Hu). lia.
  - intros Hle. apply Z. eapply Forall_impl; [|exact HU].
    intros u Hu. cbn beta in Hu. lia.
Qed.

End Round.

(** ** The loop *)

Section Loop.

Variable P : providers.
Variable max_depth : nat.

Lemma engine_inv_initial : engine_inv P initial_state.
Proof.
  unfold engine_inv, initial_state. cbn.
  repeat split; try constructor. intros x [].
Qed.

Lemma rounds_add (n m : nat) :
  forall (pocket : list node) (st : state),
  rounds P max_depth (n + m) pocket st =
  bind (rounds P max_depth n pocket) (rounds P max_depth m) st.
Proof.
  induction n as [|n IH]; intros pocket st; [reflexivity|].
  cbn [Nat.add rounds]. unfold bind.
  destruct (round P max_depth pocket st) as [[p1|e] st1]; [|reflexivity].
  rewrite IH. unfold bind. reflexivity.
Qed.

Lemma rounds_inv (n : nat) :
  forall (pocket : list node) (st st' : state) (r : result (list node)),
  rounds P max_depth n pocket st = (r, st') ->
  engine_inv P st ->
  engine_inv P st' /\
  (exists new, answered st' = answered st ++ new) /\
  (writes st = seen st -> forall p', r = Ok p' -> writes st' = seen st').
Proof.
  induction n as [|n IH]; intros pocket st st' r H I; cbn [rounds] in H.
  - unfold ret in H. inversion H; subst. split; [exact I|].
    split; [exists []; rewrite app_nil_r; reflexivity | auto].
  - apply bind_inv in H.
    destruct H as [(p1 & st1 & H1 & H2) | (e & H1 & ->)];
      apply round_inv in H1; try exact I;
      destruct H1 as (I1 & (new1 & E1) & F1 & _).
    + apply IH in H2; [|exact I1].
      destruct H2 as (I2 & (new2 & E2) & F2).
      split; [exact I2|]. split.
      * exists (new1 ++ new2). rewrite E2, E1, app_assoc. reflexivity.
      * intros Hfull p' Hr. apply (F2 (F1 Hfull p1 eq_refl) p' Hr).
    + split; [exact I1|]. split; [eauto | discriminate].
Qed.

(** The loop runs rounds: what it returns is what some number of rounds,
    within the fuel, leads to. *)
Lemma frontier_loop_rounds (fuel : nat) :
  forall (pocket : list node) (st st' : state) (r : result unit),
  frontier_loop P max_depth fuel pocket st = Some (r, st') ->
  exists n, n <= fuel /\
    rounds P max_depth n pocket st =
    (match r with Ok _ => Ok [] | Throw e => Throw e end, st').
Proof.
  induction fuel as [|fuel IH]; intros pocket st st' r H.
  - destruct pocket; cbn in H; [|discriminate H].
    inversion H; subst. exists 0. split; [lia | reflexivity].
  - destruct pocket as [|nd rest].
    + cbn in H. inversion H; subst. exists 0. split; [lia | reflexivity].
    + cbn [frontier_loop] in H.
      destruct (round P max_depth (nd :: rest) st) as [[p1|e] st1] eqn:E.
      * apply IH in H. destruct H as (n & Hn & Hr).
        exists (S n). split; [lia|]. cbn [rounds]. unfold bind.
        rewrite E. exact Hr.
      * inversion H; subst. exists 1. split; [lia|].
        cbn [rounds]. unfold bind. rewrite E. reflexivity.
Qed.

Lemma frontier_loop_terminates (fuel : nat) :
  forall (k : nat) (pocket : list node) (st : state),
  Forall (fun n => k <= depth n) pocket ->
  (max_depth < k -> pocket = []) ->
  max_depth + 1 <= fuel + k ->
  exists r, frontier_loop P max_depth fuel pocket st = Some r.
Proof.
  induction fuel as [|fuel IH]; intros k pocket st Hd Hk Hf.
  - rewrite Hk by lia. cbn. eauto.
  - destruct pocket as [|nd rest]; [cbn; eauto|].
    cbn [frontier_loop].
    assert (Hle : k <= max_depth).
    { destruct (Nat.le_gt_cases k max_depth) as [L|G]; [exact L|].
      specialize (Hk G). discriminate Hk. }
    destruct (round P max_depth (nd :: rest) st) as [[p1|e] st1] eqn:E;
      [|eauto].
    assert (Hp1 : Forall (fun n => k + 1 <= depth n) p1 /\
                  (max_depth <= k -> p1 = [])).
    { unfold round in E.
      destruct (dedup_pass (nd :: rest) st) as [st0 U] eqn:ED.
      apply dedup_pass_inv in ED. destruct ED as (_ & _ & _ & _ & _ & F1).
      assert (HU : Forall (fun u => k <= depth u) U).
      { apply Forall_forall. intros u Hu. rewrite Forall_forall in F1.
        destruct (F1 u Hu) as (_ & _ & nd0 & Hin & ->).
        rewrite Forall_forall in Hd. exact (Hd nd0 Hin). }
      destruct U as [|u0 U'].
      - inversion E; subst. split; [constructor | reflexivity].
      - clear F1. revert HU E. generalize (u0 :: U') as U. clear u0 U'.
        intros U HU. revert st0 p1 st1.
        induction U as [|u U IHU]; intros st0 p1 st1 E;
          cbn [resolve_all] in E.
        + unfold ret in E. inversion E; subst.
          split; [constructor | reflexivity].
        + inversion HU as [|? ? Hu HU']; subst.
          apply bind_inv in E.
          destruct E as [(nx1 & sa & E1 & E2) | (e & _ & E2)];
            [|discriminate E2].
          apply resolve_node_inv in E1.
          destruct E1 as (_ & _ & _ & _ & Hnx).
          destruct (Hnx nx1 eq_refl) as (Z1 & C1).
          apply bind_inv in E2.
          destruct E2 as [(nx2 & sb & E3 & E4) | (e & _ & E4)];
            [|discriminate E4].
          destruct (IHU HU' _ _ _ E3) as (D2 & Z2).
          unfold ret in E4. inversion E4; subst. split.
          * apply Forall_app. split; [|exact D2].
            eapply Forall_impl; [|exact C1].
            intros n (Hn & _). cbn beta. lia.
          * intros Hmk. rewrite Z1, Z2 by lia. reflexivity. }
    destruct Hp1 as (D1 & Z1).
    apply (IH (k + 1)); [exact D1 | | lia].
    intros Hgt. apply Z1. lia.
Qed.

End Loop.

(** ** The write-once table *)

(** C3.  In every run, and at every round of it, the keys passed to
    [answered.set] are distinct and [answered] holds exactly those keys:
    no call overwrites an entry.  An entry present after some rounds is
    still there, unchanged, after any further rounds. *)
Theorem answered_write_once (P : providers) (max_depth : nat)
  (q : jsstring) :
  (forall n r st,
     rounds P max_depth n (root_pocket q) initial_state = (r, st) ->
     NoDup (writes st) /\ Map_keys (answered st) = writes st /\
     forall m r' st',
       rounds P max_depth (n + m) (root_pocket q) initial_state = (r', st') ->
       forall k e, Map_get k (answered st) = Some e ->
                   Map_get k (answered st') = Some e) /\
  (forall fuel r st,
     run_frontier P max_depth fuel q = Some (r, st) ->
     NoDup (writes st) /\ Map_keys (answered st) = writes st).
Proof.
  assert (Hrounds : forall n r st,
    rounds P max_depth n (root_pocket q) initial_state = (r, st) ->
    engine_inv P st).
  { intros n r st H. apply rounds_inv in H; [|apply engine_inv_initial].
    exact (proj1 H). }
  split.
  - intros n r st H. pose proof (Hrounds _ _ _ H) as (_ & I2 & _ & I4 & _).
    split; [exact I2|]. split; [exact I4|].
    intros m r' st' H' k e Hget. rewrite rounds_add in H'.
    unfold bind in H'. rewrite H in H'. destruct r as [p|e0].
    + apply rounds_inv in H'; [|exact (Hrounds _ _ _ H)].
      destruct H' as (_ & (new & ->) & _). apply Map_get_app_l, Hget.
    + inversion H'; subst. exact Hget.
  - intros fuel r st H. unfold run_frontier in H.
    apply frontier_loop_rounds in H. destruct H as (n & _ & H).
    pose proof (Hrounds _ _ _ H) as (_ & I2 & _ & I4 & _). auto.
Qed.

(** ** Termination of the loop *)

Lemma frontier_loop_more_fuel (P : providers) (max_depth fuel : nat) :
  forall (pocket : list node) (st : state) (x : result unit * state)
         (fuel' : nat),
  frontier_loop P max_depth fuel pocket st = Some x ->
  fuel <= fuel' ->
  frontier_loop P max_depth fuel' pocket st = Some x.
Proof.
  induction fuel as [|fuel IH]; intros pocket st x fuel' H Hle.
  - destruct pocket; [|discriminate H]. destruct fuel'; exact H.
  - destruct fuel' as [|fuel']; [lia|].
    destruct pocket as [|nd rest]; [exact H|].
    cbn [frontier_loop] in *.
    destruct (round P max_depth (nd :: rest) st) as [[p1|e] st1];
      [|exact H].
    apply IH; [exact H | lia].
Qed.

(** C4.  With [MAX_DEPTH = d] the loop ends within [d + 1] rounds,
    whatever the services propose: with fuel for [d + 1] turns (or more)
    it returns, and the state it returns is the state after some
    [n <= d + 1] rounds.  The reason: a task proposes only nodes one
    level deeper than its own, and proposes none from depth [d] on.  In
    particular [answerWithAgent], where [d = 1], needs two turns. *)
Theorem frontier_loop_terminates_within_depth (P : providers) (d : nat)
  (q : jsstring) :
  (forall fuel, d + 1 <= fuel ->
     exists r st n,
       run_frontier P d fuel q = Some (r, st) /\ n <= d + 1 /\
       rounds P d n (root_pocket q) initial_state =
       (match r with Ok _ => Ok [] | Throw e => Throw e end, st)) /\
  (forall nd st nx st',
     resolve_node P d nd st = (Ok nx, st') ->
     Forall (fun n => depth n = depth nd + 1) nx /\
     (d <= depth nd -> nx = [])) /\
  (forall chat fuel, MAX_DEPTH + 1 <= fuel ->
     exists r, answerWithAgent P fuel chat = Some r).
Proof.
  assert (Hterm : forall d' q',
    exists x, run_frontier P d' (d' + 1) q' = Some x).
  { intros d' q'. unfold run_frontier.
    apply frontier_loop_terminates with (k := 0).
    - unfold root_pocket. repeat constructor.
    - lia.
    - lia. }
  split; [|split].
  - intros fuel Hf. destruct (Hterm d q) as ([r st] & H).
    exists r, st. pose proof H as H'. unfold run_frontier in H'.
    apply frontier_loop_rounds in H'. destruct H' as (n & Hn & Hr).
    exists n. split; [|split; [exact Hn | exact Hr]].
    unfold run_frontier in *.
    eapply frontier_loop_more_fuel; [exact H | exact Hf].
  - intros nd st nx st' H. apply resolve_node_inv in H.
    destruct H as (_ & _ & _ & _ & Hnx).
    destruct (Hnx nx eq_refl) as (Z & C). split; [|exact Z].
    eapply Forall_impl; [|exact C]. intros n (Hn & _). exact Hn.
  - intros chat fuel Hf. unfold answerWithAgent.
    destruct (negb (truthy (extractLatestUserQuestion chat))); [eauto|].
    destruct (Hterm MAX_DEPTH (extractLatestUserQuestion chat)) as (x & H).
    unfold run_frontier in *.
    eapply frontier_loop_more_fuel in H; [|exact Hf]. rewrite H.
    destruct x as [[u|e] st]; [|eauto].
    destruct (render _ _ _ _ _); eauto.
Qed.

(** ** Resolution of one question *)

Section Resolution.

Variable P : providers.
Variable max_depth : nat.

Lemma answerFromWeb_returns (q : jsstring) (st : state) :
  truthy (or_empty (SERPAPI_API_KEY P)) = true ->
  (exists organic, serpapi_organic P q 5 = Ok organic) ->
  (forall u, exists c, web_completion P u = Ok c) ->
  exists w st', answerFromWeb P q st = (Ok w, st').
Proof.
  intros K [organic Ho] Hc.
  unfold answerFromWeb, searchWeb, bind, request, ret.
  rewrite K, Ho. cbn [negb].
  destruct (map _ (firstn 5 organic)) as [|r0 rs]; [eauto|].
  match goal with
  | |- context [web_completion P ?u] => destruct (Hc u) as [c ->]
  end.
  eauto.
Qed.

Lemma answer_quantifiable_returns (q : jsstring) (st : state) :
  truthy (or_empty (SERPAPI_API_KEY P)) = true ->
  (exists organic, serpapi_organic P q 5 = Ok organic) ->
  (forall u, exists c, web_completion P u = Ok c) ->
  exists a st', answer_quantifiable P q st = (Ok a, st').
Proof.
  intros K Ho Hc. unfold answer_quantifiable, try_catch.
  match goal with
  | |- context [bind ?m ?f st] => destruct (bind m f st) as [[a|e] st1]
  end; [eauto|].
  unfold bind.
  destruct (answerFromWeb_returns q st1 K Ho Hc) as (w & st2 & ->).
  unfold ret. eauto.
Qed.

End Resolution.

(** C6.  When the classifier reports a question non-quantifiable, its
    task stores the fixed sentinel as the answer, with no source and no
    source links, and sends no request to the knowledge base or to the
    web: the only requests it adds are the one to the classifier and,
    below the depth bound, the one to the decomposer. *)
Theorem non_quantifiable_short_circuit (P : providers) (d : nat)
  (nd : node) (st : state) :
  isQuantifiable P (node_questionOriginal nd) = Ok false ->
  exists r st' e,
    resolve_node P d nd st = (r, st') /\
    Map_get (node_key nd) (answered st') = Some e /\
    quantifiable e = false /\ answer e = NON_QUANTIFIABLE /\
    source e = None /\ sources e = [] /\
    calls st' =
      calls st ++ CallClassifier (node_questionOriginal nd)
        :: (if depth nd <? d
            then [CallDecompose (node_questionOriginal nd)] else []) /\
    forall c, In c (calls st') -> is_resolver_call c = true ->
              In c (calls st).
Proof.
  intros Hq.
  assert (Hcalls : forall c,
    In c (calls st ++ CallClassifier (node_questionOriginal nd)
            :: (if depth nd <? d
                then [CallDecompose (node_questionOriginal nd)] else [])) ->
    is_resolver_call c = true -> In c (calls st)).
  { intros c Hin Hres. apply in_app_or in Hin.
    destruct Hin as [Hin | [<- | Hin]]; [exact Hin | discriminate Hres |].
    destruct (depth nd <? d); [|destruct Hin].
    destruct Hin as [<- | []]. discriminate Hres. }
  unfold resolve_node, bind, request, answered_set. rewrite Hq.
  cbn [negb]. destruct (depth nd <? d) eqn:D.
  - destruct (decomposeToQuantifiable P (node_questionOriginal nd))
      as [subs|err].
    + unfold expand, bind, add_generated, ret.
      do 3 eexists. split; [reflexivity|]. cbn [answered calls].
      split; [apply Map_get_set_same|].
      cbn [quantifiable answer source sources].
      rewrite <- app_assoc. repeat split; auto.
    + do 3 eexists. split; [reflexivity|]. cbn [answered calls].
      split; [apply Map_get_set_same|].
      cbn [quantifiable answer source sources].
      rewrite <- app_assoc. repeat split; auto.
  - unfold ret. do 3 eexists. split; [reflexivity|]. cbn [answered calls].
    split; [apply Map_get_set_same|].
    cbn [quantifiable answer source sources].
    repeat split; auto.
Qed.

(** ** The fallback chain *)

Section Fallback.

Variable P : providers.
Variable max_depth : nat.

(** The state in which the resolvers of a quantifiable question start:
    the classifier has been asked. *)
Lemma resolve_node_quantifiable (nd : node) (st st1 : state)
  (ans src : jsstring) (links : list jsstring) :
  isQuantifiable P (node_questionOriginal nd) = Ok true ->
  answer_quantifiable P (node_questionOriginal nd)
    (snd (request (CallClassifier (node_questionOriginal nd))
                  (isQuantifiable P (node_questionOriginal nd)) st))
  = (Ok (ans, src, links), st1) ->
  exists r st',
    resolve_node P max_depth nd st = (r, st') /\
    answered st' =
      Map_set (node_key nd)
        {| questionOriginal := node_questionOriginal nd;
           quantifiable := true; answer := ans; source := Some src;
           sources := links; parentOriginal := node_parentOriginal nd;
           parentKey := if_truthy (node_parentOriginal nd) normalize |}
        (answered st1) /\
    answered st1 = answered st /\
    exists l, calls st' = calls st1 ++ l.
Proof.
  intros Hq Ha.
  pose proof (answer_quantifiable_quiet _ _ _ Ha) as (A1 & _).
  unfold request in Ha, A1. cbn [snd answered] in Ha, A1.
  unfold resolve_node, bind at 1, request at 1. rewrite Hq. cbn [negb].
  unfold bind at 1. rewrite Ha.
  unfold bind at 1, answered_set at 1.
  match goal with
  | |- exists r st', ?t ?s = _ /\ _ => destruct (t s) as [r2 st2] eqn:E2
  end.
  apply expansion_inv in E2. destruct E2 as ((A2 & _ & _ & _ & L2) & _).
  cbn [answered calls] in A2, L2.
  exists r2, st2. split; [reflexivity|]. split; [exact A2|].
  split; [exact A1 | exact L2].
Qed.

Lemma isMcpNotFound_true_iff (t : jsstring) :
  isMcpNotFound t = true <->
  (t = [] \/
   includes (lit "not available in our current document")
            (toLowerCase t) = true \/
   includes (lit "company information file not found")
            (toLowerCase t) = true \/
   (includes (lit "policy file not found") (toLowerCase t) = false /\
    (includes (lit "no companies found in the knowledge base")
              (toLowerCase t) = true \/
     startsWith (lit "error:") (toLowerCase t) = true))).
Proof.
  unfold isMcpNotFound. destruct t as [|c r].
  - cbn [truthy negb]. split; auto.
  - cbn [truthy negb].
    destruct (includes (lit "not available in our current document") _);
      [split; auto|].
    destruct (includes (lit "company information file not found") _);
      [split; auto|].
    destruct (includes (lit "policy file not found") _).
    { split; [discriminate|].
      intros [H | [H | [H | [H _]]]]; discriminate H. }
    destruct (includes (lit "no companies found in the knowledge base") _);
      [split; auto 6|].
    destruct (startsWith (lit "error:") _); [split; auto 6|].
    split; [discriminate|].
    intros [H | [H | [H | [_ [H | H]]]]]; discriminate H.
Qed.

End Fallback.

(** C2, as the code has it.  The not-found signals of a response are:
    the empty text; "not available in our current document" or "company
    information file not found" anywhere in it; and, when it does not
    contain "policy file not found", "no companies found in the
    knowledge base" anywhere or "error:" at its head (all without case).
    For a quantifiable question whose knowledge-base call throws or
    answers with such a signal, the search API is asked, and when the
    web resolver returns, the entry written has source "web" and, as
    source links, the non-empty links of the snippets retrieved. *)
Theorem not_found_falls_back_to_web (P : providers) (d : nat) :
  (forall t,
     isMcpNotFound t = true <->
     (t = [] \/
      includes (lit "not available in our current document")
               (toLowerCase t) = true \/
      includes (lit "company information file not found")
               (toLowerCase t) = true \/
      (includes (lit "policy file not found") (toLowerCase t) = false /\
       (includes (lit "no companies found in the knowledge base")
                 (toLowerCase t) = true \/
        startsWith (lit "error:") (toLowerCase t) = true)))) /\
  (forall nd st organic,
     isQuantifiable P (node_questionOriginal nd) = Ok true ->
     (forall t, callAskChatGPT P (kb_chat (node_questionOriginal nd)) = Ok t ->
                isMcpNotFound t = true) ->
     truthy (or_empty (SERPAPI_API_KEY P)) = true ->
     serpapi_organic P (node_questionOriginal nd) 5 = Ok organic ->
     (forall u, exists c, web_completion P u = Ok c) ->
     exists r st' e,
       resolve_node P d nd st = (r, st') /\
       Map_get (node_key nd) (answered st') = Some e /\
       source e = Some (lit "web") /\
       sources e = links_used organic /\
       In (CallWebSearch (node_questionOriginal nd)) (calls st')).
Proof.
  split; [exact isMcpNotFound_true_iff|].
  intros nd st organic Hq Hnf K Ho Hc.
  destruct (answer_quantifiable_returns P (node_questionOriginal nd)
              (snd (request (CallClassifier (node_questionOriginal nd))
                      (isQuantifiable P (node_questionOriginal nd)) st))
              K (ex_intro _ organic Ho) Hc)
    as ([[ans src] links] & st1 & Ha).
  destruct (resolve_node_quantifiable P d nd st Hq Ha)
    as (r & st' & Hr & Hans & _ & l & Hl).
  apply answer_quantifiable_inv in Ha.
  destruct Ha as [(_ & _ & _ & t & Ht & Hf & _) |
                  (-> & _ & Hin & organic' & Ho' & -> & _)].
  - rewrite (Hnf t Ht) in Hf. discriminate Hf.
  - exists r, st'. eexists. split; [exact Hr|].
    split; [rewrite Hans; apply Map_get_set_same|].
    cbn [source sources]. split; [reflexivity|].
    split; [congruence|]. rewrite Hl. apply in_or_app. left. exact Hin.
Qed.

(** ** The "Sources:" section *)

Section Sources.

Lemma startsWith_app (p s t : jsstring) :
  startsWith p s = true -> startsWith p (s ++ t) = true.
Proof.
  revert s. induction p as [|a p IH]; intros s; [reflexivity|].
  destruct s as [|b s]; cbn [startsWith app]; [discriminate|].
  destruct (ascii_dec a b); [apply IH | discriminate].
Qed.

Lemma trimStart_app (r t : jsstring) :
  trimStart r <> [] -> trimStart (r ++ t) = trimStart r ++ t.
Proof.
  induction r as [|c r IH]; cbn [trimStart app]; [congruence|].
  destruct (is_space c); [exact IH | reflexivity].
Qed.

Lemma sources_at_app (s t : jsstring) :
  sources_at s = true -> sources_at (s ++ t) = true.
Proof.
  destruct s as [|c r]; cbn [sources_at app]; [discriminate|].
  destruct (ascii_dec c "010"%char); [|discriminate].
  intros H. rewrite trimStart_app.
  - unfold toLowerCase. rewrite map_app. apply startsWith_app, H.
  - intros E. rewrite E in H. discriminate H.
Qed.

Lemma has_sources_section_app (s t : jsstring) :
  has_sources_section s = true -> has_sources_section (s ++ t) = true.
Proof.
  induction s as [|c r IH]; [discriminate|].
  cbn [has_sources_section]. intros H. apply orb_prop in H.
  destruct H as [H|H].
  - change ((c :: r) ++ t) with (c :: r ++ t) .
    cbn [has_sources_section].
    change (c :: r ++ t) with ((c :: r) ++ t).
    rewrite (sources_at_app _ t H). reflexivity.
  - change ((c :: r) ++ t) with (c :: r ++ t).
    cbn [has_sources_section]. rewrite (IH H). apply orb_true_r.
Qed.

Lemma has_sources_section_suffix (pre s : jsstring) :
  has_sources_section s = true -> has_sources_section (pre ++ s) = true.
Proof.
  intros H. induction pre as [|c pre IH]; [exact H|].
  change ((c :: pre) ++ s) with (c :: pre ++ s).
  cbn [has_sources_section]. rewrite IH. apply orb_true_r.
Qed.

Lemma cut_sources_prefix (s : jsstring) :
  exists t, s = cut_sources s ++ t.
Proof.
  induction s as [|c r [t IH]]; [exists []; reflexivity|].
  cbn [cut_sources]. destruct (sources_at (c :: r)).
  - exists (c :: r). reflexivity.
  - exists t. cbn [app]. rewrite <- IH. reflexivity.
Qed.

Lemma trimEnd_prefix (s : jsstring) : exists t, s = trimEnd s ++ t.
Proof.
  induction s as [|c r [t IH]]; [exists []; reflexivity|].
  cbn [trimEnd]. destruct (trimEnd r) as [|c' r'] eqn:E.
  - destruct (is_space c).
    + exists (c :: r). reflexivity.
    + exists t. cbn [app] in *. rewrite <- IH. reflexivity.
  - exists t. cbn [app] in *. rewrite <- IH. reflexivity.
Qed.

Lemma trimStart_suffix (s : jsstring) : exists pre, s = pre ++ trimStart s.
Proof.
  induction s as [|c r [pre IH]]; [exists []; reflexivity|].
  cbn [trimStart]. destruct (is_space c).
  - exists (c :: pre). cbn [app]. rewrite <- IH. reflexivity.
  - exists []. reflexivity.
Qed.

Lemma cut_sources_clean (s : jsstring) :
  has_sources_section (cut_sources s) = false.
Proof.
  induction s as [|c r IH]; [reflexivity|].
  cbn [cut_sources]. destruct (sources_at (c :: r)) eqn:E; [reflexivity|].
  cbn [has_sources_section]. rewrite IH, orb_false_r.
  destruct (sources_at (c :: cut_sources r)) eqn:E'; [|reflexivity].
  destruct (cut_sources_prefix r) as [t Ht].
  apply (sources_at_app _ t) in E'. cbn [app] in E'.
  rewrite <- Ht in E'. congruence.
Qed.

Lemma cut_sources_id (s : jsstring) :
  has_sources_section s = false -> cut_sources s = s.
Proof.
  induction s as [|c r IH]; [reflexivity|].
  cbn [has_sources_section cut_sources]. intros H.
  apply orb_false_elim in H. destruct H as [H1 H2].
  rewrite H1, (IH H2). reflexivity.
Qed.

Lemma trim_clean (s : jsstring) :
  has_sources_section s = false -> has_sources_section (trim s) = false.
Proof.
  intros H. destruct (has_sources_section (trim s)) eqn:E; [|reflexivity].
  unfold trim in E.
  destruct (trimEnd_prefix (trimStart s)) as [t Ht].
  apply (has_sources_section_app _ t) in E. rewrite <- Ht in E.
  destruct (trimStart_suffix s) as [pre Hp].
  apply (has_sources_section_suffix pre) in E. rewrite <- Hp in E.
  congruence.
Qed.

Lemma stripSourcesSection_clean (t : jsstring) :
  has_sources_section (stripSourcesSection t) = false.
Proof.
  unfold stripSourcesSection. destruct (negb (truthy t)); [reflexivity|].
  apply trim_clean, cut_sources_clean.
Qed.

End Sources.

(** C7, as the code has it.  [stripSourcesSection] removes everything
    from the first line feed that is followed, after optional white
    space, by the label "Sources:" (in any case), and trims the rest; its
    result has no such section, and a text without one is only trimmed.
    The resolution applies it to the answers of the web tier; an answer
    of the knowledge base is stored trimmed, as it came. *)
Theorem sources_section_stripped_from_web_answers :
  (forall t, has_sources_section (stripSourcesSection t) = false) /\
  (forall t, has_sources_section t = false ->
             stripSourcesSection t = trim t) /\
  (forall (P : providers) q st ans src links st',
     answer_quantifiable P q st = (Ok (ans, src, links), st') ->
     (src = lit "web" /\ has_sources_section ans = false) \/
     (src = lit "mcp" /\
      exists t, callAskChatGPT P (kb_chat q) = Ok t /\ ans = trim t)).
Proof.
  split; [exact stripSourcesSection_clean|]. split.
  - intros t H. unfold stripSourcesSection. destruct t; [reflexivity|].
    cbn [truthy negb]. rewrite cut_sources_id by exact H. reflexivity.
  - intros P q st ans src links st' H. apply answer_quantifiable_inv in H.
    destruct H as [(-> & _ & _ & t & Ht & _ & ->) |
                   (-> & _ & _ & _ & _ & _ & [-> | [c ->]])].
    + right. split; [reflexivity|]. eauto.
    + left. split; reflexivity.
    + left. split; [reflexivity | apply stripSourcesSection_clean].
Qed.

(** ** [auditAndPolish] *)

(** C8, as the code has it.  For a quantifiable question,
    [auditAndPolish] returns the draft answer and its sources unchanged,
    with [ok: true], when the base URL or the token is missing, and also
    when the kickoff request is answered with a status that is not 2xx.
    For a question that is not quantifiable it returns [ok: false] with
    the non-quantifiable sentinel and no sources, configured or not. *)
Theorem audit_fails_open_when_quantifiable (C : crew) (question : jsstring)
  (draftAnswer : jsstring) (srcs : list jsstring) :
  (truthy (or_empty (CREWAI_BASE_URL C)) = false \/
   truthy (or_empty (CREWAI_TOKEN C)) = false ->
   auditAndPolish C question true draftAnswer srcs =
   Ok {| audit_ok := true; audit_answer := draftAnswer;
         audit_sources := srcs |}) /\
  (forall k, fetch_kickoff C question draftAnswer srcs = Ok k ->
             kickoff_ok k = false ->
   auditAndPolish C question true draftAnswer srcs =
   Ok {| audit_ok := true; audit_answer := draftAnswer;
         audit_sources := srcs |}) /\
  auditAndPolish C question false draftAnswer srcs =
  Ok {| audit_ok := false; audit_answer := NON_QUANTIFIABLE;
        audit_sources := [] |}.
Proof.
  unfold auditAndPolish. cbn [negb]. split; [|split; [|reflexivity]].
  - intros [H|H]; rewrite H; cbn [negb orb]; [reflexivity|].
    rewrite orb_true_r. reflexivity.
  - intros k Hk Hok.
    destruct (negb (truthy (or_empty (CREWAI_BASE_URL C)))
              || negb (truthy (or_empty (CREWAI_TOKEN C))));
      [reflexivity|].
    rewrite Hk, Hok. reflexivity.
Qed.

(** ** The table of edges *)

Section Edges.

Lemma edges_grow_refl (ch : JsMap (list edge)) : edges_grow ch ch.
Proof. intros pk ck. split; lia. Qed.

Lemma edges_grow_trans (a b c : JsMap (list edge)) :
  edges_grow a b -> edges_grow b c -> edges_grow a c.
Proof.
  intros H1 H2 pk ck. destruct (H1 pk ck), (H2 pk ck). split; lia.
Qed.

Lemma edges_to_set_other (pk pk' ck : jsstring) (arr : list edge)
  (ch : JsMap (list edge)) :
  pk' <> pk -> edges_to pk' ck (Map_set pk arr ch) = edges_to pk' ck ch.
Proof.
  intros H. unfold edges_to. rewrite Map_get_set_other by exact H.
  reflexivity.
Qed.

Lemma edges_to_set_same (pk ck : jsstring) (arr : list edge)
  (ch : JsMap (list edge)) :
  edges_to pk ck (Map_set pk arr ch) =
  filter (fun x => jsstring_eqb (key x) ck) arr.
Proof. unfold edges_to. rewrite Map_get_set_same. reflexivity. Qed.

Lemma existsb_filter_nil (ck : jsstring) (arr : list edge) :
  existsb (fun x => jsstring_eqb (key x) ck) arr = false ->
  filter (fun x => jsstring_eqb (key x) ck) arr = [].
Proof.
  induction arr as [|x arr IH]; [reflexivity|].
  cbn [existsb filter]. intros H. apply orb_false_elim in H.
  destruct H as [H1 H2]. rewrite H1. exact (IH H2).
Qed.

Lemma existsb_filter_length (ck : jsstring) (arr : list edge) :
  existsb (fun x => jsstring_eqb (key x) ck) arr = true ->
  1 <= List.length (filter (fun x => jsstring_eqb (key x) ck) arr).
Proof.
  induction arr as [|x arr IH]; [discriminate|].
  cbn [existsb filter]. destruct (jsstring_eqb (key x) ck); cbn; [lia|].
  exact IH.
Qed.

(** [addChild] adds the edge when it is not there, and nothing else. *)
Lemma addChild_edges (pk ck co : jsstring) (ch : JsMap (list edge)) :
  truthy pk = true ->
  edges_grow ch (addChild pk ck co ch) /\
  1 <= List.length (edges_to pk ck (addChild pk ck co ch)).
Proof.
  intros T. unfold addChild. rewrite T. cbn [negb].
  set (ch1 := if Map_has pk ch then ch else Map_set pk [] ch).
  assert (H1 : forall pk' ck', edges_to pk' ck' ch1 = edges_to pk' ck' ch).
  { intros pk' ck'. unfold ch1, Map_has.
    destruct (Map_get pk ch) as [a|] eqn:G; [reflexivity|].
    destruct (list_eq_dec ascii_dec pk' pk) as [->|Hne].
    - rewrite edges_to_set_same. unfold edges_to. rewrite G. reflexivity.
    - apply edges_to_set_other, Hne. }
  assert (G1 : exists arr, Map_get pk ch1 = Some arr).
  { unfold ch1, Map_has. destruct (Map_get pk ch) as [a|] eqn:G; [eauto|].
    rewrite Map_get_set_same. eauto. }
  destruct G1 as [arr G1]. rewrite G1.
  assert (Harr : forall ck', edges_to pk ck' ch
                 = filter (fun x => jsstring_eqb (key x) ck') arr).
  { intros ck'. rewrite <- H1. unfold edges_to. rewrite G1. reflexivity. }
  destruct (existsb (fun x => jsstring_eqb (key x) ck) arr) eqn:E.
  - split.
    + intros pk' ck'. rewrite H1. split; lia.
    + rewrite H1, Harr. apply existsb_filter_length, E.
  - split.
    + intros pk' ck'.
      destruct (list_eq_dec ascii_dec pk' pk) as [->|Hne].
      * rewrite edges_to_set_same, Harr, filter_app, length_app.
        cbn [filter key]. destruct (jsstring_eqb ck ck') eqn:Eck.
        -- apply jsstring_eqb_eq in Eck. subst ck'.
           rewrite (existsb_filter_nil _ _ E). cbn [List.length].
           split; lia.
        -- cbn [List.length]. split; lia.
      * rewrite edges_to_set_other, H1 by exact Hne. split; lia.
    + rewrite edges_to_set_same, filter_app, length_app.
      cbn [filter key]. rewrite jsstring_eqb_refl. cbn [List.length]. lia.
Qed.

Lemma dedup_node_children (nd : node) (st : state) :
  edges_grow (children st) (children (fst (dedup_node nd st))) /\
  (wf_child nd ->
   forall p, node_parentOriginal nd = Some p ->
     1 <= List.length (edges_to (normalize p) (node_key nd)
                         (children (fst (dedup_node nd st))))).
Proof.
  unfold dedup_node.
  destruct (truthy (trim (node_questionOriginal nd))) eqn:T; cbn [negb].
  - assert (Hgen : forall ch,
      ch = match if_truthy (if_truthy (node_parentOriginal nd) trim)
                           normalize with
           | Some k => if truthy k
                       then addChild k
                              (normalize (trim (node_questionOriginal nd)))
                              (trim (node_questionOriginal nd))
                              (children st)
                       else children st
           | None => children st
           end ->
      edges_grow (children st) ch /\
      (wf_child nd ->
       forall p, node_parentOriginal nd = Some p ->
         1 <= List.length (edges_to (normalize p) (node_key nd) ch))).
    { intros ch ->. split.
      + destruct (if_truthy _ normalize) as [k|]; [|apply edges_grow_refl].
        destruct (truthy k) eqn:Tk; [|apply edges_grow_refl].
        apply addChild_edges, Tk.
      + intros (_ & Hq & p' & Hp' & Tp & Ip) p Hp.
        rewrite Hp in Hp'. inversion Hp'; subst p'.
        rewrite Hp. cbn [if_truthy]. rewrite Tp, Ip.
        cbn [if_truthy]. rewrite Tp.
        assert (Tn : truthy (normalize p) = true)
          by (rewrite truthy_normalize, Ip; exact Tp).
        rewrite Tn, Hq. apply addChild_edges, Tn. }
    destruct (Set_has _ _); cbn [fst children]; apply Hgen; reflexivity.
  - cbn [fst]. split; [apply edges_grow_refl|].
    intros (Tq & Hq & _). rewrite Hq in T. congruence.
Qed.

Lemma edges_grow_keeps (ch ch' : JsMap (list edge)) (pk ck : jsstring) :
  edges_grow ch ch' ->
  1 <= List.length (edges_to pk ck ch) ->
  1 <= List.length (edges_to pk ck ch').
Proof. intros H H1. destruct (H pk ck). lia. Qed.

Lemma dedup_pass_children (pocket : list node) :
  forall st : state,
  edges_grow (children st) (children (fst (dedup_pass pocket st))) /\
  forall nd p, In nd pocket -> wf_child nd ->
    node_parentOriginal nd = Some p ->
    1 <= List.length (edges_to (normalize p) (node_key nd)
                        (children (fst (dedup_pass pocket st)))).
Proof.
  induction pocket as [|n0 rest IH]; intros st; cbn [dedup_pass].
  - split; [apply edges_grow_refl | intros nd p []].
  - destruct (dedup_node_children n0 st) as (G0 & E0).
    destruct (dedup_node n0 st) as [st1 kept]. cbn [fst] in G0, E0.
    destruct (IH st1) as (G1 & E1).
    destruct (dedup_pass rest st1) as [st2 U]. cbn [fst] in *.
    split; [exact (edges_grow_trans G0 G1)|].
    intros nd p [<- | Hin] Hwf Hp.
    + apply (edges_grow_keeps _ _ G1). exact (E0 Hwf p Hp).
    + exact (E1 nd p Hin Hwf Hp).
Qed.

End Edges.

Section EdgesOfARun.

Variable P : providers.
Variable max_depth : nat.

Lemma resolve_all_children (U : list node) :
  forall (st st' : state) (r : result (list node)),
  resolve_all P max_depth U st = (r, st') -> children st' = children st.
Proof.
  induction U as [|nd rest IH]; intros st st' r H; cbn [resolve_all] in H.
  - unfold ret in H. inversion H; subst. reflexivity.
  - apply bind_inv in H.
    destruct H as [(nx1 & st1 & H1 & H2) | (e & H1 & _)];
      apply resolve_node_inv in H1; destruct H1 as (Hch & _);
      [|exact Hch].
    apply bind_inv in H2.
    destruct H2 as [(nx2 & st2 & H3 & H4) | (e & H3 & _)];
      apply IH in H3; [|congruence].
    unfold ret in H4. inversion H4; subst. congruence.
Qed.

Lemma round_children (pocket : list node) (st st' : state)
  (r : result (list node)) :
  round P max_depth pocket st = (r, st') ->
  edges_grow (children st) (children st') /\
  forall nd p, In nd pocket -> wf_child nd ->
    node_parentOriginal nd = Some p ->
    1 <= List.length (edges_to (normalize p) (node_key nd) (children st')).
Proof.
  unfold round. intros H.
  pose proof (dedup_pass_children pocket st) as D.
  destruct (dedup_pass pocket st) as [st1 U]. cbn [fst] in D.
  assert (E : children st' = children st1).
  { destruct U; [inversion H; subst; reflexivity|].
    eapply resolve_all_children. exact H. }
  rewrite E. exact D.
Qed.

Lemma rounds_children (n : nat) :
  forall (pocket : list node) (st st' : state) (r : result (list node)),
  rounds P max_depth n pocket st = (r, st') ->
  edges_grow (children st) (children st').
Proof.
  induction n as [|n IH]; intros pocket st st' r H; cbn [rounds] in H.
  - unfold ret in H. inversion H; subst. apply edges_grow_refl.
  - apply bind_inv in H.
    destruct H as [(p1 & st1 & H1 & H2) | (e & H1 & _)];
      apply round_children in H1; destruct H1 as (G1 & _); [|exact G1].
    apply IH in H2. exact (edges_grow_trans G1 H2).
Qed.

(** After the first round every node of the pocket was proposed by a
    task; before it the pocket is the root, which has no parent. *)
Lemma rounds_pocket_wf (q : jsstring) (n : nat) (pocket : list node)
  (st : state) :
  rounds P max_depth n (root_pocket q) initial_state = (Ok pocket, st) ->
  Forall (fun nd => node_parentOriginal nd = None \/ wf_child nd) pocket.
Proof.
  destruct n as [|n]; intros H.
  - cbn in H. unfold ret in H. inversion H; subst.
    constructor; [left; reflexivity | constructor].
  - replace (S n) with (n + 1) in H by lia. rewrite rounds_add in H.
    apply bind_inv in H.
    destruct H as [(p1 & st1 & H1 & H2) | (e & _ & E)]; [|discriminate E].
    apply rounds_inv in H1; [|apply engine_inv_initial].
    destruct H1 as (I1 & _).
    cbn [rounds] in H2. apply bind_inv in H2.
    destruct H2 as [(p2 & st2 & H3 & H4) | (e & _ & E)]; [|discriminate E].
    unfold ret in H4. inversion H4; subst.
    apply round_inv in H3; [|exact I1].
    destruct H3 as (_ & _ & _ & _ & Hp).
    destruct (Hp pocket eq_refl) as (Hwf & _).
    eapply Forall_impl; [|exact Hwf]. intros nd Hnd. right. exact Hnd.
Qed.

End EdgesOfARun.

(** C5.  Every node of a pocket that has a parent (every child a task
    proposed) has, once the next round has started, exactly one edge
    under its parent's key in [children], and keeps exactly one until
    the end of the run.  This holds whether or not the child's key was
    already seen or answered, however many times the child was proposed,
    and whatever the outcome of the tasks. *)
Theorem proposed_child_has_one_edge (P : providers) (d : nat)
  (q : jsstring) (n : nat) (pocket : list node) (st : state) :
  rounds P d n (root_pocket q) initial_state = (Ok pocket, st) ->
  forall m r st',
    rounds P d (n + S m) (root_pocket q) initial_state = (r, st') ->
    forall nd p,
      In nd pocket -> node_parentOriginal nd = Some p ->
      List.length (edges_to (normalize p) (node_key nd) (children st')) = 1.
Proof.
  intros H m r st' H' nd p Hin Hp.
  assert (Hwf : wf_child nd).
  { pose proof (rounds_pocket_wf _ _ _ _ H) as F.
    rewrite Forall_forall in F. destruct (F nd Hin) as [E|W]; [|exact W].
    congruence. }
  assert (Hle : List.length
                  (edges_to (normalize p) (node_key nd) (children st')) <= 1).
  { pose proof H' as G. apply rounds_children in G.
    destruct (G (normalize p) (node_key nd)) as (_ & G2).
    cbn in G2. exact G2. }
  rewrite rounds_add in H'. unfold bind in H'. rewrite H in H'.
  cbn [rounds] in H'. apply bind_inv in H'.
  assert (Hge : 1 <= List.length
                  (edges_to (normalize p) (node_key nd) (children st'))).
  { destruct H' as [(p1 & st1 & H1 & H2) | (e & H1 & _)];
      apply round_children in H1; destruct H1 as (_ & E1).
    - apply rounds_children in H2.
      apply (edges_grow_keeps _ _ H2). exact (E1 nd p Hin Hwf Hp).
    - exact (E1 nd p Hin Hwf Hp). }
  lia.
Qed.

(** ** Runs whose services answer *)

Section TotalServices.

Variable P : providers.
Variable max_depth : nat.

Hypothesis classifier_answers : forall q, exists b, isQuantifiable P q = Ok b.
Hypothesis search_configured :
  truthy (or_empty (SERPAPI_API_KEY P)) = true.
Hypothesis search_answers :
  forall q, exists organic, serpapi_organic P q 5 = Ok organic.
Hypothesis completion_answers :
  forall u, exists c, web_completion P u = Ok c.
Hypothesis decomposer_answers :
  forall q, exists l, decomposeToQuantifiable P q = Ok l.
Hypothesis followups_answer :
  forall q a, exists l, detectFollowupsFromAnswer P q a = Ok l.





End TotalServices.

Section RootQuestion.

Variable P : providers.
Variable max_depth : nat.

Lemma normalize_trim (s : jsstring) : normalize (trim s) = normalize s.
Proof. unfold normalize. rewrite trim_idem. reflexivity. Qed.

Lemma resolve_all_seen (U : list node) :
  forall (st st' : state) (r : result (list node)),
  resolve_all P max_depth U st = (r, st') -> seen st' = seen st.
Proof.
  induction U as [|nd rest IH]; intros st st' r H; cbn [resolve_all] in H.
  - unfold ret in H. inversion H; subst. reflexivity.
  - apply bind_inv in H.
    destruct H as [(nx1 & st1 & H1 & H2) | (e & H1 & _)];
      apply resolve_node_inv in H1; destruct H1 as (_ & Hs & _);
      [|exact Hs].
    apply bind_inv in H2.
    destruct H2 as [(nx2 & st2 & H3 & H4) | (e & H3 & _)];
      apply IH in H3; [|congruence].
    unfold ret in H4. inversion H4; subst. congruence.
Qed.

Lemma round_seen (pocket : list node) (st st' : state)
  (r : result (list node)) :
  round P max_depth pocket st = (r, st') ->
  seen st' = seen (fst (dedup_pass pocket st)) /\
  exists more, seen st' = seen st ++ more.
Proof.
  unfold round. intros H.
  destruct (dedup_pass pocket st) as [st1 U] eqn:D. cbn [fst].
  apply dedup_pass_inv in D. destruct D as (_ & _ & _ & S1 & _).
  assert (E : seen st' = seen st1).
  { destruct U; [inversion H; subst; reflexivity|].
    eapply resolve_all_seen. exact H. }
  split; [exact E|]. rewrite E, S1. eauto.
Qed.

Lemma rounds_seen (n : nat) :
  forall (pocket : list node) (st st' : state) (r : result (list node)),
  rounds P max_depth n pocket st = (r, st') ->
  exists more, seen st' = seen st ++ more.
Proof.
  induction n as [|n IH]; intros pocket st st' r H; cbn [rounds] in H.
  - unfold ret in H. inversion H; subst. exists []. rewrite app_nil_r.
    reflexivity.
  - apply bind_inv in H.
    destruct H as [(p1 & st1 & H1 & H2) | (e & H1 & _)];
      apply round_seen in H1; destruct H1 as (_ & m1 & E1); [|eauto].
    apply IH in H2. destruct H2 as (m2 & E2).
    exists (m1 ++ m2). rewrite E2, E1, app_assoc. reflexivity.
Qed.

(** The first round sees the key of the root question. *)
Lemma root_is_seen (q : jsstring) (fuel : nat) (r : result unit)
  (st : state) :
  truthy (trim q) = true ->
  run_frontier P max_depth fuel q = Some (r, st) ->
  In (normalize q) (seen st).
Proof.
  intros T H. unfold run_frontier, root_pocket in H.
  destruct fuel as [|fuel]; [discriminate H|].
  cbn [frontier_loop] in H.
  match type of H with
  | context [round P max_depth ?p ?s] =>
      destruct (round P max_depth p s) as [r1 st1] eqn:E
  end.
  apply round_seen in E. destruct E as (E & _).
  assert (S1 : seen st1 = [normalize q]).
  { rewrite E. cbn [dedup_pass]. unfold dedup_node.
    cbn [node_questionOriginal node_parentOriginal].
    rewrite trim_idem, T. cbn [negb]. rewrite normalize_trim.
    reflexivity. }
  destruct r1 as [p1|e].
  - apply frontier_loop_rounds in H. destruct H as (n & _ & H).
    apply rounds_seen in H. destruct H as (more & ->).
    rewrite S1. left. reflexivity.
  - inversion H; subst. rewrite S1. left. reflexivity.
Qed.

Lemma latest_user_question_truthy (l : list message) :
  (exists m, In m l /\ role m = lit "user" /\
             truthy (trim (content m)) = true) ->
  truthy (latest_user_question l) = true /\
  trim (latest_user_question l) = latest_user_question l.
Proof.
  induction l as [|m0 l IH]; intros (m & Hin & Hr & Ht); [destruct Hin|].
  cbn [latest_user_question].
  destruct (jsstring_eqb (role m0) (lit "user")) eqn:E.
  - destruct (truthy (trim (content m0))) eqn:T0.
    + split; [exact T0 | apply trim_idem].
    + apply IH. destruct Hin as [<- | Hin]; [congruence | eauto].
  - apply IH. destruct Hin as [<- | Hin]; [|eauto].
    apply jsstring_eqb_neq in E. congruence.
Qed.

End RootQuestion.

(** ** The blocks of a run *)




(** ** Concrete runs *)



(** C2 fails as stated: a response that contains "no companies found in
    the knowledge base" together with "policy file not found" is kept as
    the answer of the knowledge base, and the web is not asked. *)
Lemma policy_file_response_is_not_a_fallback :
  includes (lit "no companies found in the knowledge base")
    (toLowerCase
       (lit "Policy file not found. No companies found in the knowledge base."))
  = true /\
  exists st' e,
    resolve_node
      (sample_services (Some (lit "key")) true
         (Ok (lit "Policy file not found. No companies found in the knowledge base."))
         [snippet_at "https://a.example"; snippet_at "https://b.example"]
         (lit "40M") [])
      MAX_DEPTH (root_node "Which companies are listed?") initial_state
    = (Ok [], st') /\
    Map_get (node_key (root_node "Which companies are listed?"))
            (answered st') = Some e /\
    source e = Some (lit "mcp") /\ sources e = [] /\
    calls st' =
      [CallClassifier (lit "Which companies are listed?");
       CallKnowledgeBase (kb_chat (lit "Which companies are listed?"));
       CallFollowups (lit "Which companies are listed?")
         (lit "Policy file not found. No companies found in the knowledge base.")].
Proof.
  split; [vm_compute; reflexivity|].
  do 2 eexists. split; [vm_compute; reflexivity|].
  split; [vm_compute; reflexivity|].
  repeat split.
Qed.

Lemma not_found_falls_back_to_web_witness :
  exists r st' e,
    resolve_node
      (sample_services (Some (lit "key")) true
         (Ok (lit "This is not available in our current document."))
         [snippet_at "https://a.example"; snippet_at "https://b.example"]
         (lit "40M") [])
      MAX_DEPTH (root_node "What was the 2023 revenue of Acme Corp?")
      initial_state = (r, st') /\
    Map_get (node_key (root_node "What was the 2023 revenue of Acme Corp?"))
            (answered st') = Some e /\
    source e = Some (lit "web") /\
    sources e = [lit "https://a.example"; lit "https://b.example"].
Proof.
  destruct (proj2 (not_found_falls_back_to_web
    (sample_services (Some (lit "key")) true
       (Ok (lit "This is not available in our current document."))
       [snippet_at "https://a.example"; snippet_at "https://b.example"]
       (lit "40M") [])
    MAX_DEPTH)
    (root_node "What was the 2023 revenue of Acme Corp?") initial_state
    [snippet_at "https://a.example"; snippet_at "https://b.example"])
    as (r & st' & e & H1 & H2 & H3 & H4 & _).
  - reflexivity.
  - intros t [= <-]. vm_compute. reflexivity.
  - reflexivity.
  - reflexivity.
  - intros u. eexists. reflexivity.
  - exists r, st', e. repeat split; assumption.
Defined.

Lemma answered_write_once_witness :
  NoDup (writes (snd
    (rounds
       (sample_services None true (Ok (lit "40M in 2023.")) [] []
          [lit "What was the 2022 revenue?"; lit "what was  the 2022 REVENUE?"])
       1 2 (root_pocket (lit "What was the 2023 revenue?")) initial_state)))
  /\
  exists st,
    run_frontier
      (sample_services None true (Ok (lit "40M in 2023.")) [] []
         [lit "What was the 2022 revenue?"; lit "what was  the 2022 REVENUE?"])
      1 2 (lit "What was the 2023 revenue?") = Some (Ok tt, st) /\
    Map_keys (answered st) = writes st.
Proof.
  split.
  - eapply (proj1 (answered_write_once
      (sample_services None true (Ok (lit "40M in 2023.")) [] []
         [lit "What was the 2022 revenue?";
          lit "what was  the 2022 REVENUE?"])
      1 (lit "What was the 2023 revenue?")) 2).
    vm_compute. reflexivity.
  - eexists. split; [vm_compute; reflexivity|].
    eapply (proj2 (answered_write_once
      (sample_services None true (Ok (lit "40M in 2023.")) [] []
         [lit "What was the 2022 revenue?";
          lit "what was  the 2022 REVENUE?"])
      1 (lit "What was the 2023 revenue?")) 2).
    vm_compute. reflexivity.
Defined.

Lemma frontier_loop_terminates_within_depth_witness :
  (exists r st n,
     run_frontier
       (sample_services None true (Ok (lit "40M in 2023.")) [] []
          [lit "What was the 2022 revenue?"])
       1 2 (lit "What was the 2023 revenue?") = Some (r, st) /\ n <= 2) /\
  (exists r,
     answerWithAgent
       (sample_services None true (Ok (lit "40M in 2023.")) [] []
          [lit "What was the 2022 revenue?"])
       2 (user_says "What was the 2023 revenue?") = Some r).
Proof.
  split.
  - destruct (proj1 (frontier_loop_terminates_within_depth
      (sample_services None true (Ok (lit "40M in 2023.")) [] []
         [lit "What was the 2022 revenue?"])
      1 (lit "What was the 2023 revenue?")) 2 (le_n 2))
      as (r & st & n & H1 & H2 & _).
    exists r, st, n. split; assumption.
  - apply (proj2 (proj2 (frontier_loop_terminates_within_depth
      (sample_services None true (Ok (lit "40M in 2023.")) [] []
         [lit "What was the 2022 revenue?"])
      1 (lit "What was the 2023 revenue?")))).
    unfold MAX_DEPTH. lia.
Defined.


Lemma proposed_child_has_one_edge_witness :
  List.length
    (edges_to (normalize (lit "What was the 2023 revenue?"))
       (node_key
          {| node_questionOriginal := lit "What was the 2022 revenue?";
             node_parentOriginal := Some (lit "What was the 2023 revenue?");
             depth := 1 |})
       (children (snd
          (rounds
             (sample_services None true (Ok (lit "40M in 2023.")) [] []
                [lit "What was the 2022 revenue?";
                 lit "what was  the 2022 REVENUE?";
                 lit "What was the 2023 revenue?"])
             1 (1 + 1) (root_pocket (lit "What was the 2023 revenue?"))
             initial_state)))) = 1.
Proof.
  refine (@proposed_child_has_one_edge
    (sample_services None true (Ok (lit "40M in 2023.")) [] []
       [lit "What was the 2022 revenue?";
        lit "what was  the 2022 REVENUE?";
        lit "What was the 2023 revenue?"])
    1 (lit "What was the 2023 revenue?") 1
    [ {| node_questionOriginal := lit "What was the 2022 revenue?";
         node_parentOriginal := Some (lit "What was the 2023 revenue?");
         depth := 1 |};
      {| node_questionOriginal := lit "what was  the 2022 REVENUE?";
         node_parentOriginal := Some (lit "What was the 2023 revenue?");
         depth := 1 |};
      {| node_questionOriginal := lit "What was the 2023 revenue?";
         node_parentOriginal := Some (lit "What was the 2023 revenue?");
         depth := 1 |} ]
    (snd (rounds
            (sample_services None true (Ok (lit "40M in 2023.")) [] []
               [lit "What was the 2022 revenue?";
                lit "what was  the 2022 REVENUE?";
                lit "What was the 2023 revenue?"])
            1 1 (root_pocket (lit "What was the 2023 revenue?"))
            initial_state))
    _ 0 _ _ _
    {| node_questionOriginal := lit "What was the 2022 revenue?";
       node_parentOriginal := Some (lit "What was the 2023 revenue?");
       depth := 1 |}
    (lit "What was the 2023 revenue?") _ _).
  - vm_compute. reflexivity.
  - vm_compute. reflexivity.
  - left. reflexivity.
  - reflexivity.
Defined.

Lemma non_quantifiable_short_circuit_witness :
  exists r st' e,
    resolve_node (sample_services None false (Throw (lit "MCP down")) []
                    [] [lit "How many people name blue as a favourite?"])
      MAX_DEPTH (root_node "Why do people like blue?") initial_state
    = (r, st') /\
    Map_get (node_key (root_node "Why do people like blue?"))
            (answered st') = Some e /\
    answer e = NON_QUANTIFIABLE /\
    calls st' = [CallClassifier (lit "Why do people like blue?");
                 CallDecompose (lit "Why do people like blue?")].
Proof.
  destruct (non_quantifiable_short_circuit
    (sample_services None false (Throw (lit "MCP down")) []
       [] [lit "How many people name blue as a favourite?"])
    MAX_DEPTH (root_node "Why do people like blue?") initial_state
    eq_refl)
    as (r & st' & e & H1 & H2 & _ & H4 & _ & _ & H7 & _).
  exists r, st', e. repeat split; assumption.
Defined.

(** C7 fails as stated: an answer of the knowledge base that ends with
    a "Sources:" section is stored with it. *)
Lemma knowledge_base_answer_keeps_sources_section :
  exists st',
    answer_quantifiable
      (sample_services None true
         (Ok (lit "Revenue was 40M." ++ LF ++ lit "Sources: report.pdf"))
         [] [] [])
      (lit "What was the 2023 revenue?") initial_state
    = (Ok (lit "Revenue was 40M." ++ LF ++ lit "Sources: report.pdf",
           lit "mcp", []), st') /\
    has_sources_section
      (lit "Revenue was 40M." ++ LF ++ lit "Sources: report.pdf") = true /\
    stripSourcesSection
      (lit "Revenue was 40M." ++ LF ++ lit "Sources: report.pdf")
    = lit "Revenue was 40M.".
Proof.
  eexists. split; [vm_compute; reflexivity|].
  split; vm_compute; reflexivity.
Qed.

Lemma sources_section_stripped_from_web_answers_witness :
  stripSourcesSection (lit " 40M in 2023. ") = trim (lit " 40M in 2023. ")
  /\
  ((lit "web" = lit "web" /\ has_sources_section (lit "40M") = false) \/
   (lit "web" = lit "mcp" /\
    exists t,
      callAskChatGPT
        (sample_services (Some (lit "key")) true (Throw (lit "MCP down"))
           [snippet_at "https://a.example"]
           (lit "40M" ++ LF ++ lit "Sources: https://a.example") [])
        (kb_chat (lit "What was the 2023 revenue?")) = Ok t /\
      lit "40M" = trim t)).
Proof.
  split.
  - apply (proj1 (proj2 sources_section_stripped_from_web_answers)).
    vm_compute. reflexivity.
  - eapply (proj2 (proj2 sources_section_stripped_from_web_answers)
      (sample_services (Some (lit "key")) true (Throw (lit "MCP down"))
         [snippet_at "https://a.example"]
         (lit "40M" ++ LF ++ lit "Sources: https://a.example") [])
      (lit "What was the 2023 revenue?") initial_state
      (lit "40M") (lit "web") [lit "https://a.example"]).
    vm_compute. reflexivity.
Defined.

(** C8 fails as stated: with nothing configured, a question that is not
    quantifiable does not get its draft back. *)
Lemma audit_of_non_quantifiable_drops_the_draft :
  CREWAI_BASE_URL crew_unconfigured = None /\
  auditAndPolish crew_unconfigured (lit "Why do people like blue?") false
    (lit "Because of the sky.") [lit "https://a.example"]
  = Ok {| audit_ok := false; audit_answer := NON_QUANTIFIABLE;
          audit_sources := [] |}.
Proof. split; reflexivity. Qed.

Lemma audit_fails_open_when_quantifiable_witness :
  auditAndPolish crew_unconfigured (lit "What was the 2023 revenue?") true
    (lit "40M in 2023.") [lit "https://a.example"]
  = Ok {| audit_ok := true; audit_answer := lit "40M in 2023.";
          audit_sources := [lit "https://a.example"] |} /\
  auditAndPolish crew_rejecting (lit "What was the 2023 revenue?") true
    (lit "40M in 2023.") [lit "https://a.example"]
  = Ok {| audit_ok := true; audit_answer := lit "40M in 2023.";
          audit_sources := [lit "https://a.example"] |}.
Proof.
  split.
  - apply (proj1 (audit_fails_open_when_quantifiable crew_unconfigured
      (lit "What was the 2023 revenue?") (lit "40M in 2023.")
      [lit "https://a.example"])).
    left. reflexivity.
  - apply (proj1 (proj2 (audit_fails_open_when_quantifiable crew_rejecting
      (lit "What was the 2023 revenue?") (lit "40M in 2023.")
      [lit "https://a.example"]))
      {| kickoff_ok := false; task_id := None |}); reflexivity.
Defined.

(** The scenario of the knowledge base answering the root question: the
    first block carries its answer and no source link. *)
Example knowledge_base_answers_the_root :
  match
    answerWithAgent
      (sample_services None true (Ok (lit "$40M in 2023.")) [] []
         [lit "What was the 2022 revenue of Acme Corp?"])
      2 (user_says "What was the 2023 revenue of Acme Corp?")
  with
  | Some (Ok (Success (b :: _) _ stats)) =>
      block_answer b = lit "$40M in 2023." /\ block_sources b = [] /\
      stats_totalGenerated stats = 2 /\ questionsAnswered stats = 2
  | _ => False
  end.
Proof. vm_compute. repeat split. Qed.

(** A follow-up that normalizes to the key of the root question puts the
    root among its own children; the recursion of [render] then never
    ends and the run throws after its loop has finished. *)
Example self_proposed_followup_overflows_render :
  answerWithAgent
    (sample_services None true (Ok (lit "$40M in 2023.")) [] []
       [lit "what was the 2023 revenue of Acme Corp?"])
    2 (user_says "What was the 2023 revenue of Acme Corp?")
  = Some (Throw (lit "Maximum call stack size exceeded")).
Proof. vm_compute. reflexivity. Qed.

(* ================================================================== *)
(** * Further properties of the code *)

(** ** The question a run answers *)

Section LatestQuestion.

(** A message [extractLatestUserQuestion] passes over. *)
Lemma latest_user_question_skip (l1 l2 : list message) :
  (forall m, In m l1 -> role m = lit "user" ->
             truthy (trim (content m)) = false) ->
  latest_user_question (l1 ++ l2) = latest_user_question l2.
Proof.
  induction l1 as [|m0 l1 IH]; intros H; [reflexivity|].
  cbn [app latest_user_question].
  destruct (jsstring_eqb (role m0) (lit "user")) eqn:E.
  - apply jsstring_eqb_eq in E.
    rewrite (H m0 (or_introl eq_refl) E).
    apply IH. intros m Hm. apply H. right. exact Hm.
  - apply IH. intros m Hm. apply H. right. exact Hm.
Qed.

Lemma extractLatestUserQuestion_none (chat : list message) :
  (forall m, In m chat -> role m = lit "user" ->
             truthy (trim (content m)) = false) ->
  extractLatestUserQuestion chat = [].
Proof.
  intros H. unfold extractLatestUserQuestion.
  rewrite <- (app_nil_r (rev chat)).
  rewrite latest_user_question_skip; [reflexivity|].
  intros m Hin. apply H. apply in_rev. exact Hin.
Qed.

Lemma stripSourcesSection_only_trims (t : jsstring) :
  has_sources_section t = false -> stripSourcesSection t = trim t.
Proof.
  intros H. unfold stripSourcesSection. destruct t; [reflexivity|].
  cbn [truthy negb]. rewrite cut_sources_id by exact H. reflexivity.
Qed.

End LatestQuestion.

(** X1.  [extractLatestUserQuestion] returns the trimmed content of the
    last message of the chat that has role "user" and a content that is
    not blank, whatever comes before it and whatever other messages come
    after it; it returns the empty string when the chat has no such
    message. *)
Theorem extractLatestUserQuestion_spec (chat : list message) :
  (forall pre m post,
     chat = pre ++ m :: post ->
     role m = lit "user" -> truthy (trim (content m)) = true ->
     (forall m', In m' post -> role m' = lit "user" ->
                 truthy (trim (content m')) = false) ->
     extractLatestUserQuestion chat = trim (content m)) /\
  ((forall m, In m chat -> role m = lit "user" ->
              truthy (trim (content m)) = false) ->
   extractLatestUserQuestion chat = []).
Proof.
  unfold extractLatestUserQuestion. split.
  - intros pre m post -> Hr Ht Hpost.
    rewrite rev_app_distr. cbn [rev]. rewrite <- app_assoc.
    rewrite latest_user_question_skip.
    + cbn [app latest_user_question]. rewrite Hr, jsstring_eqb_refl, Ht.
      reflexivity.
    + intros m' Hin. apply Hpost. apply in_rev. exact Hin.
  - intros H. apply extractLatestUserQuestion_none in H. exact H.
Qed.

Lemma extractLatestUserQuestion_spec_witness :
  extractLatestUserQuestion
    ([{| role := lit "user"; content := lit "What is A?" |}]
     ++ {| role := lit "user"; content := lit "  What is B? " |}
     :: [{| role := lit "assistant"; content := lit "B is 2." |};
         {| role := lit "user"; content := lit "   " |}])
  = trim (lit "  What is B? ") /\
  extractLatestUserQuestion
    [{| role := lit "system"; content := lit "Be brief." |};
     {| role := lit "user"; content := lit "  " |}] = [].
Proof.
  split.
  - apply (proj1 (extractLatestUserQuestion_spec _)
             [{| role := lit "user"; content := lit "What is A?" |}]
             {| role := lit "user"; content := lit "  What is B? " |}
             [{| role := lit "assistant"; content := lit "B is 2." |};
              {| role := lit "user"; content := lit "   " |}] eq_refl).
    + reflexivity.
    + vm_compute. reflexivity.
    + intros m' [<- | [<- | []]] Hr; [discriminate Hr|].
      vm_compute. reflexivity.
  - apply (proj2 (extractLatestUserQuestion_spec _)).
    intros m [<- | [<- | []]] Hr; [discriminate Hr|].
    vm_compute. reflexivity.
Defined.



(** ** More on the "Sources:" section *)

Lemma no_line_feed_no_section (t : jsstring) :
  ~ In "010"%char t -> has_sources_section t = false.
Proof.
  induction t as [|c r IH]; intros H; [reflexivity|].
  cbn [has_sources_section sources_at].
  destruct (ascii_dec c "010"%char) as [->|_].
  - exfalso. apply H. left. reflexivity.
  - apply IH. intros Hin. apply H. right. exact Hin.
Qed.

(** X3.  [stripSourcesSection] is idempotent: stripping an answer that
    was already stripped changes nothing. *)
Theorem stripSourcesSection_idempotent (t : jsstring) :
  stripSourcesSection (stripSourcesSection t) = stripSourcesSection t.
Proof.
  rewrite (stripSourcesSection_only_trims (stripSourcesSection t))
    by apply stripSourcesSection_clean.
  unfold stripSourcesSection. destruct (negb (truthy t)); [reflexivity|].
  apply trim_idem.
Qed.

(** X4.  The expression of [stripSourcesSection] needs a line feed
    before the label: a text without line feed, even one that begins
    with "Sources:", is only trimmed. *)
Theorem text_without_line_feed_is_only_trimmed (t : jsstring) :
  ~ In "010"%char t -> stripSourcesSection t = trim t.
Proof.
  intros H. apply stripSourcesSection_only_trims, no_line_feed_no_section, H.
Qed.

Lemma text_without_line_feed_is_only_trimmed_witness :
  stripSourcesSection (lit "Sources: https://a.example ")
  = lit "Sources: https://a.example".
Proof.
  rewrite text_without_line_feed_is_only_trimmed.
  - vm_compute. reflexivity.
  - vm_compute. intuition discriminate.
Defined.

(** ** The web tier *)

Section WebTier.

Variable P : providers.

Lemma answer_quantifiable_missing_key (q : jsstring) (st : state) :
  (forall t, callAskChatGPT P (kb_chat q) = Ok t -> isMcpNotFound t = true) ->
  truthy (or_empty (SERPAPI_API_KEY P)) = false ->
  answer_quantifiable P q st =
  (Throw MISSING_KEY,
   snd (request (CallKnowledgeBase (kb_chat q))
                (callAskChatGPT P (kb_chat q)) st)).
Proof.
  intros Hnf K. unfold answer_quantifiable, try_catch, bind, request.
  fold (kb_chat q).
  destruct (callAskChatGPT P (kb_chat q)) as [t|e] eqn:E.
  - rewrite (Hnf t eq_refl). cbn [negb]. unfold throw.
    unfold answerFromWeb, searchWeb, bind. rewrite K. reflexivity.
  - unfold answerFromWeb, searchWeb, bind. rewrite K. reflexivity.
Qed.

Lemma answer_quantifiable_no_results (q : jsstring) (st : state) :
  (forall t, callAskChatGPT P (kb_chat q) = Ok t -> isMcpNotFound t = true) ->
  truthy (or_empty (SERPAPI_API_KEY P)) = true ->
  serpapi_organic P q 5 = Ok [] ->
  answer_quantifiable P q st =
  (Ok (lit "No data found.", lit "web", []),
   snd (request (CallWebSearch q) (serpapi_organic P q 5)
          (snd (request (CallKnowledgeBase (kb_chat q))
                        (callAskChatGPT P (kb_chat q)) st)))).
Proof.
  intros Hnf K Ho. unfold answer_quantifiable, try_catch, bind, request.
  fold (kb_chat q).
  destruct (callAskChatGPT P (kb_chat q)) as [t|e] eqn:E.
  - rewrite (Hnf t eq_refl). cbn [negb]. unfold throw.
    unfold answerFromWeb, searchWeb, bind, request, ret.
    rewrite K, Ho. reflexivity.
  - unfold answerFromWeb, searchWeb, bind, request, ret.
    rewrite K, Ho. reflexivity.
Qed.

Lemma links_used_bounded (organic : list raw_result) :
  List.length (links_used organic) <= 5 /\
  Forall (fun l => truthy l = true) (links_used organic).
Proof.
  unfold links_used. split.
  - eapply Nat.le_trans; [apply filter_length_le|].
    rewrite length_map. apply firstn_le_length.
  - apply Forall_forall. intros l Hl. apply filter_In in Hl. tauto.
Qed.

End WebTier.

Lemma latest_user_question_trimmed (l : list message) :
  trim (latest_user_question l) = latest_user_question l.
Proof.
  induction l as [|m l IH]; [reflexivity|]. cbn [latest_user_question].
  destruct (jsstring_eqb (role m) (lit "user")); [|exact IH].
  destruct (truthy (trim (content m))); [apply trim_idem | exact IH].
Qed.

Lemma dedup_pass_root (q : jsstring) :
  truthy q = true -> trim q = q ->
  dedup_pass (root_pocket q) initial_state =
  ({| answered := []; children := []; seen := [normalize q];
      totalGenerated := 1; calls := []; writes := [] |},
   [{| node_questionOriginal := q; node_parentOriginal := None;
       depth := 0 |}]).
Proof.
  intros T I. unfold root_pocket. cbn [dedup_pass]. unfold dedup_node.
  cbn [node_questionOriginal node_parentOriginal depth].
  rewrite !I, T. cbn [negb]. reflexivity.
Qed.

(** X5.  A missing search credential is not degraded.  For a question
    classified quantifiable whose knowledge-base call throws or reports
    not-found, when [SERPAPI_API_KEY] is unset or empty the task throws
    the configuration error after the requests to the classifier and to
    the knowledge base, without writing an entry; when that question is
    the root, [answerWithAgent] throws that error. *)
Theorem missing_credential_aborts_the_run (P : providers) :
  truthy (or_empty (SERPAPI_API_KEY P)) = false ->
  (forall d nd st,
     isQuantifiable P (node_questionOriginal nd) = Ok true ->
     (forall t, callAskChatGPT P (kb_chat (node_questionOriginal nd)) = Ok t ->
                isMcpNotFound t = true) ->
     exists st',
       resolve_node P d nd st = (Throw MISSING_KEY, st') /\
       answered st' = answered st /\ writes st' = writes st /\
       calls st' =
         calls st ++ [CallClassifier (node_questionOriginal nd);
                      CallKnowledgeBase (kb_chat (node_questionOriginal nd))])
  /\
  (forall chat fuel,
     truthy (extractLatestUserQuestion chat) = true ->
     isQuantifiable P (extractLatestUserQuestion chat) = Ok true ->
     (forall t, callAskChatGPT P (kb_chat (extractLatestUserQuestion chat))
                = Ok t -> isMcpNotFound t = true) ->
     answerWithAgent P (S fuel) chat = Some (Throw MISSING_KEY)).
Proof.
  intros K.
  assert (Htask : forall d nd st,
    isQuantifiable P (node_questionOriginal nd) = Ok true ->
    (forall t, callAskChatGPT P (kb_chat (node_questionOriginal nd)) = Ok t ->
               isMcpNotFound t = true) ->
    exists st',
      resolve_node P d nd st = (Throw MISSING_KEY, st') /\
      answered st' = answered st /\ writes st' = writes st /\
      calls st' =
        calls st ++ [CallClassifier (node_questionOriginal nd);
                     CallKnowledgeBase (kb_chat (node_questionOriginal nd))]).
  { intros d nd st Hq Hnf. eexists.
    unfold resolve_node, bind at 1, request at 1. rewrite Hq. cbn [negb].
    unfold bind at 1.
    rewrite (answer_quantifiable_missing_key P _ _ Hnf K).
    unfold request. cbn [snd answered writes calls].
    split; [reflexivity|]. split; [reflexivity|]. split; [reflexivity|].
    rewrite <- app_assoc. reflexivity. }
  split; [exact Htask|].
  intros chat fuel Tq Hq Hnf. unfold answerWithAgent. rewrite Tq.
  cbn [negb]. unfold run_frontier.
  set (q := extractLatestUserQuestion chat) in *.
  assert (Iq : trim q = q) by apply latest_user_question_trimmed.
  unfold root_pocket at 1. cbn [frontier_loop].
  fold (root_pocket q). unfold round.
  rewrite (dedup_pass_root Tq Iq). cbn [resolve_all]. unfold bind at 1.
  match goal with
  | |- context [resolve_node P MAX_DEPTH ?nd ?st] =>
      destruct (Htask MAX_DEPTH nd st Hq Hnf) as (st' & -> & _)
  end.
  reflexivity.
Qed.

Lemma missing_credential_aborts_the_run_witness :
  answerWithAgent
    (sample_services (Some []) true (Throw (lit "MCP down")) [] [] [])
    1 (user_says "What was the 2023 revenue of Acme Corp?")
  = Some (Throw MISSING_KEY).
Proof.
  apply (proj2 (missing_credential_aborts_the_run
    (sample_services (Some []) true (Throw (lit "MCP down")) [] [] [])
    eq_refl)).
  - vm_compute. reflexivity.
  - reflexivity.
  - intros t H. discriminate H.
Defined.

(** X6.  When the search returns no result for a quantifiable question
    whose knowledge-base call throws or reports not-found, the task
    stores "No data found." with source "web" and no source link, and
    sends no request to the completion model: after the classifier, the
    knowledge base and the search API, the only request it may add is
    the one for follow-ups of that sentinel. *)
Theorem empty_search_yields_no_data_found (P : providers) (d : nat)
  (nd : node) (st : state) :
  isQuantifiable P (node_questionOriginal nd) = Ok true ->
  (forall t, callAskChatGPT P (kb_chat (node_questionOriginal nd)) = Ok t ->
             isMcpNotFound t = true) ->
  truthy (or_empty (SERPAPI_API_KEY P)) = true ->
  serpapi_organic P (node_questionOriginal nd) 5 = Ok [] ->
  exists r st' e,
    resolve_node P d nd st = (r, st') /\
    Map_get (node_key nd) (answered st') = Some e /\
    answer e = lit "No data found." /\ source e = Some (lit "web") /\
    sources e = [] /\
    calls st' =
      calls st ++
      [CallClassifier (node_questionOriginal nd);
       CallKnowledgeBase (kb_chat (node_questionOriginal nd));
       CallWebSearch (node_questionOriginal nd)] ++
      (if depth nd <? d
       then [CallFollowups (node_questionOriginal nd) (lit "No data found.")]
       else []).
Proof.
  intros Hq Hnf K Ho.
  unfold resolve_node, bind at 1, request at 1. rewrite Hq. cbn [negb].
  unfold bind at 1.
  rewrite (answer_quantifiable_no_results P _ _ Hnf K Ho).
  unfold bind at 1, answered_set at 1, request.
  cbn [snd answered children seen totalGenerated calls writes].
  destruct (depth nd <? d).
  - unfold bind.
    destruct (detectFollowupsFromAnswer P (node_questionOriginal nd)
                (lit "No data found.")) as [l|err].
    + unfold expand, bind, add_generated, ret.
      do 3 eexists. split; [reflexivity|]. cbn [answered calls].
      split; [apply Map_get_set_same|].
      cbn [answer source sources]. repeat split.
      rewrite <- !app_assoc. reflexivity.
    + do 3 eexists. split; [reflexivity|]. cbn [answered calls].
      split; [apply Map_get_set_same|].
      cbn [answer source sources]. repeat split.
      rewrite <- !app_assoc. reflexivity.
  - unfold ret. do 3 eexists. split; [reflexivity|]. cbn [answered calls].
    split; [apply Map_get_set_same|].
    cbn [answer source sources]. repeat split.
    rewrite <- !app_assoc. reflexivity.
Qed.

Lemma empty_search_yields_no_data_found_witness :
  exists r st' e,
    resolve_node
      (sample_services (Some (lit "key")) true (Throw (lit "MCP down"))
         [] (lit "unused") [])
      MAX_DEPTH (root_node "What was the 2023 revenue?") initial_state
    = (r, st') /\
    Map_get (node_key (root_node "What was the 2023 revenue?"))
            (answered st') = Some e /\
    answer e = lit "No data found." /\ sources e = [].
Proof.
  destruct (empty_search_yields_no_data_found
    (sample_services (Some (lit "key")) true (Throw (lit "MCP down"))
       [] (lit "unused") [])
    MAX_DEPTH (root_node "What was the 2023 revenue?") initial_state)
    as (r & st' & e & H1 & H2 & H3 & _ & H5 & _).
  - reflexivity.
  - intros t H. discriminate H.
  - reflexivity.
  - reflexivity.
  - exists r, st', e. repeat split; assumption.
Defined.

(** ** What a successful run returns *)

Section SuccessfulRun.

Variable P : providers.

Lemma answerWithAgent_success_inv (fuel : nat) (chat : list message)
  (blocks : list block) (rendered : jsstring) (stats : run_stats) :
  answerWithAgent P fuel chat = Some (Ok (Success blocks rendered stats)) ->
  exists st n,
    truthy (extractLatestUserQuestion chat) = true /\
    run_frontier P MAX_DEPTH fuel (extractLatestUserQuestion chat)
    = Some (Ok tt, st) /\
    rounds P MAX_DEPTH n (root_pocket (extractLatestUserQuestion chat))
           initial_state = (Ok [], st) /\
    blocks = make_blocks 0 (Map_values (answered st)) /\
    stats = {| questionsAnswered := List.length blocks;
               stats_totalGenerated := totalGenerated st;
               totalSeen := List.length (answered st) |} /\
    engine_inv P st /\ writes st = seen st.
Proof.
  unfold answerWithAgent. intros H.
  destruct (truthy (extractLatestUserQuestion chat)) eqn:T;
    cbn [negb] in H; [|discriminate H].
  destruct (run_frontier P MAX_DEPTH fuel (extractLatestUserQuestion chat))
    as [[[u|e] st]|] eqn:R; try discriminate H.
  destruct (render _ _ _ _ _) as [rd|]; [|discriminate H].
  inversion H; subst. destruct u.
  pose proof R as R'. unfold run_frontier in R'.
  apply frontier_loop_rounds in R'. destruct R' as (n & _ & Hn).
  pose proof Hn as Hi. apply rounds_inv in Hi; [|apply engine_inv_initial].
  destruct Hi as (I & _ & Hfull).
  exists st, n. split; [reflexivity|]. split; [reflexivity|].
  split; [exact Hn|]. split; [reflexivity|]. split; [reflexivity|].
  split; [exact I|]. apply (Hfull eq_refl [] eq_refl).
Qed.

Lemma make_blocks_In (vals : list entry) :
  forall i b, In b (make_blocks i vals) ->
  exists e, In e vals /\ question b = questionOriginal e /\
            block_answer b = answer e /\ block_sources b = sources e.
Proof.
  induction vals as [|x r IH]; intros i b Hb; [destruct Hb|].
  cbn [make_blocks] in Hb. destruct Hb as [<- | Hb].
  - exists x. cbn. repeat split. left. reflexivity.
  - destruct (IH _ _ Hb) as (e & He & Hrest). exists e.
    split; [right; exact He | exact Hrest].
Qed.

Lemma make_blocks_length (vals : list entry) :
  forall i, List.length (make_blocks i vals) = List.length vals.
Proof.
  induction vals as [|x r IH]; intros i; [reflexivity|].
  cbn [make_blocks List.length]. rewrite IH. reflexivity.
Qed.

Lemma entry_ok_sources (ke : jsstring * entry) :
  entry_ok P ke ->
  List.length (sources (snd ke)) <= 5 /\
  Forall (fun l => truthy l = true) (sources (snd ke)) /\
  (source (snd ke) <> Some (lit "web") -> sources (snd ke) = []).
Proof.
  intros (_ & _ & [H | [H | H]]).
  - destruct H as (_ & _ & _ & _ & ->). cbn. repeat split; auto; lia.
  - destruct H as (_ & _ & _ & -> & _). cbn. repeat split; auto; lia.
  - destruct H as (_ & _ & Hs & _ & organic & _ & -> & _).
    destruct (links_used_bounded organic) as (L & F).
    repeat split; auto. intros Hne. congruence.
Qed.

End SuccessfulRun.

(** X7.  Every block of a successful run lists at most five source
    links, none of them empty. *)
Theorem blocks_list_at_most_five_links (P : providers) (fuel : nat)
  (chat : list message) (blocks : list block) (rendered : jsstring)
  (stats : run_stats) :
  answerWithAgent P fuel chat = Some (Ok (Success blocks rendered stats)) ->
  forall b, In b blocks ->
    List.length (block_sources b) <= 5 /\
    Forall (fun l => truthy l = true) (block_sources b).
Proof.
  intros H b Hb. apply answerWithAgent_success_inv in H.
  destruct H as (st & n & _ & _ & _ & -> & _ & (_ & _ & _ & _ & Hok) & _).
  apply make_blocks_In in Hb. destruct Hb as (e & He & _ & _ & ->).
  unfold Map_values in He. apply in_map_iff in He.
  destruct He as (ke & <- & Hke).
  rewrite Forall_forall in Hok.
  destruct (entry_ok_sources (Hok ke Hke)) as (L & F & _). split; assumption.
Qed.

Lemma blocks_list_at_most_five_links_witness :
  exists blocks rendered stats,
    answerWithAgent
      (sample_services (Some (lit "key")) true (Throw (lit "MCP down"))
         [snippet_at "https://a.example"; snippet_at "";
          snippet_at "https://c.example"; snippet_at "https://d.example";
          snippet_at "https://e.example"; snippet_at "https://f.example";
          snippet_at "https://g.example"]
         (lit "40M") [])
      2 (user_says "What was the 2023 revenue?")
    = Some (Ok (Success blocks rendered stats)) /\
    forall b, In b blocks ->
      List.length (block_sources b) <= 5 /\
      Forall (fun l => truthy l = true) (block_sources b).
Proof.
  do 3 eexists. split; [vm_compute; reflexivity|].
  eapply (@blocks_list_at_most_five_links
    (sample_services (Some (lit "key")) true (Throw (lit "MCP down"))
       [snippet_at "https://a.example"; snippet_at "";
        snippet_at "https://c.example"; snippet_at "https://d.example";
        snippet_at "https://e.example"; snippet_at "https://f.example";
        snippet_at "https://g.example"]
       (lit "40M") [])
    2 (user_says "What was the 2023 revenue?")).
  vm_compute. reflexivity.
Defined.

(** ** The counter of generated questions *)

Section Generated.

Variable P : providers.
Variable max_depth : nat.

Lemma request_generated {A} (c : call) (x r : result A) (st st' : state) :
  request c x st = (r, st') -> totalGenerated st' = totalGenerated st.
Proof. unfold request. intros H. inversion H; subst. reflexivity. Qed.

Lemma answerFromWeb_generated (q : jsstring) (r : result web_answer)
  (st st' : state) :
  answerFromWeb P q st = (r, st') -> totalGenerated st' = totalGenerated st.
Proof.
  unfold answerFromWeb, searchWeb.
  destruct (negb (truthy (or_empty (SERPAPI_API_KEY P)))).
  - unfold bind, throw. intros H. inversion H; subst. reflexivity.
  - intros H. apply bind_inv in H.
    destruct H as [(results & st1 & H1 & H2) | (e & H1 & _)].
    + apply bind_inv in H1.
      destruct H1 as [(o & st0 & H0 & H0') | (e & H0 & E)];
        [|discriminate E].
      apply request_generated in H0. unfold ret in H0'.
      inversion H0'; subst. destruct (map _ _) as [|r0 rs].
      * unfold ret in H2. inversion H2; subst. exact H0.
      * apply bind_inv in H2.
        destruct H2 as [(resp & st2 & H3 & H4) | (e & H3 & _)];
          apply request_generated in H3; [|congruence].
        unfold ret in H4. inversion H4; subst. congruence.
    + apply bind_inv in H1.
      destruct H1 as [(o & st0 & H0 & H0') | (e' & H0 & _)].
      * unfold ret in H0'. discriminate H0'.
      * apply request_generated in H0. exact H0.
Qed.

Lemma answer_quantifiable_generated (q : jsstring) (st st' : state)
  (r : result (jsstring * jsstring * list jsstring)) :
  answer_quantifiable P q st = (r, st') ->
  totalGenerated st' = totalGenerated st.
Proof.
  unfold answer_quantifiable, try_catch. intros H.
  match type of H with
  | context [bind ?m ?f st] => destruct (bind m f st) as [[a|e] st1] eqn:Hkb
  end.
  - inversion H; subst. apply bind_inv in Hkb.
    destruct Hkb as [(t & st2 & H1 & H2) | (e & H1 & E)]; [|discriminate E].
    apply request_generated in H1.
    destruct (isMcpNotFound t); cbn [negb] in H2;
      unfold ret, throw in H2; inversion H2; subst; exact H1.
  - assert (Hg : totalGenerated st1 = totalGenerated st).
    { apply bind_inv in Hkb.
      destruct Hkb as [(t & st2 & H1 & H2) | (e' & H1 & E)];
        apply request_generated in H1; [|exact H1].
      destruct (isMcpNotFound t); cbn [negb] in H2;
        unfold ret, throw in H2; inversion H2; subst; exact H1. }
    apply bind_inv in H.
    destruct H as [(w & st2 & H1 & H2) | (e' & H1 & E)];
      apply answerFromWeb_generated in H1.
    + unfold ret in H2. inversion H2; subst. congruence.
    + congruence.
Qed.

Lemma expansion_generated (c : call) (x : result (list jsstring))
  (nd : node) (r : result (list node)) (st st' : state) :
  (if depth nd <? max_depth
   then s <- request c x ;; expand (node_questionOriginal nd) (depth nd) s
   else ret []) st = (r, st') ->
  totalGenerated st <= totalGenerated st' /\
  forall nx, r = Ok nx ->
    totalGenerated st' = totalGenerated st + List.length nx.
Proof.
  destruct (depth nd <? max_depth).
  - intros H. apply bind_inv in H.
    destruct H as [(s & st1 & H1 & H2) | (e & H1 & ->)];
      apply request_generated in H1.
    + unfold expand, bind, add_generated, ret in H2. inversion H2; subst.
      cbn [totalGenerated]. rewrite H1.
      split; [lia|]. intros nx [= <-]. rewrite length_map. reflexivity.
    + split; [lia | discriminate].
  - unfold ret. intros [= <- <-]. split; [lia|].
    intros nx [= <-]. cbn. lia.
Qed.

Lemma resolve_node_generated (nd : node) (r : result (list node))
  (st st' : state) :
  resolve_node P max_depth nd st = (r, st') ->
  totalGenerated st <= totalGenerated st' /\
  forall nx, r = Ok nx ->
    totalGenerated st' = totalGenerated st + List.length nx.
Proof.
  unfold resolve_node. intros H. apply bind_inv in H.
  destruct H as [(is_q & st1 & H1 & H2) | (e & H1 & ->)];
    apply request_generated in H1; [|split; [lia | discriminate]].
  destruct is_q; cbn [negb] in H2.
  - apply bind_inv in H2.
    destruct H2 as [(a & st2 & H3 & H4) | (e & H3 & ->)];
      apply answer_quantifiable_generated in H3;
      [|split; [lia | discriminate]].
    destruct a as [[ans src] links]. apply bind_inv in H4.
    destruct H4 as [(u & st3 & H5 & H6) | (e & H5 & _)];
      [|unfold answered_set in H5; discriminate H5].
    unfold answered_set in H5. inversion H5; subst st3.
    apply expansion_generated in H6. cbn [totalGenerated] in H6.
    destruct H6 as (L & E). split; [lia|].
    intros nx Hnx. rewrite (E nx Hnx). lia.
  - apply bind_inv in H2.
    destruct H2 as [(u & st3 & H5 & H6) | (e & H5 & _)];
      [|unfold answered_set in H5; discriminate H5].
    unfold answered_set in H5. inversion H5; subst st3.
    apply expansion_generated in H6. cbn [totalGenerated] in H6.
    destruct H6 as (L & E). split; [lia|].
    intros nx Hnx. rewrite (E nx Hnx). lia.
Qed.

Lemma resolve_all_generated (U : list node) :
  forall (st st' : state) (r : result (list node)),
  resolve_all P max_depth U st = (r, st') ->
  totalGenerated st <= totalGenerated st' /\
  forall nx, r = Ok nx ->
    totalGenerated st' = totalGenerated st + List.length nx.
Proof.
  induction U as [|nd rest IH]; intros st st' r H; cbn [resolve_all] in H.
  - unfold ret in H. inversion H; subst. split; [lia|].
    intros nx [= <-]. cbn. lia.
  - apply bind_inv in H.
    destruct H as [(nx1 & st1 & H1 & H2) | (e & H1 & ->)];
      apply resolve_node_generated in H1; destruct H1 as (L1 & E1);
      [|split; [exact L1 | discriminate]].
    apply bind_inv in H2.
    destruct H2 as [(nx2 & st2 & H3 & H4) | (e & H3 & ->)];
      apply IH in H3; destruct H3 as (L2 & E2);
      [|split; [lia | discriminate]].
    unfold ret in H4. inversion H4; subst. split; [lia|].
    intros nx [= <-]. rewrite length_app, (E2 nx2 eq_refl), (E1 nx1 eq_refl).
    lia.
Qed.

Lemma dedup_pass_generated (pocket : list node) :
  forall (st st' : state) (U : list node),
  dedup_pass pocket st = (st', U) ->
  totalGenerated st' = totalGenerated st /\
  List.length (seen st') = List.length (seen st) + List.length U /\
  List.length U <= List.length pocket.
Proof.
  induction pocket as [|nd rest IH]; intros st st' U; cbn [dedup_pass].
  - intros [= <- <-]. cbn. repeat split; lia.
  - destruct (dedup_node nd st) as [st1 kept] eqn:E1.
    destruct (dedup_pass rest st1) as [st2 U2] eqn:E2.
    intros [= <- <-]. apply IH in E2. destruct E2 as (G2 & S2 & L2).
    assert (G1 : totalGenerated st1 = totalGenerated st).
    { unfold dedup_node in E1.
      destruct (negb _); [inversion E1; reflexivity|].
      destruct (Set_has _ _); inversion E1; reflexivity. }
    apply dedup_node_inv in E1. destruct E1 as (_ & _ & _ & K1).
    destruct kept as [u|].
    + destruct K1 as (S1 & _). rewrite S2, S1, length_app. cbn.
      repeat split; lia.
    + rewrite S2, K1. cbn. repeat split; lia.
Qed.

Lemma rounds_generated (n : nat) :
  forall (pocket : list node) (st st' : state) (r : result (list node)),
  rounds P max_depth n pocket st = (r, st') ->
  List.length (seen st) + List.length pocket <= totalGenerated st ->
  List.length (seen st') <= totalGenerated st' /\
  forall p', r = Ok p' ->
    List.length (seen st') + List.length p' <= totalGenerated st'.
Proof.
  induction n as [|n IH]; intros pocket st st' r H Hinv; cbn [rounds] in H.
  - unfold ret in H. inversion H; subst. split; [lia|].
    intros p' [= <-]. exact Hinv.
  - apply bind_inv in H.
    assert (Hround : forall r1 st1,
      round P max_depth pocket st = (r1, st1) ->
      List.length (seen st1) <= totalGenerated st1 /\
      forall p1, r1 = Ok p1 ->
        List.length (seen st1) + List.length p1 <= totalGenerated st1).
    { intros r1 st1 Hr. pose proof Hr as Hs. apply round_seen in Hs.
      destruct Hs as (Hs & _). unfold round in Hr.
      destruct (dedup_pass pocket st) as [st0 U] eqn:D. cbn [fst] in Hs.
      apply dedup_pass_generated in D. destruct D as (G0 & S0 & L0).
      assert (Hall : resolve_all P max_depth U st0 = (r1, st1)).
      { destruct U; [|exact Hr]. cbn [resolve_all]. unfold ret. exact Hr. }
      apply resolve_all_generated in Hall. destruct Hall as (L & E).
      rewrite Hs. split; [lia|]. intros p1 Hp1. rewrite (E p1 Hp1). lia. }
    destruct H as [(p1 & st1 & H1 & H2) | (e & H1 & ->)].
    + destruct (Hround _ _ H1) as (_ & E1).
      apply (IH _ _ _ _ H2). apply E1. reflexivity.
    + destruct (Hround _ _ H1) as (L1 & _). split; [exact L1 | discriminate].
Qed.

End Generated.

(** X8.  In the statistics of a successful run, [questionsAnswered] and
    [totalSeen] are both the number of blocks, which is at least one
    and at most [totalGenerated]: every question answered was counted
    when it was generated. *)
Theorem stats_are_consistent (P : providers) (fuel : nat)
  (chat : list message) (blocks : list block) (rendered : jsstring)
  (stats : run_stats) :
  answerWithAgent P fuel chat = Some (Ok (Success blocks rendered stats)) ->
  questionsAnswered stats = List.length blocks /\
  totalSeen stats = List.length blocks /\
  1 <= List.length blocks /\
  List.length blocks <= stats_totalGenerated stats.
Proof.
  intros H. apply answerWithAgent_success_inv in H.
  destruct H as (st & n & Tq & Hrun & Hn & -> & -> &
                 (_ & _ & _ & I4 & _) & Hws).
  cbn [questionsAnswered totalSeen stats_totalGenerated].
  rewrite make_blocks_length. unfold Map_values. rewrite length_map.
  assert (Hlen : List.length (answered st) = List.length (seen st)).
  { rewrite <- Hws, <- I4. unfold Map_keys. rewrite length_map.
    reflexivity. }
  split; [reflexivity|]. split; [reflexivity|]. split.
  - rewrite Hlen.
    assert (Hin : In (normalize (extractLatestUserQuestion chat)) (seen st)).
    { eapply root_is_seen; [|exact Hrun].
      unfold extractLatestUserQuestion.
      rewrite latest_user_question_trimmed. exact Tq. }
    destruct (seen st); [destruct Hin | cbn; lia].
  - rewrite Hlen. apply rounds_generated in Hn; [|cbn; lia].
    destruct Hn as (L & _). exact L.
Qed.

Lemma stats_are_consistent_witness :
  exists blocks rendered stats,
    answerWithAgent
      (sample_services None true (Ok (lit "40M in 2023.")) [] []
         [lit "What was the 2022 revenue?"; lit "what was the 2022 revenue?"])
      2 (user_says "What was the 2023 revenue?")
    = Some (Ok (Success blocks rendered stats)) /\
    List.length blocks <= stats_totalGenerated stats.
Proof.
  do 3 eexists. split; [vm_compute; reflexivity|].
  eapply (@stats_are_consistent
    (sample_services None true (Ok (lit "40M in 2023.")) [] []
       [lit "What was the 2022 revenue?"; lit "what was the 2022 revenue?"])
    2 (user_says "What was the 2023 revenue?")).
  vm_compute. reflexivity.
Defined.

(** ** Polling the audit service *)

Section Polling.

Variable C : crew.
Variables (taskId draftAnswer : jsstring) (srcs : list jsstring).

Lemma poll_status_pending (n i : nat) (resp : status_response) :
  fetch_status C i taskId = Ok resp -> status_pending resp = true ->
  poll_status C taskId draftAnswer srcs (S n) i =
  poll_status C taskId draftAnswer srcs n (i + 1).
Proof.
  intros Hf Hp. cbn [poll_status]. rewrite Hf. unfold status_pending in Hp.
  destruct (status_ok resp); cbn [negb orb] in *; [|reflexivity].
  apply andb_prop in Hp. destruct Hp as [H1 H2].
  apply negb_true_iff in H1. apply negb_true_iff in H2.
  rewrite H1, H2. reflexivity.
Qed.

Lemma poll_status_skip (k : nat) :
  forall n i,
  (forall j, j < k -> exists resp,
     fetch_status C (i + j) taskId = Ok resp /\ status_pending resp = true) ->
  poll_status C taskId draftAnswer srcs (k + n) i =
  poll_status C taskId draftAnswer srcs n (i + k).
Proof.
  induction k as [|k IH]; intros n i H.
  - rewrite Nat.add_0_r. reflexivity.
  - destruct (H 0 (Nat.lt_0_succ k)) as (resp & Hf & Hp).
    rewrite Nat.add_0_r in Hf. cbn [Nat.add].
    rewrite (@poll_status_pending (k + n) i resp Hf Hp), IH.
    + f_equal. lia.
    + intros j Hj. destruct (H (S j)) as (r & Hr & Hpr); [lia|].
      exists r. split; [|exact Hpr]. rewrite <- Hr. f_equal. lia.
Qed.

Lemma poll_status_result (n : nat) :
  forall i r,
  poll_status C taskId draftAnswer srcs n i = Ok r ->
  audit_ok r = true /\
  (r = draft_result draftAnswer srcs \/
   (truthy (audit_answer r) = true /\
    exists j resp,
      i <= j < i + n /\ fetch_status C j taskId = Ok resp /\
      status_ok resp = true /\ status resp = lit "completed" /\
      parsed_answer resp = Some (audit_answer r) /\
      audit_sources r = match parsed_sources resp with
                        | Some l => l
                        | None => srcs
                        end)).
Proof.
  induction n as [|n IH]; intros i r H; cbn [poll_status] in H.
  - inversion H; subst. split; [reflexivity | left; reflexivity].
  - destruct (fetch_status C i taskId) as [resp|e] eqn:F; [|discriminate H].
    assert (Hnext : poll_status C taskId draftAnswer srcs n (i + 1) = Ok r ->
      audit_ok r = true /\
      (r = draft_result draftAnswer srcs \/
       (truthy (audit_answer r) = true /\
        exists j resp0,
          i <= j < i + S n /\ fetch_status C j taskId = Ok resp0 /\
          status_ok resp0 = true /\ status resp0 = lit "completed" /\
          parsed_answer resp0 = Some (audit_answer r) /\
          audit_sources r = match parsed_sources resp0 with
                            | Some l => l
                            | None => srcs
                            end))).
    { intros Hn. destruct (IH _ _ Hn) as (Hok & [Hd | (Ht & j & r0 & Hj & Hr)]).
      - split; [exact Hok | left; exact Hd].
      - split; [exact Hok|]. right. split; [exact Ht|].
        exists j, r0. split; [lia | exact Hr]. }
    destruct (status_ok resp) eqn:Sok; cbn [negb] in H; [|exact (Hnext H)].
    destruct (jsstring_eqb (status resp) (lit "completed")) eqn:Ec.
    + apply jsstring_eqb_eq in Ec.
      destruct (truthy (or_empty (parsed_answer resp))) eqn:Ta.
      * inversion H; subst. cbn [audit_ok audit_answer audit_sources].
        split; [reflexivity|]. right. split; [exact Ta|].
        exists i, resp. split; [lia|]. split; [exact F|].
        split; [exact Sok|]. split; [exact Ec|]. split; [|reflexivity].
        destruct (parsed_answer resp); [reflexivity | discriminate Ta].
      * inversion H; subst. split; [reflexivity | left; reflexivity].
    + destruct (jsstring_eqb (status resp) (lit "failed")).
      * inversion H; subst. split; [reflexivity | left; reflexivity].
      * exact (Hnext H).
Qed.

End Polling.

(** X9.  For a quantifiable question, whatever the audit service
    answers, a result of [auditAndPolish] has [ok: true] and is either
    the draft, answer and sources unchanged, or a polished answer that
    is not empty, read from a status response with a 2xx status and the
    task status "completed" among the first twenty, with the sources of
    that response when it carries an array and the draft's otherwise. *)
Theorem audit_result_is_draft_or_polished (C : crew)
  (question draftAnswer : jsstring) (srcs : list jsstring)
  (r : audit_result) :
  auditAndPolish C question true draftAnswer srcs = Ok r ->
  audit_ok r = true /\
  (r = draft_result draftAnswer srcs \/
   (truthy (audit_answer r) = true /\
    exists taskId j resp,
      j < 20 /\ fetch_status C j taskId = Ok resp /\
      status_ok resp = true /\ status resp = lit "completed" /\
      parsed_answer resp = Some (audit_answer r) /\
      audit_sources r = match parsed_sources resp with
                        | Some l => l
                        | None => srcs
                        end)).
Proof.
  unfold auditAndPolish. cbn [negb]. intros H.
  destruct (negb (truthy (or_empty (CREWAI_BASE_URL C)))
            || negb (truthy (or_empty (CREWAI_TOKEN C)))).
  { inversion H; subst. split; [reflexivity | left; reflexivity]. }
  destruct (fetch_kickoff C question draftAnswer srcs) as [k|e];
    [|discriminate H].
  destruct (negb (kickoff_ok k)).
  { inversion H; subst. split; [reflexivity | left; reflexivity]. }
  destruct (negb (truthy (or_empty (task_id k)))).
  { inversion H; subst. split; [reflexivity | left; reflexivity]. }
  apply poll_status_result in H.
  destruct H as (Hok & [Hd | (Ht & j & resp & Hj & Hr)]).
  - split; [exact Hok | left; exact Hd].
  - split; [exact Hok|]. right. split; [exact Ht|].
    exists (or_empty (task_id k)), j, resp. split; [lia | exact Hr].
Qed.

Lemma audit_result_is_draft_or_polished_witness :
  exists r,
    auditAndPolish crew_polishing (lit "What was the 2023 revenue?") true
      (lit "40M in 2023.") [lit "https://a.example"] = Ok r /\
    audit_ok r = true /\ truthy (audit_answer r) = true.
Proof.
  eexists. split; [vm_compute; reflexivity|].
  destruct (@audit_result_is_draft_or_polished crew_polishing
    (lit "What was the 2023 revenue?") (lit "40M in 2023.")
    [lit "https://a.example"] _ eq_refl) as (Hok & _).
  split; [exact Hok | reflexivity].
Defined.

(** X10.  Once the kickoff request returned a task id, [auditAndPolish]
    follows the first status response that decides: while the responses
    carry a status that is not 2xx, or a task status other than
    "completed" and "failed", it polls again, at most twenty times, and
    then returns the draft; a status request that throws makes it throw;
    "failed" gives the draft; "completed" gives the polished answer when
    the response carries one that is not empty, and the draft otherwise.
    A kickoff request that throws makes it throw as well. *)
Theorem audit_follows_first_decisive_response (C : crew)
  (question draftAnswer : jsstring) (srcs : list jsstring) :
  crew_configured C = true ->
  (forall e, fetch_kickoff C question draftAnswer srcs = Throw e ->
     auditAndPolish C question true draftAnswer srcs = Throw e) /\
  (forall kick taskId k,
     fetch_kickoff C question draftAnswer srcs = Ok kick ->
     kickoff_ok kick = true -> task_id kick = Some taskId ->
     truthy taskId = true ->
     (forall j, j < k -> exists resp,
        fetch_status C j taskId = Ok resp /\ status_pending resp = true) ->
     (20 <= k ->
      auditAndPolish C question true draftAnswer srcs
      = Ok (draft_result draftAnswer srcs)) /\
     (k < 20 ->
      (forall e, fetch_status C k taskId = Throw e ->
         auditAndPolish C question true draftAnswer srcs = Throw e) /\
      (forall resp, fetch_status C k taskId = Ok resp ->
         status_ok resp = true -> status resp = lit "failed" ->
         auditAndPolish C question true draftAnswer srcs
         = Ok (draft_result draftAnswer srcs)) /\
      (forall resp, fetch_status C k taskId = Ok resp ->
         status_ok resp = true -> status resp = lit "completed" ->
         auditAndPolish C question true draftAnswer srcs
         = Ok (if truthy (or_empty (parsed_answer resp))
               then {| audit_ok := true;
                       audit_answer := or_empty (parsed_answer resp);
                       audit_sources := match parsed_sources resp with
                                        | Some l => l
                                        | None => srcs
                                        end |}
               else draft_result draftAnswer srcs)))).
Proof.
  intros Hc. unfold crew_configured in Hc. apply andb_prop in Hc.
  destruct Hc as [Hu Ht].
  split.
  - intros e Hk. unfold auditAndPolish. rewrite Hu, Ht, Hk. reflexivity.
  - intros kick taskId k Hk Hok Hid Htid Hpend.
    assert (Hpoll : auditAndPolish C question true draftAnswer srcs
                    = poll_status C taskId draftAnswer srcs 20 0).
    { unfold auditAndPolish. rewrite Hu, Ht, Hk, Hok, Hid. cbn [or_empty].
      rewrite Htid. reflexivity. }
    rewrite Hpoll. split.
    + intros Hle.
      pose proof (@poll_status_skip C taskId draftAnswer srcs 20 0 0) as E.
      cbn [Nat.add] in E. rewrite E; [reflexivity|].
      intros j Hj. apply Hpend. lia.
    + intros Hlt.
      assert (E : poll_status C taskId draftAnswer srcs 20 0
                  = poll_status C taskId draftAnswer srcs (S (19 - k)) k).
      { pose proof (@poll_status_skip C taskId draftAnswer srcs k
                      (S (19 - k)) 0 Hpend) as E.
        cbn [Nat.add] in E. rewrite <- E. f_equal. lia. }
      rewrite E. cbn [poll_status]. repeat split.
      * intros e He. rewrite He. reflexivity.
      * intros resp Hr Hs Hf. rewrite Hr, Hs, Hf. reflexivity.
      * intros resp Hr Hs Hcm. rewrite Hr, Hs, Hcm. cbn [negb].
        rewrite jsstring_eqb_refl.
        destruct (truthy (or_empty (parsed_answer resp))); reflexivity.
Qed.

Lemma audit_follows_first_decisive_response_witness :
  auditAndPolish crew_polishing (lit "What was the 2023 revenue?") true
    (lit "40M in 2023.") [lit "https://a.example"]
  = Ok {| audit_ok := true; audit_answer := lit "Revenue: 40M (2023).";
          audit_sources := [lit "https://a.example"] |}.
Proof.
  assert (Hpend : forall j, j < 2 -> exists resp,
    fetch_status crew_polishing j (lit "t1") = Ok resp /\
    status_pending resp = true).
  { intros j Hj. destruct j as [|[|j]]; [| |lia];
      eexists; split; reflexivity. }
  destruct (proj2 (audit_follows_first_decisive_response crew_polishing
    (lit "What was the 2023 revenue?") (lit "40M in 2023.")
    [lit "https://a.example"] eq_refl)
    {| kickoff_ok := true; task_id := Some (lit "t1") |} (lit "t1") 2
    eq_refl eq_refl eq_refl eq_refl Hpend) as (_ & H).
  destruct (H ltac:(lia)) as (_ & _ & H3).
  exact (H3 _ eq_refl eq_refl eq_refl).
Defined.

(** ** The chat endpoint *)

Section Endpoint.

Lemma valid_message_inv (m : raw_message) :
  valid_message m = true ->
  exists r c,
    raw_role m = Some r /\ raw_content m = Some c /\
    (r = lit "user" \/ r = lit "assistant" \/ r = lit "system") /\
    truthy (trim c) = true.
Proof.
  unfold valid_message.
  destruct (raw_role m) as [r|]; [|discriminate].
  destruct (raw_content m) as [c|]; [|discriminate].
  intros H. apply andb_prop in H. destruct H as [Hr Hc].
  exists r, c. split; [reflexivity|]. split; [reflexivity|]. split.
  - apply orb_prop in Hr. destruct Hr as [Hr|Hr].
    + apply orb_prop in Hr. destruct Hr as [Hr|Hr];
        apply jsstring_eqb_eq in Hr; auto.
    + apply jsstring_eqb_eq in Hr. auto.
  - destruct (trim c); [discriminate Hc | reflexivity].
Qed.

Lemma parseChat_inv (b : request_body) (chat : list message) :
  parseChat b = Some chat ->
  chat <> [] /\
  forall m, In m chat ->
    (role m = lit "user" \/ role m = lit "assistant" \/
     role m = lit "system") /\
    truthy (content m) = true /\ trim (content m) = content m.
Proof.
  unfold parseChat.
  destruct (body_messages b) as [[|m0 ms]|].
  - destruct (body_message b) as [s|]; [|discriminate].
    destruct (0 <? List.length (trim s)) eqn:E; [|discriminate].
    intros [= <-]. split; [discriminate|].
    intros m [<- | []]. cbn [role content].
    split; [auto|]. split; [|apply trim_idem].
    destruct (trim s); [discriminate E | reflexivity].
  - destruct (map _ (filter valid_message (m0 :: ms))) as [|c cs] eqn:E;
      [discriminate|].
    intros [= <-]. split; [discriminate|].
    intros m Hm. rewrite <- E in Hm. apply in_map_iff in Hm.
    destruct Hm as (rm & <- & Hrm). apply filter_In in Hrm.
    destruct Hrm as [_ Hv]. apply valid_message_inv in Hv.
    destruct Hv as (r & c0 & Hr & Hc0 & Hrole & Ht).
    rewrite Hr, Hc0. cbn [role content or_empty].
    split; [exact Hrole|]. split; [exact Ht | apply trim_idem].
  - destruct (body_message b) as [s|]; [|discriminate].
    destruct (0 <? List.length (trim s)) eqn:E; [|discriminate].
    intros [= <-]. split; [discriminate|].
    intros m [<- | []]. cbn [role content].
    split; [auto|]. split; [|apply trim_idem].
    destruct (trim s); [discriminate E | reflexivity].
Qed.

Lemma answerWithAgent_returns (P : providers) (fuel : nat)
  (chat : list message) :
  2 <= fuel -> exists r, answerWithAgent P fuel chat = Some r.
Proof.
  intros Hf. unfold answerWithAgent.
  destruct (negb (truthy (extractLatestUserQuestion chat))); [eauto|].
  destruct (@frontier_loop_terminates P MAX_DEPTH 2 0
              (root_pocket (extractLatestUserQuestion chat)) initial_state)
    as (x & H).
  { unfold root_pocket. repeat constructor. }
  { intros Hlt. inversion Hlt. }
  { unfold MAX_DEPTH. lia. }
  unfold run_frontier.
  eapply frontier_loop_more_fuel in H; [|exact Hf]. rewrite H.
  destruct x as [[u|e] st]; [|eauto].
  destruct (render _ _ _ _ _); eauto.
Qed.

End Endpoint.

(** X11.  A chat [parseChat] returns is never empty, and each of its
    messages has role "user", "assistant" or "system" and a content
    that is trimmed and not empty.  When [messages] is an array that is
    not empty, [message] is not read: if none of the elements is valid
    the result is null, even for a valid [message]. *)
Theorem parseChat_returns_clean_chats (b : request_body) :
  (forall chat, parseChat b = Some chat ->
     chat <> [] /\
     forall m, In m chat ->
       (role m = lit "user" \/ role m = lit "assistant" \/
        role m = lit "system") /\
       truthy (content m) = true /\ trim (content m) = content m) /\
  (forall m ms, body_messages b = Some (m :: ms) ->
     (forall x, In x (m :: ms) -> valid_message x = false) ->
     parseChat b = None).
Proof.
  split; [intros chat H; exact (parseChat_inv b H)|].
  intros m ms Hb Hnone. unfold parseChat. rewrite Hb.
  assert (E : filter valid_message (m :: ms) = []).
  { generalize dependent (m :: ms). intros l _ Hl.
    induction l as [|x l IH]; [reflexivity|]. cbn [filter].
    rewrite (Hl x (or_introl eq_refl)). apply IH.
    intros y Hy. apply Hl. right. exact Hy. }
  rewrite E. reflexivity.
Qed.

Lemma parseChat_returns_clean_chats_witness :
  parseChat
    {| body_message := Some (lit "What was the 2023 revenue?");
       body_messages :=
         Some [{| raw_role := Some (lit "tool");
                  raw_content := Some (lit "x") |};
               {| raw_role := Some (lit "user");
                  raw_content := Some (lit "   ") |}] |}
  = None /\
  [{| role := lit "user"; content := lit "What is X?" |}] <> [].
Proof.
  split.
  - apply (proj2 (parseChat_returns_clean_chats
      {| body_message := Some (lit "What was the 2023 revenue?");
         body_messages :=
           Some [{| raw_role := Some (lit "tool");
                    raw_content := Some (lit "x") |};
                 {| raw_role := Some (lit "user");
                    raw_content := Some (lit "   ") |}] |})
      {| raw_role := Some (lit "tool"); raw_content := Some (lit "x") |}
      [{| raw_role := Some (lit "user"); raw_content := Some (lit "   ") |}]
      eq_refl).
    intros x [<- | [<- | []]]; reflexivity.
  - apply (proj1 (parseChat_returns_clean_chats
      {| body_message := Some (lit " What is X? ");
         body_messages := None |})).
    vm_compute. reflexivity.
Defined.

(** X12.  With fuel for two turns the handler of POST /api/chat always
    replies, and its reply is one of four: 400 "Message(s) are
    required." when [parseChat] returns null; 400 "No user question
    found." when the chat has no message of role "user"; 502 with the
    message of the error (or "Agent/MCP request failed." when it is
    empty) when the chat has a user message and the run throws; 200 with
    the blocks and the statistics of the run otherwise. *)
Theorem api_chat_replies (P : providers) (fuel : nat) (b : request_body) :
  2 <= fuel ->
  (parseChat b = None /\
   api_chat P fuel b
   = Some (400, ApiError (lit "Message(s) are required."))) \/
  (exists chat,
     parseChat b = Some chat /\
     (forall m, In m chat -> role m <> lit "user") /\
     api_chat P fuel b = Some (400, ApiError (lit "No user question found.")))
  \/
  (exists chat m e,
     parseChat b = Some chat /\ In m chat /\ role m = lit "user" /\
     answerWithAgent P fuel chat = Some (Throw e) /\
     api_chat P fuel b
     = Some (502, ApiError (if truthy e then e
                            else lit "Agent/MCP request failed."))) \/
  (exists chat m blocks rendered stats,
     parseChat b = Some chat /\ In m chat /\ role m = lit "user" /\
     answerWithAgent P fuel chat = Some (Ok (Success blocks rendered stats)) /\
     api_chat P fuel b = Some (200, ApiOk blocks stats)).
Proof.
  intros Hf. unfold api_chat.
  destruct (parseChat b) as [chat|] eqn:Hp; [|left; split; reflexivity].
  right. destruct (parseChat_inv b Hp) as (_ & Hwf).
  destruct (existsb (fun m => jsstring_eqb (role m) (lit "user")) chat)
    eqn:Hu.
  - (* a user message *)
    apply existsb_exists in Hu. destruct Hu as (m & Hin & Hr).
    apply jsstring_eqb_eq in Hr.
    assert (Tq : truthy (extractLatestUserQuestion chat) = true).
    { unfold extractLatestUserQuestion. apply latest_user_question_truthy.
      exists m. split; [apply in_rev in Hin; exact Hin|].
      split; [exact Hr|]. destruct (Hwf m Hin) as (_ & Ht & Hi).
      rewrite Hi. exact Ht. }
    right. destruct (answerWithAgent_returns P chat Hf) as (r & Hrun).
    rewrite Hrun. destruct r as [[err|blocks rendered stats]|e].
    + exfalso. unfold answerWithAgent in Hrun. rewrite Tq in Hrun.
      cbn [negb] in Hrun.
      destruct (run_frontier _ _ _ _) as [[[u|e0] st]|];
        try discriminate Hrun.
      destruct (render _ _ _ _ _); discriminate Hrun.
    + right. exists chat, m, blocks, rendered, stats. repeat split; auto.
    + left. exists chat, m, e. repeat split; auto.
  - (* no user message *)
    left. exists chat.
    assert (Hno : forall m, In m chat -> role m <> lit "user").
    { intros m Hin Hr.
      assert (existsb (fun m => jsstring_eqb (role m) (lit "user")) chat
              = true).
      { apply existsb_exists. exists m. split; [exact Hin|].
        apply jsstring_eqb_eq. exact Hr. }
      congruence. }
    split; [reflexivity|]. split; [exact Hno|].
    unfold answerWithAgent.
    rewrite (extractLatestUserQuestion_none chat).
    + reflexivity.
    + intros m Hin Hr. destruct (Hno m Hin Hr).
Qed.

Lemma api_chat_replies_witness :
  api_chat (sample_services None true (Ok (lit "40M in 2023.")) [] [] [])
    2 {| body_message := None;
         body_messages :=
           Some [{| raw_role := Some (lit "system");
                    raw_content := Some (lit "Be brief.") |}] |}
  = Some (400, ApiError (lit "No user question found.")).
Proof.
  destruct (@api_chat_replies
    (sample_services None true (Ok (lit "40M in 2023.")) [] [] [])
    2 {| body_message := None;
         body_messages :=
           Some [{| raw_role := Some (lit "system");
                    raw_content := Some (lit "Be brief.") |}] |}
    (le_n 2))
    as [[H _] | [(chat & _ & _ & H) | [(chat & m & e & H & Hin & Hr & _)
       | (chat & m & bl & rd & stt & H & Hin & Hr & _)]]].
  - discriminate H.
  - exact H.
  - exfalso. vm_compute in H. inversion H; subst.
    destruct Hin as [<- | []]. discriminate Hr.
  - exfalso. vm_compute in H. inversion H; subst.
    destruct Hin as [<- | []]. discriminate Hr.
Defined.

(** ** The client of the knowledge base *)

(** X13.  [callAskChatGPT] of mcpClient.js never returns an empty text:
    a text it returns is not empty, was read from the content returned
    by the tool for a chat that is not empty, over a connection that
    succeeded and after [listTools] listed "ask_chatgpt".  For an empty
    chat it throws before it connects. *)
Theorem mcp_client_returns_text_or_throws (S : McpClient.server)
  (chat : list message) :
  (forall t, McpClient.callAskChatGPT S chat = Ok t ->
     truthy t = true /\ chat <> [] /\
     McpClient.connect S = Ok tt /\
     (exists names,
        McpClient.listTools S = Ok (Some names) /\
        In (Some (lit "ask_chatgpt")) names) /\
     exists content,
       McpClient.callTool S chat = Ok content /\
       t = McpClient.result_text content) /\
  (chat = [] ->
   McpClient.callAskChatGPT S chat
   = Throw (lit "chat must be a non-empty array")).
Proof.
  split; [|intros ->; reflexivity].
  intros t H. unfold McpClient.callAskChatGPT in H.
  destruct chat as [|m ms]; [discriminate H|].
  destruct (McpClient.connect S) as [[]|e]; [|discriminate H].
  destruct (McpClient.listTools S) as [tools|e]; [|discriminate H].
  destruct (existsb McpClient.is_ask_chatgpt
              match tools with Some l => l | None => [] end) eqn:E;
    cbn [negb] in H; [|discriminate H].
  destruct (McpClient.callTool S (m :: ms)) as [content|e]; [|discriminate H].
  destruct (truthy (McpClient.result_text content)) eqn:T;
    cbn [negb] in H; [|discriminate H].
  inversion H; subst. split; [exact T|]. split; [discriminate|].
  split; [reflexivity|]. split; [|eauto].
  destruct tools as [names|]; [|discriminate E].
  exists names. split; [reflexivity|].
  apply existsb_exists in E. destruct E as (n & Hin & Hn).
  destruct n as [n|]; [|discriminate Hn].
  apply jsstring_eqb_eq in Hn. subst n. exact Hin.
Qed.

Lemma mcp_client_returns_text_or_throws_witness :
  truthy (lit "40M in 2023.") = true /\
  McpClient.callAskChatGPT
    {| McpClient.connect := Throw (lit "ECONNREFUSED");
       McpClient.listTools := Throw (lit "ECONNREFUSED");
       McpClient.callTool := fun _ => Throw (lit "ECONNREFUSED") |} []
  = Throw (lit "chat must be a non-empty array").
Proof.
  split.
  - apply (proj1 (mcp_client_returns_text_or_throws
      {| McpClient.connect := Ok tt;
         McpClient.listTools := Ok (Some [None; Some (lit "ask_chatgpt")]);
         McpClient.callTool := fun _ =>
           Ok (Some [{| McpClient.item_type := Some (lit "image");
                        McpClient.item_text := None |};
                     {| McpClient.item_type := Some (lit "text");
                        McpClient.item_text := Some (lit "40M in 2023.") |}])
      |}
      (kb_chat (lit "What was the 2023 revenue?")))).
    reflexivity.
  - apply (proj2 (mcp_client_returns_text_or_throws _ [])). reflexivity.
Defined.

(** ** A blank answer of the knowledge base *)

Section BlankAnswer.

Lemma trim_nil_all_space (t : jsstring) :
  trim t = [] -> Forall (fun c => is_space c = true) t.
Proof.
  unfold trim. induction t as [|c r IH]; intros H; [constructor|].
  cbn [trimStart] in H. destruct (is_space c) eqn:E.
  - constructor; [exact E | exact (IH H)].
  - exfalso. cbn [trimEnd] in H.
    destruct (trimEnd r); [rewrite E in H|]; discriminate H.
Qed.

Lemma all_space_lower (t : jsstring) :
  Forall (fun c => is_space c = true) t ->
  Forall (fun c => is_space c = true) (toLowerCase t).
Proof.
  induction 1 as [|c r Hc _ IH]; [constructor|].
  cbn [toLowerCase map]. constructor; [|exact IH].
  rewrite is_space_lower. exact Hc.
Qed.

Lemma all_space_startsWith (a : ascii) (p s : jsstring) :
  is_space a = false -> Forall (fun c => is_space c = true) s ->
  startsWith (a :: p) s = false.
Proof.
  intros Ha Hs. destruct s as [|b s]; [reflexivity|].
  cbn [startsWith]. destruct (ascii_dec a b) as [->|]; [|reflexivity].
  inversion Hs; subst. congruence.
Qed.

Lemma all_space_includes (a : ascii) (p s : jsstring) :
  is_space a = false -> Forall (fun c => is_space c = true) s ->
  includes (a :: p) s = false.
Proof.
  intros Ha Hs. induction s as [|b s IH].
  - reflexivity.
  - cbn [includes]. rewrite (@all_space_startsWith a p _ Ha Hs).
    inversion Hs; subst. exact (IH H2).
Qed.

Lemma blank_is_not_not_found (t : jsstring) :
  truthy t = true -> trim t = [] -> isMcpNotFound t = false.
Proof.
  intros T H. apply trim_nil_all_space, all_space_lower in H.
  unfold isMcpNotFound. rewrite T. cbn [negb].
  unfold lit. cbn [list_ascii_of_string].
  rewrite !all_space_includes by (reflexivity || exact H).
  rewrite all_space_startsWith by (reflexivity || exact H).
  reflexivity.
Qed.

Lemma answer_quantifiable_mcp_eq (P : providers) (q t : jsstring)
  (st : state) :
  callAskChatGPT P (kb_chat q) = Ok t -> isMcpNotFound t = false ->
  answer_quantifiable P q st =
  (Ok (trim t, lit "mcp", []),
   snd (request (CallKnowledgeBase (kb_chat q))
                (callAskChatGPT P (kb_chat q)) st)).
Proof.
  intros Hkb Hnf. unfold answer_quantifiable, try_catch, bind, request.
  fold (kb_chat q). rewrite Hkb, Hnf. reflexivity.
Qed.

End BlankAnswer.

(** X14.  A text of the knowledge base made of white space only is not a
    not-found signal: for a quantifiable question the task stores the
    empty string as the answer, with source "mcp" and no source link,
    and does not ask the web. *)
Theorem blank_knowledge_base_answer_is_stored_empty (P : providers)
  (d : nat) (nd : node) (st : state) (t : jsstring) :
  isQuantifiable P (node_questionOriginal nd) = Ok true ->
  callAskChatGPT P (kb_chat (node_questionOriginal nd)) = Ok t ->
  truthy t = true -> trim t = [] ->
  exists r st' e,
    resolve_node P d nd st = (r, st') /\
    Map_get (node_key nd) (answered st') = Some e /\
    answer e = [] /\ source e = Some (lit "mcp") /\ sources e = [] /\
    calls st' =
      calls st ++
      [CallClassifier (node_questionOriginal nd);
       CallKnowledgeBase (kb_chat (node_questionOriginal nd))] ++
      (if depth nd <? d
       then [CallFollowups (node_questionOriginal nd) []] else []).
Proof.
  intros Hq Hkb T Hb.
  unfold resolve_node, bind at 1, request at 1. rewrite Hq. cbn [negb].
  unfold bind at 1.
  rewrite (@answer_quantifiable_mcp_eq P _ t _ Hkb
             (@blank_is_not_not_found t T Hb)).
  rewrite Hb.
  unfold bind at 1, answered_set at 1, request.
  cbn [snd answered children seen totalGenerated calls writes].
  destruct (depth nd <? d).
  - unfold bind.
    destruct (detectFollowupsFromAnswer P (node_questionOriginal nd) [])
      as [l|err].
    + unfold expand, bind, add_generated, ret.
      do 3 eexists. split; [reflexivity|]. cbn [answered calls].
      split; [apply Map_get_set_same|].
      cbn [answer source sources]. repeat split.
      rewrite <- !app_assoc. reflexivity.
    + do 3 eexists. split; [reflexivity|]. cbn [answered calls].
      split; [apply Map_get_set_same|].
      cbn [answer source sources]. repeat split.
      rewrite <- !app_assoc. reflexivity.
  - unfold ret. do 3 eexists. split; [reflexivity|]. cbn [answered calls].
    split; [apply Map_get_set_same|].
    cbn [answer source sources]. repeat split.
    rewrite <- !app_assoc. reflexivity.
Qed.

Lemma blank_knowledge_base_answer_is_stored_empty_witness :
  exists r st' e,
    resolve_node
      (sample_services None true (Ok (lit "   ")) [] [] [])
      MAX_DEPTH (root_node "What was the 2023 revenue?") initial_state
    = (r, st') /\
    Map_get (node_key (root_node "What was the 2023 revenue?"))
            (answered st') = Some e /\
    answer e = [] /\ source e = Some (lit "mcp").
Proof.
  destruct (@blank_knowledge_base_answer_is_stored_empty
    (sample_services None true (Ok (lit "   ")) [] [] [])
    MAX_DEPTH (root_node "What was the 2023 revenue?") initial_state
    (lit "   ") eq_refl eq_refl eq_refl eq_refl)
    as (r & st' & e & H1 & H2 & H3 & H4 & _).
  exists r, st', e. repeat split; assumption.
Defined.

(** ** The history sent by the page *)

Section History.

Lemma drop_line_feeds_suffix (s : jsstring) :
  exists pre, s = pre ++ drop_line_feeds s.
Proof.
  induction s as [|c r [pre IH]]; [exists []; reflexivity|].
  cbn [drop_line_feeds]. destruct (ascii_dec c "010"%char).
  - exists (c :: pre). cbn [app]. rewrite <- IH. reflexivity.
  - exists []. reflexivity.
Qed.

Lemma drop_line_feeds_trimmed (s : jsstring) :
  no_lead s = true -> drop_line_feeds s = s.
Proof.
  destruct s as [|c r]; [reflexivity|]. cbn [no_lead drop_line_feeds].
  destruct (ascii_dec c "010"%char) as [->|]; [discriminate | reflexivity].
Qed.

Lemma answerWithAgent_same_question (P : providers) (fuel : nat)
  (c1 c2 : list message) :
  extractLatestUserQuestion c1 = extractLatestUserQuestion c2 ->
  answerWithAgent P fuel c1 = answerWithAgent P fuel c2.
Proof. intros H. unfold answerWithAgent. rewrite H. reflexivity. Qed.

Lemma extractLatestUserQuestion_last (l : list message) (text : jsstring) :
  truthy (trim text) = true ->
  extractLatestUserQuestion (l ++ [{| role := lit "user"; content := text |}])
  = trim text.
Proof.
  intros T. unfold extractLatestUserQuestion. rewrite rev_app_distr.
  cbn [rev app latest_user_question role content].
  rewrite jsstring_eqb_refl, T. reflexivity.
Qed.

Lemma parseChat_messages (bm : option jsstring) (l : list raw_message) :
  l <> [] ->
  parseChat {| body_message := bm; body_messages := Some l |} =
  match map (fun m => {| role := or_empty (raw_role m);
                         content := trim (or_empty (raw_content m)) |})
            (filter valid_message l) with
  | [] => None
  | c :: cs => Some (c :: cs)
  end.
Proof.
  intros Hl. unfold parseChat. cbn [body_messages body_message].
  destruct l as [|m ms]; [congruence|]. reflexivity.
Qed.

(** What [parseChat] keeps of the messages the page posts. *)
Lemma parseChat_posted (pre : list message) (text : jsstring) :
  truthy (trim text) = true ->
  exists kept,
    parseChat (posted_body
                 (pre ++ [{| role := lit "user"; content := text |}]))
    = Some (kept ++ [{| role := lit "user"; content := trim text |}]).
Proof.
  intros T. unfold posted_body. rewrite parseChat_messages.
  - rewrite map_app, filter_app, map_app.
    cbn [map filter]. unfold valid_message at 2.
    cbn [raw_role raw_content role content].
    rewrite jsstring_eqb_refl. cbn [orb andb].
    destruct (trim text) as [|c r] eqn:Et; [discriminate T|].
    cbn [List.length Nat.ltb Nat.leb map or_empty raw_role raw_content].
    rewrite Et.
    match goal with
    | |- exists kept, match ?k ++ _ with _ => _ end = _ =>
        exists k; destruct k; reflexivity
    end.
  - rewrite map_app. cbn [map]. intros E.
    apply app_eq_nil in E. destruct E as [_ E]. discriminate E.
Qed.

End History.

(** X15.  The history never changes the reply.  For a text that is not
    blank, the messages the page builds from any earlier turns end with
    that text as a user message; the question the run answers is the
    trimmed text; and the handler replies to the posted messages as it
    would without any earlier turn. *)
Theorem history_does_not_change_the_reply (P : providers) (fuel : nat)
  (turns : list turn) (text : jsstring) :
  truthy (trim text) = true ->
  extractLatestUserQuestion (buildPayloadMessagesFromTurns turns text)
  = trim text /\
  api_chat P fuel (posted_body (buildPayloadMessagesFromTurns turns text))
  = api_chat P fuel (posted_body (buildPayloadMessagesFromTurns [] text)).
Proof.
  intros T. unfold buildPayloadMessagesFromTurns.
  split; [apply extractLatestUserQuestion_last, T|].
  unfold api_chat.
  destruct (@parseChat_posted (flat_map turn_messages turns) text T)
    as (k1 & ->).
  destruct (@parseChat_posted (flat_map turn_messages []) text T)
    as (k2 & ->).
  assert (Tt : truthy (trim (trim text)) = true)
    by (rewrite trim_idem; exact T).
  rewrite (@answerWithAgent_same_question P fuel
             (k1 ++ [{| role := lit "user"; content := trim text |}])
             (k2 ++ [{| role := lit "user"; content := trim text |}])).
  - reflexivity.
  - rewrite !extractLatestUserQuestion_last by exact Tt. reflexivity.
Qed.

Lemma history_does_not_change_the_reply_witness :
  extractLatestUserQuestion
    (buildPayloadMessagesFromTurns
       [{| userText := lit "What was the 2022 revenue?";
           turn_blocks :=
             [{| id := lit "0"; question := lit "What was the 2022 revenue?";
                 block_answer := lit "### SANITIZED ANSWER: 35M in 2022.";
                 block_sources := [] |};
              {| id := lit "1"; question := lit "Why?";
                 block_answer := lit "[Not answered — non-quantifiable]";
                 block_sources := [] |}] |}]
       (lit "And in 2023?"))
  = trim (lit "And in 2023?").
Proof.
  apply (proj1 (@history_does_not_change_the_reply
    (sample_services None true (Ok (lit "40M in 2023.")) [] [] []) 2
    [{| userText := lit "What was the 2022 revenue?";
        turn_blocks :=
          [{| id := lit "0"; question := lit "What was the 2022 revenue?";
              block_answer := lit "### SANITIZED ANSWER: 35M in 2022.";
              block_sources := [] |};
           {| id := lit "1"; question := lit "Why?";
              block_answer := lit "[Not answered — non-quantifiable]";
              block_sources := [] |}] |}]
    (lit "And in 2023?") eq_refl)).
Defined.

(** X16.  [stripSanitizedPrefix] returns a suffix of its argument: the
    text itself when, leading white space apart, it does not start with
    "### SANITIZED ANSWER:", and otherwise what follows that marker
    without its leading white space (the two further replacements of
    the function then remove nothing). *)
Theorem stripSanitizedPrefix_spec (text : jsstring) :
  (exists pre, text = pre ++ stripSanitizedPrefix text) /\
  (startsWith SANITIZED_PREFIX (trimStart text) = false ->
   stripSanitizedPrefix text = text) /\
  (startsWith SANITIZED_PREFIX (trimStart text) = true ->
   stripSanitizedPrefix text
   = trimStart (skipn (List.length SANITIZED_PREFIX) (trimStart text)) /\
   no_lead (stripSanitizedPrefix text) = true).
Proof.
  unfold stripSanitizedPrefix.
  destruct (startsWith SANITIZED_PREFIX (trimStart text)) eqn:E;
    cbn [negb].
  - set (rest := skipn (List.length SANITIZED_PREFIX) (trimStart text)).
    assert (Hd : trimStart (drop_line_feeds (trimStart rest))
                 = trimStart rest).
    { rewrite drop_line_feeds_trimmed by apply no_lead_trimStart.
      apply trimStart_id, no_lead_trimStart. }
    rewrite Hd. split; [|split; [discriminate|]].
    + destruct (trimStart_suffix text) as [p1 H1].
      destruct (trimStart_suffix rest) as [p2 H2].
      exists (p1 ++ firstn (List.length SANITIZED_PREFIX) (trimStart text)
                 ++ p2).
      rewrite H1 at 1.
      rewrite <- (firstn_skipn (List.length SANITIZED_PREFIX)
                    (trimStart text)) at 1.
      fold rest. rewrite H2 at 1. rewrite <- !app_assoc. reflexivity.
    + intros _. split; [reflexivity | apply no_lead_trimStart].
  - split; [exists []; reflexivity|].
    split; [reflexivity | discriminate].
Qed.

Lemma stripSanitizedPrefix_spec_witness :
  stripSanitizedPrefix (lit "  ### SANITIZED ANSWER:  40M in 2023.")
  = lit "40M in 2023." /\
  stripSanitizedPrefix (lit "40M ### SANITIZED ANSWER: x")
  = lit "40M ### SANITIZED ANSWER: x".
Proof.
  split.
  - rewrite (proj1 (proj2 (proj2 (stripSanitizedPrefix_spec
               (lit "  ### SANITIZED ANSWER:  40M in 2023."))) eq_refl)).
    vm_compute. reflexivity.
  - apply (proj1 (proj2 (stripSanitizedPrefix_spec
             (lit "40M ### SANITIZED ANSWER: x")))).
    reflexivity.
Defined.

(** ** The blocks of a successful run *)

Section Blocks.

Variable P : providers.

Lemma nat_to_jsstring_inj (n m : nat) :
  nat_to_jsstring n = nat_to_jsstring m -> n = m.
Proof.
  unfold nat_to_jsstring, lit. intros H.
  apply (f_equal string_of_list_ascii) in H.
  rewrite !string_of_list_ascii_of_string in H.
  apply (f_equal NilEmpty.uint_of_string) in H.
  rewrite !NilEmpty.usu in H. inversion H as [H'].
  apply DecimalNat.Unsigned.to_uint_inj. exact H'.
Qed.

Lemma make_blocks_ids (vals : list entry) :
  forall i,
  map id (make_blocks i vals)
  = map nat_to_jsstring (seq i (List.length vals)).
Proof.
  induction vals as [|x r IH]; intros i; [reflexivity|].
  cbn [make_blocks map id List.length seq]. rewrite IH.
  replace (i + 1) with (S i) by lia. reflexivity.
Qed.

Lemma first_round_answered (d : nat) (q : jsstring) (p1 : list node)
  (st1 : state) :
  truthy q = true -> trim q = q ->
  round P d (root_pocket q) initial_state = (Ok p1, st1) ->
  exists e,
    answered st1 = [(normalize q, e)] /\ questionOriginal e = q /\
    children st1 = [] /\ engine_inv P st1 /\
    Forall (child_of {| node_questionOriginal := q;
                        node_parentOriginal := None; depth := 0 |}) p1.
Proof.
  intros T I H. pose proof H as Hinv.
  apply round_inv in Hinv; [|apply engine_inv_initial].
  destruct Hinv as (Inv & _).
  unfold round in H. rewrite (dedup_pass_root T I) in H.
  cbn [resolve_all] in H. apply bind_inv in H.
  destruct H as [(nx1 & sta & H1 & H2) | (e & _ & E)]; [|discriminate E].
  unfold bind, ret in H2. inversion H2; subst.
  apply resolve_node_inv in H1.
  destruct H1 as (Hch & _ & _ & Hw & Hnx).
  destruct Hw as [(_ & _ & e & E) | (e & Ha & _ & Hfrom & _)];
    [discriminate E|].
  exists e. cbn [answered Map_set children] in Ha, Hch.
  unfold node_key in Ha. cbn [node_questionOriginal] in Ha, Hfrom.
  split; [exact Ha|]. split; [exact Hfrom|]. split; [exact Hch|].
  split; [exact Inv|]. rewrite app_nil_r.
  destruct (Hnx nx1 eq_refl) as (_ & Hc). exact Hc.
Qed.

(** The state a completed loop ends in, from the state after its first
    round. *)
Lemma run_frontier_first_round (fuel : nat) (q : jsstring) (st : state) :
  truthy q = true -> trim q = q ->
  run_frontier P MAX_DEPTH fuel q = Some (Ok tt, st) ->
  exists p1 st1 e n,
    round P MAX_DEPTH (root_pocket q) initial_state = (Ok p1, st1) /\
    answered st1 = [(normalize q, e)] /\ questionOriginal e = q /\
    children st1 = [] /\
    Forall (child_of {| node_questionOriginal := q;
                        node_parentOriginal := None; depth := 0 |}) p1 /\
    rounds P MAX_DEPTH n p1 st1 = (Ok [], st) /\
    exists new, answered st = answered st1 ++ new.
Proof.
  intros T I H. unfold run_frontier in H.
  destruct fuel as [|fuel]; [discriminate H|].
  unfold root_pocket at 1 in H. cbn [frontier_loop] in H.
  fold (root_pocket q) in H.
  destruct (round P MAX_DEPTH (root_pocket q) initial_state)
    as [[p1|e0] st1] eqn:R; [|discriminate H].
  destruct (first_round_answered _ T I R) as (e & Ha & Hq & Hch & Inv & Hc).
  apply frontier_loop_rounds in H. destruct H as (n & _ & Hn).
  pose proof Hn as Hn'. apply rounds_inv in Hn'; [|exact Inv].
  destruct Hn' as (_ & Hnew & _).
  exists p1, st1, e, n. repeat split; auto.
Qed.

End Blocks.

(** X17.  The first block of a successful run is the block of the
    question the run was asked: its id is "0" and its question is the
    latest user question of the chat. *)
Theorem first_block_is_the_root_question (P : providers) (fuel : nat)
  (chat : list message) (blocks : list block) (rendered : jsstring)
  (stats : run_stats) :
  answerWithAgent P fuel chat = Some (Ok (Success blocks rendered stats)) ->
  exists b rest,
    blocks = b :: rest /\ id b = lit "0" /\
    question b = extractLatestUserQuestion chat.
Proof.
  intros H. apply answerWithAgent_success_inv in H.
  destruct H as (st & n & Tq & Hrun & _ & -> & _).
  apply run_frontier_first_round in Hrun;
    [|exact Tq | apply latest_user_question_trimmed].
  destruct Hrun as (p1 & st1 & e & n1 & _ & Ha & Hq & _ & _ & _ & new & Hnew).
  rewrite Hnew, Ha. cbn [app Map_values map snd make_blocks].
  eexists. eexists. split; [reflexivity|].
  cbn [id question]. split; [reflexivity | exact Hq].
Qed.

Lemma first_block_is_the_root_question_witness :
  exists blocks rendered stats b rest,
    answerWithAgent
      (sample_services None true (Ok (lit "40M in 2023.")) [] []
         [lit "What was the 2022 revenue?"])
      2 (user_says " What was the 2023 revenue? ")
    = Some (Ok (Success blocks rendered stats)) /\
    blocks = b :: rest /\
    question b = lit "What was the 2023 revenue?".
Proof.
  do 3 eexists.
  destruct (@first_block_is_the_root_question
    (sample_services None true (Ok (lit "40M in 2023.")) [] []
       [lit "What was the 2022 revenue?"])
    2 (user_says " What was the 2023 revenue? ") _ _ _
    ltac:(vm_compute; reflexivity)) as (b & rest & H1 & _ & H3).
  exists b, rest. split; [vm_compute; reflexivity|].
  split; [exact H1 | exact H3].
Defined.

(** X18.  The ids of the blocks of a successful run are the decimal
    indices "0", "1", ... of the blocks, in order, and so pairwise
    distinct. *)
Theorem block_ids_are_their_indices (P : providers) (fuel : nat)
  (chat : list message) (blocks : list block) (rendered : jsstring)
  (stats : run_stats) :
  answerWithAgent P fuel chat = Some (Ok (Success blocks rendered stats)) ->
  map id blocks = map nat_to_jsstring (seq 0 (List.length blocks)) /\
  NoDup (map id blocks).
Proof.
  intros H. apply answerWithAgent_success_inv in H.
  destruct H as (st & n & _ & _ & _ & -> & _).
  assert (E : map id (make_blocks 0 (Map_values (answered st)))
              = map nat_to_jsstring
                  (seq 0 (List.length
                            (make_blocks 0 (Map_values (answered st)))))).
  { rewrite make_blocks_ids, make_blocks_length. reflexivity. }
  split; [exact E|]. rewrite E.
  generalize (List.length (make_blocks 0 (Map_values (answered st)))).
  intros len. generalize 0 as i.
  induction len as [|len IH]; intros i; cbn [seq map]; constructor.
  - intros Hin. apply in_map_iff in Hin. destruct Hin as (j & Hj & Hin).
    apply nat_to_jsstring_inj in Hj. apply in_seq in Hin. lia.
  - apply IH.
Qed.

Lemma block_ids_are_their_indices_witness :
  exists blocks rendered stats,
    answerWithAgent
      (sample_services None true (Ok (lit "40M in 2023.")) [] []
         [lit "What was the 2022 revenue?"])
      2 (user_says "What was the 2023 revenue?")
    = Some (Ok (Success blocks rendered stats)) /\
    NoDup (map id blocks).
Proof.
  do 3 eexists. split; [vm_compute; reflexivity|].
  eapply (@block_ids_are_their_indices
    (sample_services None true (Ok (lit "40M in 2023.")) [] []
       [lit "What was the 2022 revenue?"])
    2 (user_says "What was the 2023 revenue?")).
  vm_compute. reflexivity.
Defined.

(** ** The table of edges of a run *)

Section EdgeTable.

Variable R : jsstring -> Prop.
Variable Q : edge -> Prop.

Lemma Map_get_In {V} (k : jsstring) (m : JsMap V) (v : V) :
  Map_get k m = Some v -> In (k, v) m.
Proof.
  induction m as [|[k' v'] r IH]; cbn [Map_get]; [discriminate|].
  destruct (jsstring_eqb k' k) eqn:E.
  - intros [= ->]. apply jsstring_eqb_eq in E. subst. left. reflexivity.
  - intros H. right. apply IH, H.
Qed.

Lemma Map_set_Forall {V} (F : jsstring * V -> Prop) (k : jsstring) (v : V)
  (m : JsMap V) :
  Forall F m -> F (k, v) -> Forall F (Map_set k v m).
Proof.
  intros Hm Hkv. induction m as [|[k' v'] r IH]; cbn [Map_set].
  - constructor; [exact Hkv | constructor].
  - inversion Hm; subst. destruct (jsstring_eqb k' k).
    + constructor; assumption.
    + constructor; [assumption | apply IH; assumption].
Qed.

Lemma edges_ok_get (ch : JsMap (list edge)) (k : jsstring)
  (a : list edge) :
  edges_ok R Q ch -> Map_get k ch = Some a -> R k /\ Forall Q a.
Proof.
  intros H E. apply Map_get_In in E. unfold edges_ok in H.
  rewrite Forall_forall in H. exact (H _ E).
Qed.

Lemma addChild_ok (pk ck co : jsstring) (ch : JsMap (list edge)) :
  edges_ok R Q ch -> R pk ->
  Q {| key := ck; edge_questionOriginal := co |} ->
  edges_ok R Q (addChild pk ck co ch).
Proof.
  intros H Hpk Hq. unfold addChild.
  destruct (truthy pk); cbn [negb]; [|exact H].
  set (ch1 := if Map_has pk ch then ch else Map_set pk [] ch).
  assert (H1 : edges_ok R Q ch1).
  { unfold ch1. destruct (Map_has pk ch); [exact H|].
    apply Map_set_Forall; [exact H|]. cbn. split; [exact Hpk | constructor]. }
  assert (Ha : Forall Q (match Map_get pk ch1 with
                         | Some a => a | None => [] end)).
  { destruct (Map_get pk ch1) as [a|] eqn:E; [|constructor].
    eapply edges_ok_get in E; [|exact H1]. exact (proj2 E). }
  destruct (existsb _ _); [exact H1|].
  apply Map_set_Forall; [exact H1|]. cbn. split; [exact Hpk|].
  apply Forall_app. split; [exact Ha|]. constructor; [exact Hq | constructor].
Qed.

Lemma dedup_node_ok (nd : node) (st : state) :
  edges_ok R Q (children st) ->
  (forall p, node_parentOriginal nd = Some p -> R (normalize p)) ->
  (truthy (trim (node_questionOriginal nd)) = true ->
   Q {| key := normalize (trim (node_questionOriginal nd));
        edge_questionOriginal := trim (node_questionOriginal nd) |}) ->
  edges_ok R Q (children (fst (dedup_node nd st))).
Proof.
  intros H Hp Hq. unfold dedup_node.
  destruct (truthy (trim (node_questionOriginal nd))) eqn:T; cbn [negb];
    [|exact H].
  assert (Hch : edges_ok R Q
    match if_truthy (if_truthy (node_parentOriginal nd) trim) normalize with
    | Some pk => if truthy pk
                 then addChild pk
                        (normalize (trim (node_questionOriginal nd)))
                        (trim (node_questionOriginal nd)) (children st)
                 else children st
    | None => children st
    end).
  { destruct (node_parentOriginal nd) as [p|] eqn:Ep; cbn [if_truthy];
      [|exact H].
    destruct (truthy p); cbn [if_truthy]; [|exact H].
    destruct (truthy (trim p)); [|exact H].
    destruct (truthy (normalize (trim p))); [|exact H].
    apply addChild_ok; [exact H | | exact (Hq eq_refl)].
    rewrite normalize_trim. apply Hp. reflexivity. }
  destruct (Set_has _ _); cbn [fst children]; exact Hch.
Qed.

Lemma dedup_pass_ok (pocket : list node) :
  forall st : state,
  edges_ok R Q (children st) ->
  (forall nd, In nd pocket ->
     (forall p, node_parentOriginal nd = Some p -> R (normalize p)) /\
     (truthy (trim (node_questionOriginal nd)) = true ->
      Q {| key := normalize (trim (node_questionOriginal nd));
           edge_questionOriginal := trim (node_questionOriginal nd) |})) ->
  edges_ok R Q (children (fst (dedup_pass pocket st))).
Proof.
  induction pocket as [|n0 rest IH]; intros st H Hall; cbn [dedup_pass];
    [exact H|].
  pose proof (@dedup_node_ok n0 st H
                (proj1 (Hall n0 (or_introl eq_refl)))
                (proj2 (Hall n0 (or_introl eq_refl)))) as H0.
  destruct (dedup_node n0 st) as [st1 kept]. cbn [fst] in H0.
  pose proof (IH st1 H0 (fun nd Hin => Hall nd (or_intror Hin))) as H1.
  destruct (dedup_pass rest st1) as [st2 U]. exact H1.
Qed.

End EdgeTable.

Lemma edges_ok_impl (R R' : jsstring -> Prop) (Q Q' : edge -> Prop)
  (ch : JsMap (list edge)) :
  (forall k, R k -> R' k) -> (forall e, Q e -> Q' e) ->
  edges_ok R Q ch -> edges_ok R' Q' ch.
Proof.
  intros HR HQ H. unfold edges_ok in *.
  eapply Forall_impl; [|exact H]. intros [k a] (Hk & Ha). cbn [fst snd] in *.
  split; [apply HR, Hk|]. eapply Forall_impl; [|exact Ha]. exact HQ.
Qed.

Section Forest.

Variable P : providers.
Variable max_depth : nat.

Lemma dedup_node_sees (nd : node) (st : state) :
  truthy (trim (node_questionOriginal nd)) = true ->
  In (normalize (trim (node_questionOriginal nd)))
     (seen (fst (dedup_node nd st))).
Proof.
  intros T. unfold dedup_node. rewrite T. cbn [negb].
  destruct (Set_has _ (seen st)) eqn:S; cbn [fst seen].
  - apply Set_has_In, S.
  - rewrite (Set_add_fresh _ _ S). apply in_or_app. right. left. reflexivity.
Qed.

Lemma dedup_pass_sees (pocket : list node) :
  forall (st : state) (nd : node),
  In nd pocket ->
  truthy (trim (node_questionOriginal nd)) = true ->
  In (normalize (trim (node_questionOriginal nd)))
     (seen (fst (dedup_pass pocket st))).
Proof.
  induction pocket as [|n0 rest IH]; intros st nd Hin T; [destruct Hin|].
  cbn [dedup_pass].
  pose proof (fun T0 => @dedup_node_sees n0 st T0) as H0.
  destruct (dedup_node n0 st) as [st1 kept]. cbn [fst] in H0.
  pose proof (IH st1) as H1.
  destruct (dedup_pass rest st1) as [st2 U] eqn:D. cbn [fst] in *.
  destruct Hin as [-> | Hin]; [|exact (H1 nd Hin T)].
  apply dedup_pass_inv in D. destruct D as (_ & _ & _ & S2 & _).
  rewrite S2. apply in_or_app. left. exact (H0 T).
Qed.

Lemma resolve_all_parents (U : list node) :
  forall (st st' : state) (nx : list node),
  resolve_all P max_depth U st = (Ok nx, st') ->
  Forall (fun n => exists u, In u U /\ child_of u n) nx.
Proof.
  induction U as [|nd rest IH]; intros st st' nx H; cbn [resolve_all] in H.
  - unfold ret in H. inversion H; subst. constructor.
  - apply bind_inv in H.
    destruct H as [(nx1 & st1 & H1 & H2) | (e & _ & E)]; [|discriminate E].
    apply resolve_node_inv in H1. destruct H1 as (_ & _ & _ & _ & Hnx).
    destruct (Hnx nx1 eq_refl) as (_ & Hc).
    apply bind_inv in H2.
    destruct H2 as [(nx2 & st2 & H3 & H4) | (e & _ & E)]; [|discriminate E].
    apply IH in H3. unfold ret in H4. inversion H4; subst.
    apply Forall_app. split.
    + eapply Forall_impl; [|exact Hc]. intros n Hn. exists nd.
      split; [left; reflexivity | exact Hn].
    + eapply Forall_impl; [|exact H3]. intros n (u & Hu & Hn). exists u.
      split; [right; exact Hu | exact Hn].
Qed.

(** One round keeps the edges among the keys seen, and the parents of
    the nodes it proposes are keys seen. *)
Lemma round_forest (pocket p' : list node) (st st' : state) :
  round P max_depth pocket st = (Ok p', st') ->
  edges_ok (fun k => In k (seen st)) (fun e => In (key e) (seen st))
           (children st) ->
  (forall nd p, In nd pocket -> node_parentOriginal nd = Some p ->
                In (normalize p) (seen st)) ->
  edges_ok (fun k => In k (seen st')) (fun e => In (key e) (seen st'))
           (children st') /\
  (forall nd p, In nd p' -> node_parentOriginal nd = Some p ->
                In (normalize p) (seen st')).
Proof.
  intros H He Hp.
  pose proof H as Hs. apply round_seen in Hs. destruct Hs as (Es & more & Em).
  assert (Ec : children st' = children (fst (dedup_pass pocket st))).
  { unfold round in H. destruct (dedup_pass pocket st) as [st1 U].
    cbn [fst]. destruct U; [inversion H; subst; reflexivity|].
    eapply resolve_all_children. exact H. }
  assert (Hinc : forall k, In k (seen st) -> In k (seen st'))
    by (intros k Hk; rewrite Em; apply in_or_app; left; exact Hk).
  split.
  - rewrite Ec. apply dedup_pass_ok.
    + eapply edges_ok_impl; [| |exact He]; cbn beta; auto.
    + intros nd Hin. split.
      * intros p Hpar. apply Hinc. exact (Hp nd p Hin Hpar).
      * intros T. cbn [key]. rewrite Es. apply dedup_pass_sees; assumption.
  - unfold round in H. destruct (dedup_pass pocket st) as [st1 U] eqn:D.
    cbn [fst] in Es.
    destruct U as [|u0 U]; [inversion H; subst; intros nd p []|].
    apply resolve_all_parents in H. rewrite Forall_forall in H.
    intros nd p Hin Hpar. destruct (H nd Hin) as (u & Hu & _ & Hpu & _).
    rewrite Hpar in Hpu. inversion Hpu; subst p.
    apply dedup_pass_inv in D. destruct D as (_ & _ & _ & S1 & _).
    rewrite Es, S1. apply in_or_app. right.
    apply in_map_iff. exists u. split; [reflexivity | exact Hu].
Qed.

Lemma rounds_forest (n : nat) :
  forall (pocket p' : list node) (st st' : state),
  rounds P max_depth n pocket st = (Ok p', st') ->
  edges_ok (fun k => In k (seen st)) (fun e => In (key e) (seen st))
           (children st) ->
  (forall nd p, In nd pocket -> node_parentOriginal nd = Some p ->
                In (normalize p) (seen st)) ->
  edges_ok (fun k => In k (seen st')) (fun e => In (key e) (seen st'))
           (children st').
Proof.
  induction n as [|n IH]; intros pocket p' st st' H He Hp;
    cbn [rounds] in H.
  - unfold ret in H. inversion H; subst. exact He.
  - apply bind_inv in H.
    destruct H as [(p1 & st1 & H1 & H2) | (e & _ & E)]; [|discriminate E].
    eapply round_forest in H1; [|exact He|exact Hp].
    destruct H1 as (He1 & Hp1).
    exact (IH _ _ _ _ H2 He1 Hp1).
Qed.

End Forest.

(** X19.  When the loop of a run has finished without a throw, the table
    of edges joins answered questions only: every key of [children] has
    an entry in [answered], and so has the child key of every edge
    recorded under it. *)
Theorem edges_join_answered_questions (P : providers) (d fuel : nat)
  (q : jsstring) (st : state) :
  frontier_loop P d fuel (root_pocket q) initial_state = Some (Ok tt, st) ->
  forall pk arr,
    Map_get pk (children st) = Some arr ->
    Map_has pk (answered st) = true /\
    forall e, In e arr -> Map_has (key e) (answered st) = true.
Proof.
  intros H pk arr Hget.
  apply frontier_loop_rounds in H. destruct H as (n & _ & Hn).
  assert (Hfull : writes st = seen st /\ Map_keys (answered st) = writes st).
  { pose proof Hn as Hi. apply rounds_inv in Hi; [|apply engine_inv_initial].
    destruct Hi as ((_ & _ & _ & Hk & _) & _ & Hf).
    split; [exact (Hf eq_refl [] eq_refl) | exact Hk]. }
  destruct Hfull as (Hw & Hk).
  assert (Hhas : forall k, In k (seen st) -> Map_has k (answered st) = true).
  { intros k Hin. rewrite <- Hw, <- Hk in Hin. unfold Map_has.
    destruct (Map_get k (answered st)) eqn:E; [reflexivity|].
    exfalso. clear - Hin E. unfold Map_keys in Hin.
    induction (answered st) as [|[k' v'] r IH]; [destruct Hin|].
    cbn [Map_get] in E. destruct (jsstring_eqb k' k) eqn:Ek;
      [discriminate E|].
    destruct Hin as [<- | Hin]; [|exact (IH Hin E)].
    cbn [fst] in Ek. rewrite jsstring_eqb_refl in Ek. discriminate Ek. }
  apply rounds_forest in Hn.
  - eapply edges_ok_get in Hget; [|exact Hn].
    destruct Hget as (Hpk & Harr).
    split; [apply Hhas, Hpk|]. intros e He. apply Hhas.
    rewrite Forall_forall in Harr. exact (Harr e He).
  - constructor.
  - intros nd p [<- | []] Hpar. discriminate Hpar.
Qed.

Lemma edges_join_answered_questions_witness :
  exists st arr,
    frontier_loop
      (sample_services None true (Ok (lit "40M in 2023.")) [] []
         [lit "What was the 2022 revenue?"])
      1 2 (root_pocket (lit "What was the 2023 revenue?")) initial_state
    = Some (Ok tt, st) /\
    Map_get (lit "what was the 2023 revenue?") (children st) = Some arr /\
    arr <> [] /\
    forall e, In e arr -> Map_has (key e) (answered st) = true.
Proof.
  assert (Hrun : exists st,
    frontier_loop
      (sample_services None true (Ok (lit "40M in 2023.")) [] []
         [lit "What was the 2022 revenue?"])
      1 2 (root_pocket (lit "What was the 2023 revenue?")) initial_state
    = Some (Ok tt, st) /\
    exists arr,
      Map_get (lit "what was the 2023 revenue?") (children st) = Some arr /\
      arr <> []).
  { eexists. split; [vm_compute; reflexivity|].
    eexists. split; [vm_compute; reflexivity | discriminate]. }
  destruct Hrun as (st & Hrun & arr & Hget & Hne).
  exists st, arr. split; [exact Hrun|]. split; [exact Hget|].
  split; [exact Hne|].
  exact (proj2 (@edges_join_answered_questions _ 1 2 _ st Hrun _ _ Hget)).
Defined.

(** ** When the rendering of the tree ends *)

Section RenderOfARun.

Variable P : providers.

Lemma rounds_nil (d n : nat) :
  forall st : state, rounds P d n [] st = (Ok [], st).
Proof.
  induction n as [|n IH]; intros st; cbn [rounds]; [reflexivity|].
  assert (E : round P d [] st = (Ok [], st)) by reflexivity.
  unfold bind. rewrite E. apply IH.
Qed.

(** With [MAX_DEPTH] 1 the follow-ups of the root propose nothing: the
    edges of a completed run are those recorded for the follow-ups of
    the root. *)
Lemma depth_one_children (n : nat) (p1 : list node) (st1 st : state) :
  engine_inv P st1 ->
  Forall (fun nd => 1 <= depth nd) p1 ->
  rounds P MAX_DEPTH n p1 st1 = (Ok [], st) ->
  children st = children (fst (dedup_pass p1 st1)).
Proof.
  intros I Hd H. destruct n as [|n]; cbn [rounds] in H.
  - unfold ret in H. inversion H; subst. reflexivity.
  - apply bind_inv in H.
    destruct H as [(p2 & st2 & H1 & H2) | (e & _ & E)]; [|discriminate E].
    apply round_inv in H1; [|exact I].
    destruct H1 as (_ & _ & _ & Hch & Hp).
    destruct (Hp p2 eq_refl) as (_ & Hk).
    destruct (Hk 1 Hd) as (_ & Hnil).
    rewrite (Hnil (le_n 1)) in H2. rewrite rounds_nil in H2.
    inversion H2; subst. exact Hch.
Qed.

Variable ans : JsMap entry.
Variable ch : JsMap (list edge).

Lemma render_kid_overflow (f : nat) (q : jsstring) (i : nat) (k : edge) :
  In k (match Map_get (normalize q) ch with Some a => a | None => [] end) ->
  render f ans ch (edge_questionOriginal k) (i + 1) = None ->
  render (S f) ans ch q i = None.
Proof.
  intros Hin Hk. cbn [render].
  set (l := match Map_get (normalize q) ch with
            | Some a => a | None => [] end) in *.
  clearbody l. induction l as [|k0 r IH]; [destruct Hin|].
  destruct Hin as [-> | Hin].
  - cbn. rewrite Hk. reflexivity.
  - specialize (IH Hin). cbn.
    destruct (render f ans ch (edge_questionOriginal k0) (i + 1));
      [|reflexivity].
    match type of IH with
    | match ?X with _ => _ end = _ => destruct X; [discriminate IH|]
    end.
    reflexivity.
Qed.

Lemma render_kids_end (f : nat) (q : jsstring) (i : nat) :
  (forall k,
     In k (match Map_get (normalize q) ch with
           | Some a => a | None => [] end) ->
     exists s, render f ans ch (edge_questionOriginal k) (i + 1) = Some s) ->
  exists s, render (S f) ans ch q i = Some s.
Proof.
  intros H. cbn [render].
  set (l := match Map_get (normalize q) ch with
            | Some a => a | None => [] end) in *.
  clearbody l.
  match goal with
  | |- exists s, match ?X with _ => _ end = _ =>
      assert (E : exists body, X = Some body)
  end.
  { induction l as [|k0 r IH]; [exists []; reflexivity|].
    destruct (H k0 (or_introl eq_refl)) as (s0 & E0).
    destruct IH as (b & Eb); [intros k Hk; apply H; right; exact Hk|].
    cbn. rewrite E0, Eb. eexists. reflexivity. }
  destruct E as (b & ->). eexists. reflexivity.
Qed.

(** A question under whose key an edge leads back to the same key is
    rendered by no number of nested calls. *)
Lemma render_self_loop (rk : jsstring) (arr : list edge) (e : edge) :
  Map_get rk ch = Some arr -> In e arr ->
  normalize (edge_questionOriginal e) = rk ->
  forall f q i, normalize q = rk -> render f ans ch q i = None.
Proof.
  intros Hget Hin He. induction f as [|f IH]; intros q i Hq; [reflexivity|].
  apply render_kid_overflow with (k := e).
  - rewrite Hq, Hget. exact Hin.
  - apply IH. exact He.
Qed.

Lemma render_rooted (rk q : jsstring) (i : nat) :
  edges_ok (fun k => k = rk) (fun _ => True) ch ->
  (forall arr e, Map_get rk ch = Some arr -> In e arr ->
                 normalize (edge_questionOriginal e) <> rk) ->
  normalize q = rk ->
  exists s, render (List.length ch + 1) ans ch q i = Some s.
Proof.
  intros Hok Hno Hq.
  destruct (Map_get rk ch) as [arr|] eqn:Hget.
  - assert (Hlen : exists m, List.length ch + 1 = S (S m)).
    { destruct ch as [|x r]; [discriminate Hget|].
      exists (List.length r). cbn [List.length]. lia. }
    destruct Hlen as (m & ->). apply render_kids_end.
    rewrite Hq, Hget. intros k Hk. apply render_kids_end.
    destruct (Map_get (normalize (edge_questionOriginal k)) ch)
      as [a|] eqn:Hk2; [|intros k' []].
    exfalso. eapply edges_ok_get in Hk2; [|exact Hok].
    exact (Hno arr k eq_refl Hk (proj1 Hk2)).
  - replace (List.length ch + 1) with (S (List.length ch)) by lia.
    apply render_kids_end. rewrite Hq, Hget. intros k [].
Qed.

End RenderOfARun.

(** X20.  When the loop of a run has finished without a throw, the run
    returns its blocks exactly when no edge under the key of the root
    question leads back to that key, that is, when no follow-up of the
    root normalizes to the root's own key; otherwise the recursion of
    [render] never ends and the run throws. *)
Theorem run_succeeds_unless_root_is_its_own_child (P : providers)
  (fuel : nat) (chat : list message) (st : state) :
  truthy (extractLatestUserQuestion chat) = true ->
  run_frontier P MAX_DEPTH fuel (extractLatestUserQuestion chat)
  = Some (Ok tt, st) ->
  (edges_to (normalize (extractLatestUserQuestion chat))
            (normalize (extractLatestUserQuestion chat)) (children st) = [] ->
   exists blocks rendered stats,
     answerWithAgent P fuel chat
     = Some (Ok (Success blocks rendered stats))) /\
  (edges_to (normalize (extractLatestUserQuestion chat))
            (normalize (extractLatestUserQuestion chat)) (children st) <> [] ->
   answerWithAgent P fuel chat
   = Some (Throw (lit "Maximum call stack size exceeded"))).
Proof.
  intros T Hrun.
  assert (Itrim : trim (extractLatestUserQuestion chat)
                  = extractLatestUserQuestion chat)
    by apply latest_user_question_trimmed.
  unfold answerWithAgent. rewrite T, Hrun. cbn [negb]. rewrite Itrim.
  set (q := extractLatestUserQuestion chat) in *.
  apply run_frontier_first_round in Hrun; [|exact T | exact Itrim].
  destruct Hrun as (p1 & st1 & e1 & n & Hround & _ & _ & Hch1 & Hc & Hn & _).
  assert (I1 : engine_inv P st1).
  { apply round_inv in Hround; [|apply engine_inv_initial].
    exact (proj1 Hround). }
  assert (Hch : children st = children (fst (dedup_pass p1 st1))).
  { eapply depth_one_children; [exact I1 | | exact Hn].
    eapply Forall_impl; [|exact Hc]. intros nd (Hd & _).
    cbn [depth] in Hd. lia. }
  assert (Hok : edges_ok (fun k => k = normalize q)
                  (fun e => key e = normalize (edge_questionOriginal e))
                  (children st)).
  { rewrite Hch. apply dedup_pass_ok.
    - rewrite Hch1. constructor.
    - intros nd Hin. rewrite Forall_forall in Hc.
      destruct (Hc nd Hin) as (_ & Hp & _). cbn [node_questionOriginal] in Hp.
      split; [|reflexivity].
      intros p Hp'. rewrite Hp in Hp'. inversion Hp'; subst. reflexivity. }
  unfold edges_to.
  destruct (Map_get (normalize q) (children st)) as [arr|] eqn:Hget.
  - split.
    + intros Hnone.
      destruct (@render_rooted (answered st) (children st) (normalize q) q 0)
        as (s & Es).
      * eapply edges_ok_impl; [| |exact Hok]; cbn beta; auto.
      * intros arr' e Hget' He Hloop. rewrite Hget in Hget'.
        inversion Hget'; subst arr'.
        eapply edges_ok_get in Hget; [|exact Hok].
        destruct Hget as (_ & Hkeys). rewrite Forall_forall in Hkeys.
        assert (Hin : In e (filter (fun x => jsstring_eqb (key x)
                                                (normalize q)) arr)).
        { apply filter_In. split; [exact He|].
          rewrite (Hkeys e He), Hloop. apply jsstring_eqb_refl. }
        rewrite Hnone in Hin. destruct Hin.
      * reflexivity.
      * rewrite Es. eauto.
    + intros Hsome.
      destruct (filter _ arr) as [|e r] eqn:Ef; [congruence|].
      assert (Hin : In e (filter (fun x => jsstring_eqb (key x)
                                              (normalize q)) arr))
        by (rewrite Ef; left; reflexivity).
      apply filter_In in Hin. destruct Hin as (He & Hk).
      apply jsstring_eqb_eq in Hk.
      pose proof Hget as Hget2.
      eapply edges_ok_get in Hget2; [|exact Hok].
      destruct Hget2 as (_ & Hkeys). rewrite Forall_forall in Hkeys.
      rewrite (Hkeys e He) in Hk.
      rewrite (@render_self_loop (answered st) (children st) (normalize q)
                 arr e Hget He Hk _ q 0 eq_refl).
      reflexivity.
  - split; [|intros Hsome; cbn [filter] in Hsome; congruence].
    intros _.
    destruct (@render_rooted (answered st) (children st) (normalize q) q 0)
      as (s & Es).
    + eapply edges_ok_impl; [| |exact Hok]; cbn beta; auto.
    + intros arr e Hget'. rewrite Hget in Hget'. discriminate Hget'.
    + reflexivity.
    + rewrite Es. eauto.
Qed.

Lemma run_succeeds_unless_root_is_its_own_child_witness :
  (exists blocks rendered stats,
     answerWithAgent
       (sample_services None true (Ok (lit "40M in 2023.")) [] []
          [lit "What was the 2022 revenue?"])
       2 (user_says "What was the 2023 revenue?")
     = Some (Ok (Success blocks rendered stats))) /\
  answerWithAgent
    (sample_services None true (Ok (lit "40M in 2023.")) [] []
       [lit "what was the  2023 revenue?"])
    2 (user_says "What was the 2023 revenue?")
  = Some (Throw (lit "Maximum call stack size exceeded")).
Proof.
  split.
  - assert (Hrun : exists st,
      run_frontier
        (sample_services None true (Ok (lit "40M in 2023.")) [] []
           [lit "What was the 2022 revenue?"])
        MAX_DEPTH 2
        (extractLatestUserQuestion (user_says "What was the 2023 revenue?"))
      = Some (Ok tt, st) /\
      edges_to
        (normalize
           (extractLatestUserQuestion
              (user_says "What was the 2023 revenue?")))
        (normalize
           (extractLatestUserQuestion
              (user_says "What was the 2023 revenue?")))
        (children st) = []).
    { eexists. split; vm_compute; reflexivity. }
    destruct Hrun as (st & Hrun & Hnone).
    exact (proj1 (@run_succeeds_unless_root_is_its_own_child
                    (sample_services None true (Ok (lit "40M in 2023."))
                       [] [] [lit "What was the 2022 revenue?"])
                    2 (user_says "What was the 2023 revenue?") st
                    eq_refl Hrun) Hnone).
  - assert (Hrun : exists st,
      run_frontier
        (sample_services None true (Ok (lit "40M in 2023.")) [] []
           [lit "what was the  2023 revenue?"])
        MAX_DEPTH 2
        (extractLatestUserQuestion (user_says "What was the 2023 revenue?"))
      = Some (Ok tt, st) /\
      edges_to
        (normalize
           (extractLatestUserQuestion
              (user_says "What was the 2023 revenue?")))
        (normalize
           (extractLatestUserQuestion
              (user_says "What was the 2023 revenue?")))
        (children st) <> []).
    { eexists. split; [vm_compute; reflexivity|]. vm_compute. discriminate. }
    destruct Hrun as (st & Hrun & Hsome).
    exact (proj2 (@run_succeeds_unless_root_is_its_own_child
                    (sample_services None true (Ok (lit "40M in 2023."))
                       [] [] [lit "what was the  2023 revenue?"])
                    2 (user_says "What was the 2023 revenue?") st
                    eq_refl Hrun) Hsome).
Defined.

(** ** The blocks the page keeps *)

(** X21.  Of the blocks of a successful run, [filterGoodBlocks] keeps
    only blocks of questions that were classified quantifiable, each
    with an answer that is not blank: the sentinel the engine stores for
    a non-quantifiable question is one of the answers the page drops. *)
Theorem page_keeps_only_quantifiable_blocks (P : providers) (fuel : nat)
  (chat : list message) (blocks : list block) (rendered : jsstring)
  (stats : run_stats) :
  answerWithAgent P fuel chat = Some (Ok (Success blocks rendered stats)) ->
  forall b, In b (filterGoodBlocks blocks) ->
    isQuantifiable P (question b) = Ok true /\
    truthy (trim (block_answer b)) = true.
Proof.
  intros H b Hb. apply answerWithAgent_success_inv in H.
  destruct H as (st & n & _ & _ & _ & -> & _ & (_ & _ & _ & _ & Hok) & _).
  unfold filterGoodBlocks in Hb. apply filter_In in Hb.
  destruct Hb as (Hb & Hkeep). apply andb_true_iff in Hkeep.
  destruct Hkeep as (Hblank & Hbad). split; [|exact Hblank].
  apply in_map_iff in Hb. destruct Hb as (b0 & <- & Hb0).
  cbn [question block_answer] in *.
  apply make_blocks_In in Hb0. destruct Hb0 as (e & He & Hq & Ha & _).
  unfold Map_values in He. apply in_map_iff in He.
  destruct He as ([k e'] & <- & Hin). cbn [snd] in *.
  rewrite Forall_forall in Hok. destruct (Hok _ Hin) as (_ & _ & Hkind).
  cbn [snd] in Hkind. rewrite Hq.
  destruct Hkind as [(_ & _ & Hans & _) | [(Hyes & _) | (Hyes & _)]];
    [|exact Hyes | exact Hyes].
  rewrite Ha, Hans in Hbad. vm_compute in Hbad. discriminate Hbad.
Qed.

Lemma page_keeps_only_quantifiable_blocks_witness :
  exists blocks rendered stats b,
    answerWithAgent
      (sample_services None true (Ok (lit "40M in 2023.")) [] []
         [lit "What was the 2022 revenue?"])
      2 (user_says "What was the 2023 revenue?")
    = Some (Ok (Success blocks rendered stats)) /\
    In b (filterGoodBlocks blocks) /\
    truthy (trim (block_answer b)) = true.
Proof.
  assert (Hrun : exists blocks rendered stats b,
    answerWithAgent
      (sample_services None true (Ok (lit "40M in 2023.")) [] []
         [lit "What was the 2022 revenue?"])
      2 (user_says "What was the 2023 revenue?")
    = Some (Ok (Success blocks rendered stats)) /\
    In b (filterGoodBlocks blocks)).
  { do 4 eexists. split; [vm_compute; reflexivity|].
    vm_compute. left. reflexivity. }
  destruct Hrun as (blocks & rendered & stats & b & Hrun & Hb).
  exists blocks, rendered, stats, b.
  split; [exact Hrun|]. split; [exact Hb|].
  exact (proj2 (@page_keeps_only_quantifiable_blocks _ _ _ _ _ _ Hrun b Hb)).
Defined.
